(** * token-indexer: the resumable synchronisation engine

    A shallow embedding of the indexing services of the repository
    (IndexingService, IndexingProcessor, AutoResumeService, ShutdownService,
    HealthMonitoringService) and the properties of its specification.

    The services are asynchronous TypeScript methods over three TypeORM
    repositories, three Bull queues, a ledger client and a logger.  They are
    embedded as computations of a state-and-exception monad over a [World]
    that holds the tables, the queues, the log and the clock.  Calls into a
    collaborator (storage, queue, ledger) may throw: an [Env] carries a fault
    plan that says, by collaborator and call number, which of them do,
    and how long each takes to settle, if it settles at all: the shutdown
    drain, which measures time, awaits its calls for that long.
    The two `while` loops take fuel; one unit per round. *)

From Stdlib Require Import ZArith List String Ascii Bool Lia.
From stdpp Require Import base gmap strings pretty.
Import ListNotations.
Open Scope string_scope.
Open Scope list_scope.
Open Scope Z_scope.

(* ===================================================================== *)
(** ** JavaScript values and strings *)
(* ===================================================================== *)

(** [String.prototype.toLowerCase] on the ASCII range (contract addresses
    are hexadecimal strings). *)
Definition lower_ascii (c : ascii) : ascii :=
  let n := nat_of_ascii c in
  if (Nat.leb 65 n && Nat.leb n 90)%bool then ascii_of_nat (n + 32) else c.

Fixpoint toLowerCase (s : string) : string :=
  match s with
  | EmptyString => EmptyString
  | String c s' => String (lower_ascii c) (toLowerCase s')
  end.

(** [s.includes(searchString)] *)
Fixpoint includes (s searchString : string) : bool :=
  (String.prefix searchString s ||
   match s with
   | EmptyString => false
   | String _ s' => includes s' searchString
   end)%bool.

(** An element of [TokenEvent.args : any[]] as it arrives in a job payload.
    A number is an integer of magnitude below 10^21, the numbers that
    [toString] prints as their decimal digits; amounts are bigints, which
    getTokenEvents turns into strings. *)
Inductive JsValue :=
| JsString (s : string)
| JsNumber (n : Z)
| JsBool (b : bool)
| JsNull.

Inductive QueueName := INDEXING_QUEUE | BLOCK_PROCESSING_QUEUE | EVENT_PROCESSING_QUEUE.

(** The collaborators of the services. *)
Inductive Collaborator :=
| Ledger                       (* BlockchainService over the RPC provider *)
| ProgressStore                (* Repository<IndexingProgress> *)
| TransferStore                (* Repository<TokenTransfer> *)
| FailureSink                  (* Repository<FailedEvent> *)
| WorkQueue (q : QueueName).   (* a Bull queue *)

(** Errors thrown by the services themselves or by a collaborator. *)
Inductive Error :=
| NotConfiguredOrDisabled (contractAddress : string)
    (* `Contract ${contractAddress} not configured or disabled` *)
| InvalidContractAddress (contractAddress : string)
    (* `Invalid contract address: ${contractAddress}` *)
| NoIndexingProgress (contractAddress : string)
    (* `No indexing progress found for contract ${contractAddress}` *)
| TypeError
    (* a method called on undefined, null or a value without it *)
| UniqueViolation
    (* the unique index of indexing_progress rejects an insert *)
| CollaboratorError (c : Collaborator) (call : nat).
    (* the call number [call], into [c], failed (connection lost, ...) *)

(* ===================================================================== *)
(** ** Data model *)
(* ===================================================================== *)

Module TokenEvent.

Record t := mk {
  transactionHash : string;
  logIndex : Z;
  blockNumber : Z;
  blockHash : string;
  contractAddress : string;
  eventName : string;
  args : list JsValue
}.

End TokenEvent.

(** indexing_progress: unique on (contractAddress, chainId).  The bigint
    columns, which TypeORM hands over as decimal strings, are integers. *)
Module IndexingProgress.

Record t := mk {
  contractAddress : string;
  chainId : Z;
  lastProcessedBlock : Z;
  isSyncing : bool;
  syncStartBlock : Z;
  totalEventsProcessed : Z;
  updatedAt : Z
}.

Definition set_isSyncing (b : bool) (now : Z) (r : t) : t :=
  mk (contractAddress r) (chainId r) (lastProcessedBlock r) b
     (syncStartBlock r) (totalEventsProcessed r) now.

Definition set_lastProcessedBlock (n : Z) (now : Z) (r : t) : t :=
  mk (contractAddress r) (chainId r) n (isSyncing r)
     (syncStartBlock r) (totalEventsProcessed r) now.

Definition increment_totalEventsProcessed (d : Z) (now : Z) (r : t) : t :=
  mk (contractAddress r) (chainId r) (lastProcessedBlock r) (isSyncing r)
     (syncStartBlock r) (totalEventsProcessed r + d) now.

(** The row is the one of (address, chain). *)
Definition has_key (address : string) (chain : Z) (r : t) : bool :=
  (String.eqb (contractAddress r) address && Z.eqb (chainId r) chain)%bool.

End IndexingProgress.

(** token_transfers.  The entity declaration is not part of the sources at
    hand; the fields are those [processTransferEvent] writes. *)
Module TokenTransfer.

Record t := mk {
  transactionHash : string;
  logIndex : Z;
  blockNumber : Z;
  blockHash : string;
  contractAddress : string;
  fromAddress : string;
  toAddress : string;
  value : string;
  chainId : Z;
  processedAt : Z
}.

Definition has_key (hash : string) (index : Z) (r : t) : bool :=
  (String.eqb (transactionHash r) hash && Z.eqb (logIndex r) index)%bool.

End TokenTransfer.

Module FailedEvent.

Record t := mk {
  contractAddress : string;
  chainId : Z;
  blockNumber : Z;
  transactionHash : string;
  logIndex : Z;
  eventData : TokenEvent.t;
  errorMessage : Error;
  retryCount : Z
}.

End FailedEvent.

(** One entry of the configuration object `indexing.contracts`. *)
Inductive StartBlock := Latest | AtBlock (n : Z).

Module ContractConfig.

Record t := mk {
  address : string;
  chainId : Z;
  startBlock : StartBlock;
  events : list string;
  enabled : bool
}.

End ContractConfig.

(* ===================================================================== *)
(** ** Work queues *)
(* ===================================================================== *)

Module IndexingJob.

Record t := mk {
  contractAddress : string;
  chainId : Z;
  fromBlock : Z;
  toBlock : Z;
  events : list string
}.

End IndexingJob.

Module ProcessEventJob.

Record t := mk {
  event : TokenEvent.t;
  contractAddress : string;
  chainId : Z
}.

End ProcessEventJob.

(** The payloads of the three job kinds. *)
Inductive JobData :=
| StartIndexing (contractAddress : string) (chainId : Z) (events : list string)
| ProcessBlockRange (job : IndexingJob.t)
| ProcessEvent (job : ProcessEventJob.t).

Definition data_contractAddress (d : JobData) : string :=
  match d with
  | StartIndexing a _ _ => a
  | ProcessBlockRange j => IndexingJob.contractAddress j
  | ProcessEvent j => ProcessEventJob.contractAddress j
  end.

Definition data_chainId (d : JobData) : Z :=
  match d with
  | StartIndexing _ c _ => c
  | ProcessBlockRange j => IndexingJob.chainId j
  | ProcessEvent j => ProcessEventJob.chainId j
  end.

Module JobOpts.

Record t := mk {
  priority : option Z;
  delay : option Z;
  attempts : option Z;
  backoff : option Z   (* { type: 'exponential', delay } *)
}.

End JobOpts.

Module Job.

Record t := mk {
  id : nat;
  name : string;
  data : JobData;
  opts : JobOpts.t
}.

End Job.

(** A Bull queue, as far as these services act on it: the jobs that wait,
    the jobs that are delayed, the next job id and whether it was closed.
    The active jobs are in the hands of Bull's workers; the drain reads
    them through the environment. *)
Module Queue.

Record t := mk {
  waiting : list Job.t;
  delayed : list Job.t;
  nextId : nat;
  closed : bool
}.

Definition empty : t := mk [] [] 1 false.

(** [queue.add(name, data, opts)]: a positive delay parks the job. *)
Definition add (name : string) (data : JobData) (opts : JobOpts.t) (q : t) : t :=
  let j := Job.mk (nextId q) name data opts in
  match JobOpts.delay opts with
  | Some d =>
      if Z.ltb 0 d
      then mk (waiting q) (delayed q ++ [j]) (S (nextId q)) (closed q)
      else mk (waiting q ++ [j]) (delayed q) (S (nextId q)) (closed q)
  | None => mk (waiting q ++ [j]) (delayed q) (S (nextId q)) (closed q)
  end.

Fixpoint addBulk (jobs : list (string * JobData * JobOpts.t)) (q : t) : t :=
  match jobs with
  | [] => q
  | (n, d, o) :: rest => addBulk rest (add n d o q)
  end.

(** [job.remove()] *)
Definition remove (i : nat) (q : t) : t :=
  mk (List.filter (fun j => negb (Nat.eqb (Job.id j) i)) (waiting q))
     (List.filter (fun j => negb (Nat.eqb (Job.id j) i)) (delayed q))
     (nextId q) (closed q).

Definition close (q : t) : t := mk (waiting q) (delayed q) (nextId q) true.

End Queue.

(* ===================================================================== *)
(** ** The log *)
(* ===================================================================== *)

Inductive Level := LOG | ERROR | WARN | DEBUG.

(** The messages of the services, by their text in the source. *)
Inductive Message :=
| MsgStartedIndexing (contractAddress : string)
| MsgFailedToStartIndexing (contractAddress : string) (e : Error)
| MsgFailedBlockRangeJob (e : Error)
| MsgFailedEventJob (e : Error)
| MsgProcessingBlocks (fromBlock toBlock : Z) (contractAddress : string)
| MsgFoundEvents (n : nat) (contractAddress : string)
| MsgCompletedProcessingBlocks (fromBlock toBlock : Z) (contractAddress : string)
| MsgFailedToProcessBlockRange (contractAddress : string) (e : Error)
| MsgEventAlreadyProcessed (transactionHash : string) (logIndex : Z)
| MsgApprovalEventProcessed (transactionHash : string)
| MsgFailedToProcessEvent (transactionHash : string) (logIndex : Z) (e : Error)
| MsgProcessedTransfer (from to value : string)
| MsgStoppingIndexing (contractAddress : string)
| MsgSuccessfullyStopped (contractAddress : string)
| MsgFailedToStopIndexing (contractAddress : string) (e : Error)
| MsgUpdatedSyncingStatus (contractAddress : string) (isSyncing : bool)
| MsgFailedToUpdateSyncingStatus (contractAddress : string) (e : Error)
| MsgRemovedJob (queue : string) (jobId : nat) (contractAddress : string)
| MsgFailedToRemoveJobs (contractAddress : string) (e : Error)
| MsgStartingIndexingProcess (contractAddress : string)
| MsgIndexingWasStopped (contractAddress : string)
| MsgUpToDate (contractAddress : string)
| MsgStoppedDuringBatch (contractAddress : string)
| MsgAutoResumeStarting
| MsgCheckingContractsToResume
| MsgResetStuck (affected : nat)
| MsgFailedToResetStuck (e : Error)
| MsgFoundEnabledContracts (n : nat)
| MsgResuming (address : string) (lastProcessedBlock : Z)
| MsgNotPreviouslyIndexed (address : string)
| MsgFailedToResume (address : string) (e : Error)
| MsgAutoResumeCompleted
| MsgFailedToAutoResume (e : Error)
| MsgShutdownInitiated
| MsgMarkedStopped (affected : nat)
| MsgFailedToMarkStopped (e : Error)
| MsgWaitingForActiveJobs
| MsgQueueHasActiveJobs (queue : string) (n : nat)
| MsgFailedToGetActiveJobs (queue : string) (e : Error)
| MsgAllJobsCompleted
| MsgTimeoutReached
| MsgClosedQueue (queue : string)
| MsgFailedToCloseQueue (queue : string) (e : Error)
| MsgGracefulShutdownCompleted
| MsgErrorDuringShutdown (e : Error)
| MsgFailedToGetSystemHealth (e : Error)
| MsgBlockchainHealthCheckFailed (e : Error)
| MsgIndexingHealthCheckFailed (e : Error)
| MsgDatabaseHealthCheckFailed (e : Error).

(* ===================================================================== *)
(** ** World, environment and the monad of the services *)
(* ===================================================================== *)

Record World := mkWorld {
  indexingProgressRepository : list IndexingProgress.t;
  tokenTransferRepository : list TokenTransfer.t;
  failedEventRepository : list FailedEvent.t;
  indexingQueue : Queue.t;
  blockProcessingQueue : Queue.t;
  eventProcessingQueue : Queue.t;
  logs : list (Level * Message);
  now : Z;          (* Date.now() *)
  tick : nat        (* number of collaborator calls made so far *)
}.

(** What the surroundings answer during one operation. *)
Record Env := mkEnv {
  faults : Collaborator -> nat -> bool;
    (* the call with this number throws when it goes to this collaborator *)
  settles : Collaborator -> nat -> option N;
    (* the milliseconds the call with this number takes to settle when it
       goes to this collaborator; [None]: its promise stays pending *)
  contracts : list (string * ContractConfig.t);
    (* configService.get('indexing.contracts'), in key order *)
  batchSize : Z;
    (* configService.get('blockchain.polygon.batchSize') *)
  rpcUrl : option JsValue;
    (* configService.get('blockchain.polygon.rpcUrl') *)
  currentBlockNumber : Z;
    (* the height the ledger reports *)
  hasCode : string -> bool;
    (* provider.getCode(address) !== '0x' *)
  tokenEvents : string -> list string -> Z -> Z -> list TokenEvent.t;
    (* the ledger's events of a contract, of the given kinds, in a range *)
  activeJobs : QueueName -> nat -> list Job.t;
    (* queue.getActive() when asked as collaborator call number k *)
  startTime : Z
    (* HealthMonitoringService.startTime *)
}.

(** How a run ends.  [OutOfFuel] is the run that has not come back: the
    fuel of a loop is used up, or an awaited promise stays pending (then
    no fuel helps). *)
Inductive Outcome (A : Type) :=
| Returned (a : A)
| Thrown (e : Error)
| OutOfFuel.
Arguments Returned {A} a.
Arguments Thrown {A} e.
Arguments OutOfFuel {A}.

Definition M (A : Type) : Type := Env -> World -> Outcome A * World.

Definition ret {A} (a : A) : M A := fun _ w => (Returned a, w).

Definition bind {A B} (m : M A) (k : A -> M B) : M B := fun env w =>
  match m env w with
  | (Returned a, w') => k a env w'
  | (Thrown e, w') => (Thrown e, w')
  | (OutOfFuel, w') => (OutOfFuel, w')
  end.

Definition throw {A} (e : Error) : M A := fun _ w => (Thrown e, w).

Definition outOfFuel {A} : M A := fun _ w => (OutOfFuel, w).

(** [try { body } catch (error) { handler }] *)
Definition try_catch {A} (body : M A) (handler : Error -> M A) : M A := fun env w =>
  match body env w with
  | (Thrown e, w') => handler e env w'
  | r => r
  end.

Notation "x <- c ;; k" := (bind c (fun x => k))
  (at level 100, c at next level, right associativity).
Notation "c ;;; k" := (bind c (fun _ => k))
  (at level 100, right associativity).

Definition ask {A} (f : Env -> A) : M A := fun env w => (Returned (f env), w).
Definition get {A} (f : World -> A) : M A := fun _ w => (Returned (f w), w).
Definition modify (f : World -> World) : M unit := fun _ w => (Returned tt, f w).

(** [for (const x of xs) { await f(x) }] *)
Fixpoint forEach {A} (f : A -> M unit) (xs : list A) : M unit :=
  match xs with
  | [] => ret tt
  | x :: rest => f x ;;; forEach f rest
  end.

(** Field updates of the world. *)
Definition with_progress (f : list IndexingProgress.t -> list IndexingProgress.t) (w : World) : World :=
  mkWorld (f (indexingProgressRepository w)) (tokenTransferRepository w)
    (failedEventRepository w) (indexingQueue w) (blockProcessingQueue w)
    (eventProcessingQueue w) (logs w) (now w) (tick w).
Definition with_transfers (f : list TokenTransfer.t -> list TokenTransfer.t) (w : World) : World :=
  mkWorld (indexingProgressRepository w) (f (tokenTransferRepository w))
    (failedEventRepository w) (indexingQueue w) (blockProcessingQueue w)
    (eventProcessingQueue w) (logs w) (now w) (tick w).
Definition with_failed (f : list FailedEvent.t -> list FailedEvent.t) (w : World) : World :=
  mkWorld (indexingProgressRepository w) (tokenTransferRepository w)
    (f (failedEventRepository w)) (indexingQueue w) (blockProcessingQueue w)
    (eventProcessingQueue w) (logs w) (now w) (tick w).
Definition with_logs (f : list (Level * Message) -> list (Level * Message)) (w : World) : World :=
  mkWorld (indexingProgressRepository w) (tokenTransferRepository w)
    (failedEventRepository w) (indexingQueue w) (blockProcessingQueue w)
    (eventProcessingQueue w) (f (logs w)) (now w) (tick w).
Definition with_now (f : Z -> Z) (w : World) : World :=
  mkWorld (indexingProgressRepository w) (tokenTransferRepository w)
    (failedEventRepository w) (indexingQueue w) (blockProcessingQueue w)
    (eventProcessingQueue w) (logs w) (f (now w)) (tick w).
Definition with_tick (f : nat -> nat) (w : World) : World :=
  mkWorld (indexingProgressRepository w) (tokenTransferRepository w)
    (failedEventRepository w) (indexingQueue w) (blockProcessingQueue w)
    (eventProcessingQueue w) (logs w) (now w) (f (tick w)).

Definition queue (q : QueueName) (w : World) : Queue.t :=
  match q with
  | INDEXING_QUEUE => indexingQueue w
  | BLOCK_PROCESSING_QUEUE => blockProcessingQueue w
  | EVENT_PROCESSING_QUEUE => eventProcessingQueue w
  end.

Definition with_queue (q : QueueName) (f : Queue.t -> Queue.t) (w : World) : World :=
  match q with
  | INDEXING_QUEUE =>
      mkWorld (indexingProgressRepository w) (tokenTransferRepository w)
        (failedEventRepository w) (f (indexingQueue w)) (blockProcessingQueue w)
        (eventProcessingQueue w) (logs w) (now w) (tick w)
  | BLOCK_PROCESSING_QUEUE =>
      mkWorld (indexingProgressRepository w) (tokenTransferRepository w)
        (failedEventRepository w) (indexingQueue w) (f (blockProcessingQueue w))
        (eventProcessingQueue w) (logs w) (now w) (tick w)
  | EVENT_PROCESSING_QUEUE =>
      mkWorld (indexingProgressRepository w) (tokenTransferRepository w)
        (failedEventRepository w) (indexingQueue w) (blockProcessingQueue w)
        (f (eventProcessingQueue w)) (logs w) (now w) (tick w)
  end.

(** A call into a collaborator: it is numbered, and throws when the fault
    plan says so; otherwise it acts on the world and answers. *)
Definition call {A} (c : Collaborator) (act : Env -> World -> A * World) : M A := fun env w =>
  let k := tick w in
  if faults env c k then (Thrown (CollaboratorError c k), with_tick S w)
  else let (a, w') := act env w in (Returned a, with_tick S w').

(** [await] of a call where the time it takes matters.  The drain of the
    shutdown is the one place that measures time ([Date.now()] against a
    timeout); the other services read the clock for time stamps only, and
    there a call settles at once.  Here the call acts and answers, or
    throws, as [call] says, and control comes back after the milliseconds
    its collaborator takes to settle; when the promise stays pending,
    control never comes back. *)
Definition await_settled {A} (c : Collaborator) (m : M A) : M A := fun env w =>
  match settles env c (tick w) with
  | None => (OutOfFuel, w)
  | Some d => let (o, w') := m env w in (o, with_now (fun t => t + Z.of_N d) w')
  end.

Definition logger (l : Level) (m : Message) : M unit :=
  modify (with_logs (fun ls => ls ++ [(l, m)])).

(** The next [n] collaborator calls succeed. *)
Definition quiet (env : Env) (w : World) (n : nat) : Prop :=
  forall (c : Collaborator) (k : nat), (k < n)%nat -> faults env c (tick w + k)%nat = false.

(** No collaborator call ever fails. *)
Definition reliable (env : Env) : Prop :=
  forall (c : Collaborator) (k : nat), faults env c k = false.

(** A collaborator that fails at every call. *)
Definition down (env : Env) (c : Collaborator) : Prop :=
  forall k : nat, faults env c k = true.

(** Every awaited call settles, within [L] milliseconds. *)
Definition settles_within (env : Env) (L : Z) : Prop :=
  forall (c : Collaborator) (k : nat), exists d, settles env c k = Some d /\ Z.of_N d <= L.

(* ===================================================================== *)
(** ** Collaborators: storage, queues, ledger *)
(* ===================================================================== *)

(** Repository<IndexingProgress>.  [update] and [increment] also set the
    @UpdateDateColumn. *)
Module ProgressRepository.

Definition findOne (address : string) (chain : Z) : M (option IndexingProgress.t) :=
  call ProgressStore (fun _ w =>
    (List.find (IndexingProgress.has_key address chain) (indexingProgressRepository w), w)).

Definition find : M (list IndexingProgress.t) :=
  call ProgressStore (fun _ w => (indexingProgressRepository w, w)).

(** [update(criteria, partial)]: every row that meets the criteria is
    changed; the answer is the number of affected rows. *)
Definition update (criteria : IndexingProgress.t -> bool)
    (partial : Z -> IndexingProgress.t -> IndexingProgress.t) : M nat :=
  call ProgressStore (fun _ w =>
    (length (List.filter criteria (indexingProgressRepository w)),
     with_progress (map (fun r => if criteria r then partial (now w) r else r)) w)).

(** [save] of a new row: an insert, which the unique index may reject. *)
Definition save (r : IndexingProgress.t) : M unit :=
  clash <- call ProgressStore (fun _ w =>
    let clash := existsb (IndexingProgress.has_key (IndexingProgress.contractAddress r)
                            (IndexingProgress.chainId r)) (indexingProgressRepository w) in
    (clash, if clash then w else with_progress (fun rows => rows ++ [r]) w)) ;;
  if clash then throw UniqueViolation else ret tt.

(** [count({ where })] *)
Definition count (criteria : IndexingProgress.t -> bool) : M nat :=
  call ProgressStore (fun _ w =>
    (length (List.filter criteria (indexingProgressRepository w)), w)).

End ProgressRepository.

Module TransferRepository.

Definition findOne (hash : string) (index : Z) : M (option TokenTransfer.t) :=
  call TransferStore (fun _ w =>
    (List.find (TokenTransfer.has_key hash index) (tokenTransferRepository w), w)).

Definition save (r : TokenTransfer.t) : M unit :=
  call TransferStore (fun _ w => (tt, with_transfers (fun rows => rows ++ [r]) w)).

End TransferRepository.

Module FailedEventRepository.

Definition save (r : FailedEvent.t) : M unit :=
  call FailureSink (fun _ w => (tt, with_failed (fun rows => rows ++ [r]) w)).

Definition count : M nat :=
  call FailureSink (fun _ w => (length (failedEventRepository w), w)).

End FailedEventRepository.

Module BullQueue.

Definition add (q : QueueName) (name : string) (data : JobData) (opts : JobOpts.t) : M unit :=
  call (WorkQueue q) (fun _ w => (tt, with_queue q (Queue.add name data opts) w)).

Definition addBulk (q : QueueName) (jobs : list (string * JobData * JobOpts.t)) : M unit :=
  call (WorkQueue q) (fun _ w => (tt, with_queue q (Queue.addBulk jobs) w)).

Definition getWaiting (q : QueueName) : M (list Job.t) :=
  call (WorkQueue q) (fun _ w => (Queue.waiting (queue q w), w)).

Definition getDelayed (q : QueueName) : M (list Job.t) :=
  call (WorkQueue q) (fun _ w => (Queue.delayed (queue q w), w)).

Definition getActive (q : QueueName) : M (list Job.t) :=
  call (WorkQueue q) (fun env w => (activeJobs env q (tick w), w)).

Definition remove (q : QueueName) (job : Job.t) : M unit :=
  call (WorkQueue q) (fun _ w => (tt, with_queue q (Queue.remove (Job.id job)) w)).

Definition close (q : QueueName) : M unit :=
  call (WorkQueue q) (fun _ w => (tt, with_queue q Queue.close w)).

End BullQueue.

(** A block range, as getOptimalBlockRange answers it. *)
Module BlockRange.

Record t := mk { fromBlock : Z; toBlock : Z }.

End BlockRange.

(** A decoded argument of a log: ethers hands a uint256 over as a bigint. *)
Inductive LogArg :=
| ArgBigInt (n : Z)
| ArgValue (v : JsValue).

(** ethers' EventLog: a log that the contract's interface has decoded. *)
Module EventLog.

Record t := mk {
  transactionHash : string;
  index : Z;
  blockNumber : Z;
  blockHash : string;
  address : string;
  args : list LogArg
}.

End EventLog.

(** An entry of what [contract.queryFilter] answers: an EventLog, or a
    plain Log that the interface could not decode. *)
Inductive QueriedLog :=
| Decoded (log : EventLog.t)
| Undecoded.

(** BlockchainService, the ledger client.  What the RPC provider answers
    (the height, the events of a contract in a block range, whether an
    address has code) is the environment's. *)
Module BlockchainService.

Definition getCurrentBlockNumber : M Z :=
  call Ledger (fun env w => (currentBlockNumber env, w)).

Definition getTokenEvents (contractAddress : string) (eventNames : list string)
    (fromBlock toBlock : Z) : M (list TokenEvent.t) :=
  call Ledger (fun env w => (tokenEvents env contractAddress eventNames fromBlock toBlock, w)).

(** It catches its own failures and answers false. *)
Definition validateContractAddress (address : string) : M bool :=
  try_catch (call Ledger (fun env w => (hasCode env address, w))) (fun _ => ret false).

(** [targetBlocks] defaults to 1000; a failure of the height query is
    thrown again. *)
Definition getOptimalBlockRange (targetBlocks : option Z) : M BlockRange.t :=
  let targetBlocks := match targetBlocks with Some t => t | None => 1000 end in
  try_catch
    (currentBlock <- getCurrentBlockNumber ;;
     let fromBlock := Z.max 0 (currentBlock - targetBlocks) in
     ret (BlockRange.mk fromBlock currentBlock))
    (fun error => throw error).

(** Inside getTokenEvents.  The callback of [log.args.toArray().map]: a
    bigint becomes its decimal string. *)
Definition processedArg (arg : LogArg) : JsValue :=
  match arg with
  | ArgBigInt n => JsString (pretty n)
  | ArgValue v => v
  end.

(** The entry that getTokenEvents pushes for a decoded log. *)
Definition tokenEvent (eventName : string) (log : EventLog.t) : TokenEvent.t :=
  TokenEvent.mk (EventLog.transactionHash log) (EventLog.index log)
    (EventLog.blockNumber log) (EventLog.blockHash log)
    (toLowerCase (EventLog.address log)) eventName
    (map processedArg (EventLog.args log)).

(** The comparison function of [events.sort]. *)
Definition compareEvents (a b : TokenEvent.t) : Z :=
  if negb (Z.eqb (TokenEvent.blockNumber a) (TokenEvent.blockNumber b))
  then TokenEvent.blockNumber a - TokenEvent.blockNumber b
  else TokenEvent.logIndex a - TokenEvent.logIndex b.

(** [Array.prototype.sort(compareFn)]: a stable sort. *)
Fixpoint insertSorted (compareFn : TokenEvent.t -> TokenEvent.t -> Z) (x : TokenEvent.t)
    (sorted : list TokenEvent.t) : list TokenEvent.t :=
  match sorted with
  | [] => [x]
  | y :: rest =>
      if Z.leb (compareFn x y) 0 then x :: y :: rest
      else y :: insertSorted compareFn x rest
  end.

Fixpoint sort (compareFn : TokenEvent.t -> TokenEvent.t -> Z) (events : list TokenEvent.t)
    : list TokenEvent.t :=
  match events with
  | [] => []
  | x :: rest => insertSorted compareFn x (sort compareFn rest)
  end.

(** What getTokenEvents answers when [contract.queryFilter] answers
    [queryFilter eventName] for each of the event names: the decoded logs
    of every name, in the order of the names, then sorted. *)
Definition tokenEventsOf (eventNames : list string)
    (queryFilter : string -> list QueriedLog) : list TokenEvent.t :=
  let events :=
    flat_map (fun eventName =>
      flat_map (fun log =>
                  match log with
                  | Decoded log => [tokenEvent eventName log]
                  | Undecoded => []
                  end) (queryFilter eventName)) eventNames in
  sort compareEvents events.

End BlockchainService.

(** [new Date()] *)
Definition newDate : M Z := get now.

(** [await new Promise(resolve => setTimeout(resolve, ms))] *)
Definition sleep (ms : Z) : M unit := modify (with_now (fun t => t + ms)).

(** [x.toLowerCase()], where [x] may be undefined or not a string. *)
Definition js_toLowerCase (v : option JsValue) : M string :=
  match v with
  | Some (JsString s) => ret (toLowerCase s)
  | _ => throw TypeError
  end.

(** [x.toString()], where [x] may be undefined or null.  A number prints
    as its decimal digits (see [JsValue]). *)
Definition js_toString (v : option JsValue) : M string :=
  match v with
  | Some (JsString s) => ret s
  | Some (JsNumber n) => ret (pretty n)
  | Some (JsBool b) => ret (if b then "true" else "false")
  | Some JsNull | None => throw TypeError
  end.

(* ===================================================================== *)
(** ** IndexingService *)
(* ===================================================================== *)

Module IndexingService.

Definition getContractConfig (contractAddress : string) : M (option ContractConfig.t) :=
  contracts <- ask contracts ;;
  let contractKey :=
    List.find (fun kv : string * ContractConfig.t =>
                 String.eqb (toLowerCase (ContractConfig.address (snd kv)))
                            (toLowerCase contractAddress)) contracts in
  ret (option_map snd contractKey).

Definition startIndexing (contractAddress : string) : M unit :=
  try_catch
    (contractConfig <- getContractConfig contractAddress ;;
     match contractConfig with
     | None => throw (NotConfiguredOrDisabled contractAddress)
     | Some contractConfig =>
       if negb (ContractConfig.enabled contractConfig)
       then throw (NotConfiguredOrDisabled contractAddress)
       else
         isValid <- BlockchainService.validateContractAddress contractAddress ;;
         if negb isValid then throw (InvalidContractAddress contractAddress)
         else
           progress <- ProgressRepository.findOne (toLowerCase contractAddress)
                         (ContractConfig.chainId contractConfig) ;;
           match progress with
           | None =>
               currentBlock <- BlockchainService.getCurrentBlockNumber ;;
               let startBlock :=
                 match ContractConfig.startBlock contractConfig with
                 | Latest => currentBlock
                 | AtBlock n => n
                 end in
               created <- newDate ;;
               ProgressRepository.save
                 (IndexingProgress.mk (toLowerCase contractAddress)
                    (ContractConfig.chainId contractConfig)
                    (startBlock - 1) true startBlock 0 created)
           | Some _ =>
               _ <- ProgressRepository.update
                 (IndexingProgress.has_key (toLowerCase contractAddress)
                    (ContractConfig.chainId contractConfig))
                 (IndexingProgress.set_isSyncing true) ;;
               ret tt
           end ;;;
           BullQueue.add INDEXING_QUEUE "start-indexing"
             (StartIndexing (toLowerCase contractAddress)
                (ContractConfig.chainId contractConfig)
                (ContractConfig.events contractConfig))
             (JobOpts.mk (Some 1) (Some 0) None None) ;;;
           logger LOG (MsgStartedIndexing contractAddress)
     end)
    (fun error =>
       logger ERROR (MsgFailedToStartIndexing contractAddress error) ;;;
       throw error).

Definition processBlockRange (job : IndexingJob.t) : M unit :=
  let contractAddress := IndexingJob.contractAddress job in
  let chainId := IndexingJob.chainId job in
  let fromBlock := IndexingJob.fromBlock job in
  let toBlock := IndexingJob.toBlock job in
  let events := IndexingJob.events job in
  try_catch
    (logger LOG (MsgProcessingBlocks fromBlock toBlock contractAddress) ;;;
     tokenEvents <- BlockchainService.getTokenEvents contractAddress events fromBlock toBlock ;;
     logger LOG (MsgFoundEvents (length tokenEvents) contractAddress) ;;;
     let eventJobs :=
       map (fun event => ProcessEventJob.mk event contractAddress chainId) tokenEvents in
     (if Nat.ltb 0 (length eventJobs)
      then BullQueue.addBulk EVENT_PROCESSING_QUEUE
             (map (fun job => ("process-event", ProcessEvent job,
                               JobOpts.mk None None (Some 3) (Some 2000))) eventJobs)
      else ret tt) ;;;
     _ <- ProgressRepository.update
            (IndexingProgress.has_key contractAddress chainId)
            (IndexingProgress.set_lastProcessedBlock toBlock) ;;
     logger LOG (MsgCompletedProcessingBlocks fromBlock toBlock contractAddress))
    (fun error =>
       logger ERROR (MsgFailedToProcessBlockRange contractAddress error) ;;;
       throw error).

Definition processTransferEvent (event : TokenEvent.t) (contractAddress : string)
    (chainId : Z) : M unit :=
  let from := nth_error (TokenEvent.args event) 0 in
  let to := nth_error (TokenEvent.args event) 1 in
  let value := nth_error (TokenEvent.args event) 2 in
  fromAddress <- js_toLowerCase from ;;
  toAddress <- js_toLowerCase to ;;
  value' <- js_toString value ;;
  processedAt <- newDate ;;
  let transfer :=
    TokenTransfer.mk (TokenEvent.transactionHash event) (TokenEvent.logIndex event)
      (TokenEvent.blockNumber event) (TokenEvent.blockHash event)
      (toLowerCase contractAddress) fromAddress toAddress value' chainId processedAt in
  TransferRepository.save transfer ;;;
  from' <- js_toString from ;;
  to' <- js_toString to ;;
  logger DEBUG (MsgProcessedTransfer from' to' value').

Definition storeFailedEvent (event : TokenEvent.t) (contractAddress : string)
    (chainId : Z) (errorMessage : Error) : M unit :=
  let failedEvent :=
    FailedEvent.mk (toLowerCase contractAddress) chainId (TokenEvent.blockNumber event)
      (TokenEvent.transactionHash event) (TokenEvent.logIndex event) event
      errorMessage 0 in
  FailedEventRepository.save failedEvent.

Definition processTokenEvent (data : ProcessEventJob.t) : M unit :=
  let event := ProcessEventJob.event data in
  let contractAddress := ProcessEventJob.contractAddress data in
  let chainId := ProcessEventJob.chainId data in
  try_catch
    (existing <- TransferRepository.findOne (TokenEvent.transactionHash event)
                   (TokenEvent.logIndex event) ;;
     match existing with
     | Some _ =>
         logger DEBUG (MsgEventAlreadyProcessed (TokenEvent.transactionHash event)
                         (TokenEvent.logIndex event))
     | None =>
         (if String.eqb (TokenEvent.eventName event) "Transfer"
          then processTransferEvent event contractAddress chainId
          else if String.eqb (TokenEvent.eventName event) "Approval"
          then logger DEBUG (MsgApprovalEventProcessed (TokenEvent.transactionHash event))
          else ret tt) ;;;
         _ <- ProgressRepository.update
                (IndexingProgress.has_key contractAddress chainId)
                (IndexingProgress.increment_totalEventsProcessed 1) ;;
         ret tt
     end)
    (fun error =>
       logger ERROR (MsgFailedToProcessEvent (TokenEvent.transactionHash event)
                       (TokenEvent.logIndex event) error) ;;;
       storeFailedEvent event contractAddress chainId error ;;;
       throw error).

Definition getIndexingStatus (contractAddress : string) (chainId : Z)
    : M (option IndexingProgress.t) :=
  ProgressRepository.findOne (toLowerCase contractAddress) chainId.

Definition getIndexing : M (list IndexingProgress.t) :=
  ProgressRepository.find.

Definition updateSyncingStatus (contractAddress : string) (chainId : Z)
    (isSyncing : bool) : M unit :=
  try_catch
    (_ <- ProgressRepository.update
            (IndexingProgress.has_key (toLowerCase contractAddress) chainId)
            (IndexingProgress.set_isSyncing isSyncing) ;;
     logger DEBUG (MsgUpdatedSyncingStatus contractAddress isSyncing))
    (fun error =>
       logger ERROR (MsgFailedToUpdateSyncingStatus contractAddress error) ;;;
       throw error).

(** The job is one of this contract on this chain. *)
Definition job_of (contractAddress : string) (chainId : Z) (job : Job.t) : bool :=
  (negb (String.eqb (data_contractAddress (Job.data job)) "")
   && String.eqb (toLowerCase (data_contractAddress (Job.data job)))
                 (toLowerCase contractAddress)
   && Z.eqb (data_chainId (Job.data job)) chainId)%bool.

Definition queues : list (string * QueueName) :=
  [ ("indexing", INDEXING_QUEUE);
    ("block-processing", BLOCK_PROCESSING_QUEUE);
    ("event-processing", EVENT_PROCESSING_QUEUE) ].

Definition removeContractJobs (contractAddress : string) (chainId : Z) : M unit :=
  try_catch
    (forEach (fun nq : string * QueueName =>
       let name := fst nq in
       let queue := snd nq in
       waitingJobs <- BullQueue.getWaiting queue ;;
       delayedJobs <- BullQueue.getDelayed queue ;;
       let allPendingJobs := waitingJobs ++ delayedJobs in
       forEach (fun job =>
         if job_of contractAddress chainId job
         then BullQueue.remove queue job ;;;
              logger DEBUG (MsgRemovedJob name (Job.id job) contractAddress)
         else ret tt) allPendingJobs) queues)
    (fun error => logger ERROR (MsgFailedToRemoveJobs contractAddress error)).

(** [chainId] defaults to 137. *)
Definition stopIndexing (contractAddress : string) (chainId : option Z) : M unit :=
  let chainId := match chainId with Some c => c | None => 137 end in
  try_catch
    (logger LOG (MsgStoppingIndexing contractAddress) ;;;
     progress <- ProgressRepository.findOne (toLowerCase contractAddress) chainId ;;
     match progress with
     | None => throw (NoIndexingProgress contractAddress)
     | Some _ =>
         _ <- ProgressRepository.update
                (IndexingProgress.has_key (toLowerCase contractAddress) chainId)
                (IndexingProgress.set_isSyncing false) ;;
         removeContractJobs contractAddress chainId ;;;
         logger LOG (MsgSuccessfullyStopped contractAddress)
     end)
    (fun error =>
       logger ERROR (MsgFailedToStopIndexing contractAddress error) ;;;
       throw error).

End IndexingService.

(* ===================================================================== *)
(** ** IndexingProcessor *)
(* ===================================================================== *)

Module IndexingProcessor.

Definition scheduleNextIndexing (contractAddress : string) (chainId : Z)
    (events : list string) (delay : Z) : M unit :=
  BullQueue.add INDEXING_QUEUE "start-indexing"
    (StartIndexing contractAddress chainId events)
    (JobOpts.mk None (Some delay) (Some 1) None).

Definition is_syncing (progress : option IndexingProgress.t) : bool :=
  match progress with
  | Some p => IndexingProgress.isSyncing p
  | None => false
  end.

(** The loop `while (fromBlock <= currentBlock)` of handleStartIndexing.
    It answers [true] when the range is exhausted and [false] when it
    left through the `return` of a stop.  Each round of the loop takes one
    unit of fuel. *)
Fixpoint processInBatches (fuel : nat) (contractAddress : string) (chainId : Z)
    (events : list string) (currentBlock batchSize fromBlock : Z) : M bool :=
  if negb (Z.leb fromBlock currentBlock) then ret true
  else
    match fuel with
    | O => outOfFuel
    | S fuel' =>
        currentProgress <- IndexingService.getIndexingStatus contractAddress chainId ;;
        if negb (is_syncing currentProgress)
        then logger LOG (MsgStoppedDuringBatch contractAddress) ;;; ret false
        else
          let toBlock := Z.min (fromBlock + batchSize - 1) currentBlock in
          BullQueue.add BLOCK_PROCESSING_QUEUE "process-block-range"
            (ProcessBlockRange
               (IndexingJob.mk contractAddress chainId fromBlock toBlock events))
            (JobOpts.mk None None (Some 3) (Some 5000)) ;;;
          processInBatches fuel' contractAddress chainId events currentBlock batchSize
            (toBlock + 1)
    end.

Definition handleStartIndexing (fuel : nat) (contractAddress : string) (chainId : Z)
    (events : list string) : M unit :=
  try_catch
    (logger LOG (MsgStartingIndexingProcess contractAddress) ;;;
     progress <- IndexingService.getIndexingStatus contractAddress chainId ;;
     match progress with
     | None => throw (NoIndexingProgress contractAddress)
     | Some progress =>
       if negb (IndexingProgress.isSyncing progress)
       then logger LOG (MsgIndexingWasStopped contractAddress)
       else
         currentBlock <- BlockchainService.getCurrentBlockNumber ;;
         let lastProcessedBlock := IndexingProgress.lastProcessedBlock progress in
         batchSize <- ask batchSize ;;
         if Z.geb lastProcessedBlock (currentBlock - 1)
         then
           logger LOG (MsgUpToDate contractAddress) ;;;
           IndexingService.updateSyncingStatus contractAddress chainId false ;;;
           scheduleNextIndexing contractAddress chainId events 30000
         else
           exhausted <- processInBatches fuel contractAddress chainId events
                          currentBlock batchSize (lastProcessedBlock + 1) ;;
           if negb exhausted then ret tt
           else
             finalProgress <- IndexingService.getIndexingStatus contractAddress chainId ;;
             if is_syncing finalProgress
             then scheduleNextIndexing contractAddress chainId events 60000
             else ret tt
     end)
    (fun error =>
       logger ERROR (MsgFailedToStartIndexing contractAddress error) ;;;
       IndexingService.updateSyncingStatus contractAddress chainId false ;;;
       throw error).

(** BlockProcessingProcessor.handleProcessBlockRange and
    EventProcessingProcessor.handleProcessEvent hand the job's data to the
    service, log a failure and rethrow. *)
Definition handleProcessBlockRange (job : IndexingJob.t) : M unit :=
  try_catch (IndexingService.processBlockRange job)
    (fun error => logger ERROR (MsgFailedBlockRangeJob error) ;;; throw error).

Definition handleProcessEvent (job : ProcessEventJob.t) : M unit :=
  try_catch (IndexingService.processTokenEvent job)
    (fun error => logger ERROR (MsgFailedEventJob error) ;;; throw error).

End IndexingProcessor.

(* ===================================================================== *)
(** ** AutoResumeService: startup recovery *)
(* ===================================================================== *)

(** What manualResumeAll answers; an entry of [errors] stands for the text
    `Failed to resume ${address}: ${error.message}`. *)
Module ResumeResult.

Record t := mk { resumed : nat; errors : list (string * Error) }.

End ResumeResult.

Module RecoveryStatus.

Record t := mk {
  totalContracts : nat;
  indexingContracts : nat;
  stuckSyncingStates : nat;
  lastRestart : Z
}.

End RecoveryStatus.

(** A timer armed with [setTimeout(callback, delay)]: the event loop runs
    the callback once the delay has passed, outside the call that armed it. *)
Module Timer.

Record t := mk { delay : Z; callback : M unit }.

End Timer.

Module AutoResumeService.

Definition resetStuckSyncingStates : M unit :=
  try_catch
    (affected <- ProgressRepository.update IndexingProgress.isSyncing
                   (IndexingProgress.set_isSyncing false) ;;
     if Nat.ltb 0 affected then logger WARN (MsgResetStuck affected) else ret tt)
    (fun error => logger ERROR (MsgFailedToResetStuck error)).

Definition resumeContractIndexing (contract : ContractConfig.t) : M unit :=
  try_catch
    (let address := ContractConfig.address contract in
     let chainId := ContractConfig.chainId contract in
     progress <- ProgressRepository.findOne (toLowerCase address) chainId ;;
     match progress with
     | Some progress =>
         logger LOG (MsgResuming address (IndexingProgress.lastProcessedBlock progress)) ;;;
         IndexingService.startIndexing address
     | None => logger LOG (MsgNotPreviouslyIndexed address)
     end)
    (fun error => logger ERROR (MsgFailedToResume (ContractConfig.address contract) error)).

(** [Object.values(contracts).filter(contract => contract.enabled)] *)
Definition enabledContracts (contracts : list (string * ContractConfig.t))
    : list ContractConfig.t :=
  List.filter ContractConfig.enabled (map snd contracts).

Definition resumeIndexing : M unit :=
  try_catch
    (logger LOG MsgCheckingContractsToResume ;;;
     resetStuckSyncingStates ;;;
     contracts <- ask contracts ;;
     let enabledContracts := enabledContracts contracts in
     logger LOG (MsgFoundEnabledContracts (length enabledContracts)) ;;;
     forEach resumeContractIndexing enabledContracts ;;;
     logger LOG MsgAutoResumeCompleted)
    (fun error => logger ERROR (MsgFailedToAutoResume error)).

(** onModuleInit logs, arms the timer of the recovery pass and returns at
    once; the pass runs when the timer fires, detached from this call. *)
Definition onModuleInit : M Timer.t :=
  logger LOG MsgAutoResumeStarting ;;;
  ret (Timer.mk 5000 resumeIndexing).

(** The loop of manualResumeAll over the enabled contracts, with its
    counter and its list of errors.  The handler logs the text of the
    entry it has pushed. *)
Fixpoint manualResumeAll_loop (enabledContracts : list ContractConfig.t) (resumed : nat)
    (errors : list (string * Error)) : M ResumeResult.t :=
  match enabledContracts with
  | [] => ret (ResumeResult.mk resumed errors)
  | contract :: rest =>
      r <- try_catch
        (resumeContractIndexing contract ;;;
         ret (S resumed, errors))
        (fun error =>
           let errorMsg := (ContractConfig.address contract, error) in
           let errors := errors ++ [errorMsg] in
           logger ERROR (MsgFailedToResume (ContractConfig.address contract) error) ;;;
           ret (resumed, errors)) ;;
      manualResumeAll_loop rest (fst r) (snd r)
  end.

Definition manualResumeAll : M ResumeResult.t :=
  contracts <- ask contracts ;;
  let enabledContracts := enabledContracts contracts in
  manualResumeAll_loop enabledContracts 0%nat [].

Definition getRecoveryStatus : M RecoveryStatus.t :=
  contracts <- ask contracts ;;
  let enabledContracts := enabledContracts contracts in
  indexingProgress <- ProgressRepository.find ;;
  stuckSyncing <- ProgressRepository.count IndexingProgress.isSyncing ;;
  lastRestart <- newDate ;;
  ret (RecoveryStatus.mk (length enabledContracts) (length indexingProgress)
         stuckSyncing lastRestart).

End AutoResumeService.

(* ===================================================================== *)
(** ** ShutdownService: the drain *)
(* ===================================================================== *)

Module ShutdownService.

Definition queues : list (string * QueueName) :=
  [ ("indexing", INDEXING_QUEUE);
    ("block-processing", BLOCK_PROCESSING_QUEUE);
    ("event-processing", EVENT_PROCESSING_QUEUE) ].

Definition markSyncingAsStopped : M unit :=
  try_catch
    (affected <- await_settled ProgressStore
                   (ProgressRepository.update IndexingProgress.isSyncing
                      (IndexingProgress.set_isSyncing false)) ;;
     if Nat.ltb 0 affected then logger LOG (MsgMarkedStopped affected) else ret tt)
    (fun error => logger ERROR (MsgFailedToMarkStopped error)).

(** One pass of `for (const { name, queue } of queues)` inside the wait:
    it adds up the active jobs of the queues that answer. *)
Fixpoint countActiveJobs (qs : list (string * QueueName)) (totalActiveJobs : nat)
    : M nat :=
  match qs with
  | [] => ret totalActiveJobs
  | (name, queue) :: rest =>
      total <- try_catch
        (active <- await_settled (WorkQueue queue) (BullQueue.getActive queue) ;;
         (if Nat.ltb 0 (length active)
          then logger LOG (MsgQueueHasActiveJobs name (length active))
          else ret tt) ;;;
         ret (totalActiveJobs + length active)%nat)
        (fun error =>
           logger WARN (MsgFailedToGetActiveJobs name error) ;;;
           ret totalActiveJobs) ;;
      countActiveJobs rest total
  end.

(** The loop `while (Date.now() - startTime < timeoutMs)`; each round
    takes one unit of fuel.  The timeout is tested at the head of the loop
    only: the calls of a round are awaited however long they take. *)
Fixpoint waitLoop (fuel : nat) (startTime timeoutMs : Z) : M unit :=
  t <- get now ;;
  if negb (Z.ltb (t - startTime) timeoutMs)
  then logger WARN MsgTimeoutReached
  else
    match fuel with
    | O => outOfFuel
    | S fuel' =>
        totalActiveJobs <- countActiveJobs queues 0%nat ;;
        if Nat.eqb totalActiveJobs 0
        then logger LOG MsgAllJobsCompleted
        else sleep 1000 ;;; waitLoop fuel' startTime timeoutMs
    end.

(** [timeoutMs] defaults to 30000. *)
Definition waitForActiveJobs (fuel : nat) (timeoutMs : option Z) : M unit :=
  let timeoutMs := match timeoutMs with Some t => t | None => 30000 end in
  logger LOG MsgWaitingForActiveJobs ;;;
  startTime <- get now ;;
  waitLoop fuel startTime timeoutMs.

Definition closeQueues : M unit :=
  forEach (fun nq : string * QueueName =>
    try_catch
      (await_settled (WorkQueue (snd nq)) (BullQueue.close (snd nq)) ;;;
       logger LOG (MsgClosedQueue (fst nq)))
      (fun error => logger ERROR (MsgFailedToCloseQueue (fst nq) error))) queues.

Definition onApplicationShutdown (fuel : nat) : M unit :=
  logger LOG MsgShutdownInitiated ;;;
  try_catch
    (markSyncingAsStopped ;;;
     waitForActiveJobs fuel None ;;;
     closeQueues ;;;
     logger LOG MsgGracefulShutdownCompleted)
    (fun error => logger ERROR (MsgErrorDuringShutdown error)).

End ShutdownService.

(* ===================================================================== *)
(** ** HealthMonitoringService *)
(* ===================================================================== *)

Inductive HealthStatus := healthy | degraded | unhealthy.

(** The entries of the issues list, by their text in the source. *)
Inductive Issue :=
| BlockchainRpcConnectionFailed     (* 'Blockchain RPC connection failed' *)
| NoContractsActivelyIndexing       (* 'No contracts are actively indexing' *)
| HighSyncLag (maxLag : Z)          (* `High sync lag detected: ${maxLag} blocks` *)
| DatabaseConnectionFailed          (* 'Database connection failed' *)
| HighFailedEvents (n : nat)        (* `High number of failed events: ${n}` *)
| SystemHealthCheckFailed.          (* 'System health check failed' *)

Definition issue_text (issue : Issue) : string :=
  match issue with
  | BlockchainRpcConnectionFailed => "Blockchain RPC connection failed"
  | NoContractsActivelyIndexing => "No contracts are actively indexing"
  | HighSyncLag maxLag =>
      String.append "High sync lag detected: " (String.append (pretty maxLag) " blocks")
  | DatabaseConnectionFailed => "Database connection failed"
  | HighFailedEvents n => String.append "High number of failed events: " (pretty n)
  | SystemHealthCheckFailed => "System health check failed"
  end.

Module BlockchainHealth.

Record t := mk { connected : bool; latestBlock : option Z; rpcUrl : JsValue }.

End BlockchainHealth.

Module IndexingHealth.

Record t := mk {
  totalContracts : nat;
  activelyIndexing : nat;
  syncLag : gmap string Z;      (* { [contractAddress]: lag } *)
  avgProcessingTime : Z
}.

End IndexingHealth.

Module DatabaseHealth.

Record t := mk { connected : bool; totalEvents : Z; failedEvents : nat }.

End DatabaseHealth.

Module QueueHealth.

Record t := mk { healthy : bool; estimatedJobs : Z }.

End QueueHealth.

Module SystemHealthStatus.

Record t := mk {
  status : HealthStatus;
  timestamp : Z;
  uptime : Z;
  blockchain : BlockchainHealth.t;
  indexing : IndexingHealth.t;
  database : DatabaseHealth.t;
  queue : QueueHealth.t;
  issues : list Issue
}.

End SystemHealthStatus.

Module HealthMonitoringService.

(** [v || 'Unknown'] *)
Definition or_unknown (v : option JsValue) : JsValue :=
  match v with
  | Some (JsString s) => if String.eqb s "" then JsString "Unknown" else JsString s
  | Some (JsNumber n) => if Z.eqb n 0 then JsString "Unknown" else JsNumber n
  | Some (JsBool b) => if b then JsBool true else JsString "Unknown"
  | Some JsNull | None => JsString "Unknown"
  end.

(** [rpcUrl?.substring(0, 50) + '...' || 'Unknown']: the sum is never
    empty, so the alternative is never taken. *)
Definition shortened (v : option JsValue) : M JsValue :=
  match v with
  | Some (JsString s) => ret (JsString (String.append (substring 0 50 s) "..."))
  | Some JsNull | None => ret (JsString "undefined...")
  | Some _ => throw TypeError
  end.

Definition checkBlockchainHealth : M BlockchainHealth.t :=
  try_catch
    (latestBlock <- BlockchainService.getCurrentBlockNumber ;;
     rpcUrl <- ask rpcUrl ;;
     url <- shortened rpcUrl ;;
     ret (BlockchainHealth.mk true (Some latestBlock) url))
    (fun error =>
       logger ERROR (MsgBlockchainHealthCheckFailed error) ;;;
       rpcUrl <- ask rpcUrl ;;
       ret (BlockchainHealth.mk false None (or_unknown rpcUrl))).

(** [Math.round(avgUpdateAge / 1000)] for the mean age of the rows'
    last updates, on exact numbers: rounding to the nearest, halves up. *)
Definition calculateAverageProcessingTime (now : Z)
    (progressRecords : list IndexingProgress.t) : Z :=
  match progressRecords with
  | [] => 0
  | _ =>
      let n := Z.of_nat (length progressRecords) in
      let total :=
        fold_left (fun acc record => acc + (now - IndexingProgress.updatedAt record))
          progressRecords 0 in
      (2 * total + 1000 * n) / (2000 * n)
  end.

Definition checkIndexingHealth : M IndexingHealth.t :=
  try_catch
    (contracts <- ask contracts ;;
     let enabledContracts := List.filter ContractConfig.enabled (map snd contracts) in
     allProgress <- ProgressRepository.find ;;
     let activelyIndexing := length (List.filter IndexingProgress.isSyncing allProgress) in
     currentBlock <- BlockchainService.getCurrentBlockNumber ;;
     let syncLag :=
       fold_left (fun (lags : gmap string Z) progress =>
                    <[ IndexingProgress.contractAddress progress :=
                         currentBlock - IndexingProgress.lastProcessedBlock progress ]> lags)
         allProgress ∅ in
     t <- newDate ;;
     let avgProcessingTime := calculateAverageProcessingTime t allProgress in
     ret (IndexingHealth.mk (length enabledContracts) activelyIndexing syncLag
            avgProcessingTime))
    (fun error =>
       logger ERROR (MsgIndexingHealthCheckFailed error) ;;;
       ret (IndexingHealth.mk 0 0 ∅ 0)).

Definition checkDatabaseHealth : M DatabaseHealth.t :=
  try_catch
    (totalEvents <- call ProgressStore (fun _ w =>
       (fold_left (fun acc r => acc + IndexingProgress.totalEventsProcessed r)
          (indexingProgressRepository w) 0, w)) ;;
     failedEvents <- FailedEventRepository.count ;;
     ret (DatabaseHealth.mk true totalEvents failedEvents))
    (fun error =>
       logger ERROR (MsgDatabaseHealthCheckFailed error) ;;;
       ret (DatabaseHealth.mk false 0 0)).

(** [Math.max(...Object.values(syncLag))]; [None] is -Infinity. *)
Definition maxLag (syncLag : gmap string Z) : option Z :=
  map_fold (fun _ lag acc =>
              match acc with
              | None => Some lag
              | Some m => Some (Z.max lag m)
              end) None syncLag.

Definition worsen (status : HealthStatus) : HealthStatus :=
  match status with unhealthy => unhealthy | _ => degraded end.

(** The `try` block of getSystemHealth. *)
Definition getSystemHealth_try : M SystemHealthStatus.t :=
  let issues : list Issue := [] in
  let status := healthy in
  blockchain <- checkBlockchainHealth ;;
  let '(issues, status) :=
    if negb (BlockchainHealth.connected blockchain)
    then (issues ++ [BlockchainRpcConnectionFailed], unhealthy)
    else (issues, status) in
  indexing <- checkIndexingHealth ;;
  let '(issues, status) :=
    if (Nat.eqb (IndexingHealth.activelyIndexing indexing) 0
        && Nat.ltb 0 (IndexingHealth.totalContracts indexing))%bool
    then (issues ++ [NoContractsActivelyIndexing], worsen status)
    else (issues, status) in
  let '(issues, status) :=
    match maxLag (IndexingHealth.syncLag indexing) with
    | Some m =>
        if Z.ltb 1000 m then (issues ++ [HighSyncLag m], worsen status)
        else (issues, status)
    | None => (issues, status)
    end in
  database <- checkDatabaseHealth ;;
  let '(issues, status) :=
    if negb (DatabaseHealth.connected database)
    then (issues ++ [DatabaseConnectionFailed], unhealthy)
    else (issues, status) in
  let '(issues, status) :=
    if Nat.ltb 100 (DatabaseHealth.failedEvents database)
    then (issues ++ [HighFailedEvents (DatabaseHealth.failedEvents database)],
          worsen status)
    else (issues, status) in
  t <- newDate ;;
  startTime <- ask startTime ;;
  ret (SystemHealthStatus.mk status t (t - startTime) blockchain indexing database
         (QueueHealth.mk true 0) issues).

(** The `catch` block of getSystemHealth. *)
Definition getSystemHealth_catch (error : Error) : M SystemHealthStatus.t :=
  logger ERROR (MsgFailedToGetSystemHealth error) ;;;
  t <- newDate ;;
  startTime <- ask startTime ;;
  ret (SystemHealthStatus.mk unhealthy t (t - startTime)
         (BlockchainHealth.mk false None (JsString ""))
         (IndexingHealth.mk 0 0 ∅ 0)
         (DatabaseHealth.mk false 0 0)
         (QueueHealth.mk false 0)
         [SystemHealthCheckFailed]).

Definition getSystemHealth : M SystemHealthStatus.t :=
  try_catch getSystemHealth_try getSystemHealth_catch.

Definition requiresAttention : M bool :=
  health <- getSystemHealth ;;
  ret (match SystemHealthStatus.status health with
       | healthy => false
       | _ => true
       end).

Definition getCriticalAlerts : M (list Issue) :=
  health <- getSystemHealth ;;
  ret (List.filter (fun issue =>
                      (includes (issue_text issue) "connection failed"
                       || includes (issue_text issue) "unhealthy")%bool)
         (SystemHealthStatus.issues health)).

End HealthMonitoringService.

(* ===================================================================== *)
(** ** IndexingController *)
(* ===================================================================== *)

Module HttpStatus.

Definition BAD_REQUEST : Z := 400.

Definition INTERNAL_SERVER_ERROR : Z := 500.

End HttpStatus.

(** The message of an HttpException of the controller. *)
Inductive HttpMessage :=
| InvalidContractAddressMessage   (* 'Invalid contract address' *)
| FailedToGetSystemHealth         (* 'Failed to get system health' *)
| FailedToGetCriticalAlerts       (* 'Failed to get critical alerts' *)
| FailedToResumeIndexing          (* 'Failed to resume indexing' *)
| FailedToGetRecoveryStatus       (* 'Failed to get recovery status' *)
| FailedToResetStuckSyncing       (* 'Failed to reset stuck syncing' *)
| MessageOf (e : Error).          (* error.message, of an error of the services *)

Module HttpException.

Record t := mk { message : HttpMessage; status : Z }.

End HttpException.

(** What a `catch` of the controller receives: an error that came out of a
    service, or the HttpException that its own `try` block threw. *)
Inductive Caught :=
| OfService (e : Error)
| OfController (h : HttpException.t).

(** A handler of the controller resolves with an answer or rejects with an
    HttpException. *)
Definition resolve {A} (a : A) : M (A + HttpException.t) := ret (inl a).

Definition reject {A} (h : HttpException.t) : M (A + HttpException.t) := ret (inr h).

(** [try { body } catch (error) { handler }] in a handler. *)
Definition http_try_catch {A} (body : M (A + HttpException.t))
    (handler : Caught -> M (A + HttpException.t)) : M (A + HttpException.t) :=
  fun env w =>
    match body env w with
    | (Returned (inl a), w') => (Returned (inl a), w')
    | (Returned (inr h), w') => handler (OfController h) env w'
    | (Thrown e, w') => handler (OfService e) env w'
    | (OutOfFuel, w') => (OutOfFuel, w')
    end.

(** [error instanceof Error ? error.message : fallback]: every error that
    reaches a handler is an Error. *)
Definition error_message (error : Caught) : HttpMessage :=
  match error with
  | OfService e => MessageOf e
  | OfController h => HttpException.message h
  end.

Module StartResponse.

Record t := mk { contractAddress : string; timestamp : Z }.

End StartResponse.

Module AlertsResponse.

Record t := mk {
  alerts : list Issue;
  count : nat;
  requiresAttention : bool;
  timestamp : Z
}.

End AlertsResponse.

Inductive ResumeMessage :=
| ResumeOperationCompleted          (* 'Resume operation completed' *)
| ResetStuckSyncingAndResumed.      (* 'Reset stuck syncing states and resumed indexing' *)

Module ResumeResponse.

Record t := mk { message : ResumeMessage; result : ResumeResult.t; timestamp : Z }.

End ResumeResponse.

(** The handlers of the controller that take no number from the query
    string.  The controller's own log lines are not recorded. *)
Module IndexingController.

Definition isHexDigit (c : ascii) : bool :=
  let n := nat_of_ascii c in
  ((Nat.leb 48 n && Nat.leb n 57) || (Nat.leb 65 n && Nat.leb n 70)
   || (Nat.leb 97 n && Nat.leb n 102))%bool.

(** [/^0x[a-fA-F0-9]{40}$/.test(address)] *)
Definition isValidAddress (address : string) : bool :=
  match address with
  | String "0" (String "x" digits) =>
      (Nat.eqb (String.length digits) 40
       && forallb isHexDigit (list_ascii_of_string digits))%bool
  | _ => false
  end.

Definition getIndexing : M (list IndexingProgress.t + HttpException.t) :=
  http_try_catch
    (rows <- IndexingService.getIndexing ;; resolve rows)
    (fun error =>
       reject (HttpException.mk (error_message error) HttpStatus.INTERNAL_SERVER_ERROR)).

Definition startIndexing (contractAddress : string)
    : M (StartResponse.t + HttpException.t) :=
  http_try_catch
    (if (String.eqb contractAddress "" || negb (isValidAddress contractAddress))%bool
     then reject (HttpException.mk InvalidContractAddressMessage HttpStatus.BAD_REQUEST)
     else
       IndexingService.startIndexing contractAddress ;;;
       timestamp <- newDate ;;
       resolve (StartResponse.mk contractAddress timestamp))
    (fun error =>
       reject (HttpException.mk (error_message error) HttpStatus.INTERNAL_SERVER_ERROR)).

Definition getSystemHealth : M (SystemHealthStatus.t + HttpException.t) :=
  http_try_catch
    (health <- HealthMonitoringService.getSystemHealth ;; resolve health)
    (fun error =>
       reject (HttpException.mk FailedToGetSystemHealth HttpStatus.INTERNAL_SERVER_ERROR)).

Definition getCriticalAlerts : M (AlertsResponse.t + HttpException.t) :=
  http_try_catch
    (alerts <- HealthMonitoringService.getCriticalAlerts ;;
     timestamp <- newDate ;;
     resolve (AlertsResponse.mk alerts (length alerts) (Nat.ltb 0 (length alerts))
                timestamp))
    (fun error =>
       reject (HttpException.mk FailedToGetCriticalAlerts HttpStatus.INTERNAL_SERVER_ERROR)).

Definition resumeAllIndexing : M (ResumeResponse.t + HttpException.t) :=
  http_try_catch
    (result <- AutoResumeService.manualResumeAll ;;
     timestamp <- newDate ;;
     resolve (ResumeResponse.mk ResumeOperationCompleted result timestamp))
    (fun error =>
       reject (HttpException.mk FailedToResumeIndexing HttpStatus.INTERNAL_SERVER_ERROR)).

Definition getRecoveryStatus : M (RecoveryStatus.t + HttpException.t) :=
  http_try_catch
    (status <- AutoResumeService.getRecoveryStatus ;; resolve status)
    (fun error =>
       reject (HttpException.mk FailedToGetRecoveryStatus HttpStatus.INTERNAL_SERVER_ERROR)).

Definition resetStuckSyncing : M (ResumeResponse.t + HttpException.t) :=
  http_try_catch
    (result <- AutoResumeService.manualResumeAll ;;
     timestamp <- newDate ;;
     resolve (ResumeResponse.mk ResetStuckSyncingAndResumed result timestamp))
    (fun error =>
       reject (HttpException.mk FailedToResetStuckSyncing HttpStatus.INTERNAL_SERVER_ERROR)).

End IndexingController.

(* ===================================================================== *)
(** ** Operations of the engine *)
(* ===================================================================== *)

(** The units of work and control calls that act on the stores. *)
Inductive Operation :=
| OpStartIndexing (contractAddress : string)
| OpStopIndexing (contractAddress : string) (chainId : option Z)
| OpHandleStartIndexing (fuel : nat) (contractAddress : string) (chainId : Z)
    (events : list string)
| OpProcessBlockRange (job : IndexingJob.t)
| OpProcessTokenEvent (data : ProcessEventJob.t)
| OpResumeIndexing
| OpShutdown (fuel : nat)
| OpGetSystemHealth.

Definition perform (op : Operation) : M unit :=
  match op with
  | OpStartIndexing a => IndexingService.startIndexing a
  | OpStopIndexing a c => IndexingService.stopIndexing a c
  | OpHandleStartIndexing fuel a c evs => IndexingProcessor.handleStartIndexing fuel a c evs
  | OpProcessBlockRange job => IndexingProcessor.handleProcessBlockRange job
  | OpProcessTokenEvent data => IndexingProcessor.handleProcessEvent data
  | OpResumeIndexing => AutoResumeService.resumeIndexing
  | OpShutdown fuel => ShutdownService.onApplicationShutdown fuel
  | OpGetSystemHealth => _ <- HealthMonitoringService.getSystemHealth ;; ret tt
  end.

(** The world after an operation, whatever its outcome: what it wrote
    before an exception stays written. *)
Definition after (env : Env) (op : Operation) (w : World) : World :=
  snd (perform op env w).

(** A history: operations, each under the surroundings of its time. *)
Fixpoint after_all (ops : list (Env * Operation)) (w : World) : World :=
  match ops with
  | [] => w
  | (env, op) :: rest => after_all rest (after env op w)
  end.

(** The cursor of a tracked entity: [lastProcessedBlock] of its row. *)
Definition cursor (contractAddress : string) (chainId : Z) (w : World) : option Z :=
  option_map IndexingProgress.lastProcessedBlock
    (List.find (IndexingProgress.has_key contractAddress chainId)
       (indexingProgressRepository w)).

(** Every processBlockRange job of the history carries a [toBlock] that is
    not below the cursor its entity has when the job runs. *)
Fixpoint in_cursor_order (ops : list (Env * Operation)) (w : World) : bool :=
  match ops with
  | [] => true
  | (env, op) :: rest =>
      (match op with
       | OpProcessBlockRange job =>
           forallb (fun r =>
                      implb (IndexingProgress.has_key (IndexingJob.contractAddress job)
                               (IndexingJob.chainId job) r)
                            (Z.leb (IndexingProgress.lastProcessedBlock r)
                               (IndexingJob.toBlock job)))
             (indexingProgressRepository w)
       | _ => true
       end && in_cursor_order rest (after env op w))%bool
  end.

(** The [toBlock]s of the processBlockRange jobs of an entity, in the
    order of the history. *)
Fixpoint toBlocks_of (a : string) (c : Z) (ops : list (Env * Operation)) : list Z :=
  match ops with
  | [] => []
  | (_, OpProcessBlockRange job) :: rest =>
      if (String.eqb (IndexingJob.contractAddress job) a
          && Z.eqb (IndexingJob.chainId job) c)%bool
      then IndexingJob.toBlock job :: toBlocks_of a c rest
      else toBlocks_of a c rest
  | _ :: rest => toBlocks_of a c rest
  end.

(** The numbers ascend, the first being at least [n]. *)
Fixpoint ascending_from (n : Z) (l : list Z) : bool :=
  match l with
  | [] => true
  | x :: rest => (Z.leb n x && ascending_from x rest)%bool
  end.

(* ===================================================================== *)
(** ** The batch split of the specification *)
(* ===================================================================== *)

(** [sub_i = [from + i*batchSize, min(from + (i+1)*batchSize - 1, to)]] *)
Definition subRange (from to batchSize : Z) (i : nat) : Z * Z :=
  (from + Z.of_nat i * batchSize,
   Z.min (from + (Z.of_nat i + 1) * batchSize - 1) to).

Definition numBatches (from to batchSize : Z) : nat :=
  Z.to_nat ((to - from) / batchSize + 1).

Definition subRanges (from to batchSize : Z) : list (Z * Z) :=
  map (subRange from to batchSize) (seq 0 (numBatches from to batchSize)).

(** The block lies in the range. *)
Definition in_range (b : Z) (r : Z * Z) : bool :=
  (Z.leb (fst r) b && Z.leb b (snd r))%bool.

(** The ranges of the process-block-range jobs that wait in a queue. *)
Definition submitted_ranges (q : Queue.t) : list (Z * Z) :=
  flat_map (fun j =>
    match Job.data j with
    | ProcessBlockRange job => [(IndexingJob.fromBlock job, IndexingJob.toBlock job)]
    | _ => []
    end) (Queue.waiting q).

(** The event of the sub-range is materialized, or recorded in the failure
    sink. *)
Definition materialized_or_failed (e : TokenEvent.t) (w : World) : bool :=
  (existsb (TokenTransfer.has_key (TokenEvent.transactionHash e) (TokenEvent.logIndex e))
     (tokenTransferRepository w)
   || existsb (fun f => String.eqb (FailedEvent.transactionHash f)
                                   (TokenEvent.transactionHash e)
                        && Z.eqb (FailedEvent.logIndex f) (TokenEvent.logIndex e))
        (failedEventRepository w))%bool.

(** The delays of the start-indexing jobs that are parked in the indexing
    queue. *)
Definition parked_delays (w : World) : list (option Z) :=
  map (fun j => JobOpts.delay (Job.opts j)) (Queue.delayed (indexingQueue w)).

(* ===================================================================== *)
(** ** A deployment: USDC on Polygon *)
(* ===================================================================== *)

Module Scenario.

Definition usdc : string := "0x2791Bca1f2de4661ED88A30C99A7a9449Aa84174".

Definition address : string := "0x2791bca1f2de4661ed88a30c99a7a9449aa84174".

Definition events : list string := ["Transfer"; "Approval"].

Definition config : ContractConfig.t :=
  ContractConfig.mk usdc 137 (AtBlock 100) events true.

Definition transferEvent : TokenEvent.t :=
  TokenEvent.mk "0xaa01" 0 150 "0xb150" address "Transfer"
    [JsString "0xF00D"; JsString "0xBEEF"; JsString "2500"].

Definition approvalEvent : TokenEvent.t :=
  TokenEvent.mk "0xaa02" 1 150 "0xb150" address "Approval"
    [JsString "0xF00D"; JsString "0xBEEF"; JsString "9000"].

(** The ledger stands at block 349 and has two events, in block 150;
    every collaborator answers, at once. *)
Definition env : Env :=
  mkEnv (fun _ _ => false) (fun _ _ => Some 0%N) [("usdc", config)] 100 (Some (JsString "https://polygon-rpc.com"))
    349 (fun _ => true)
    (fun _ _ fromBlock toBlock =>
       if (Z.leb fromBlock 150 && Z.leb 150 toBlock)%bool
       then [transferEvent; approvalEvent] else [])
    (fun _ _ => []) 0.

(** The same surroundings with the ledger unreachable. *)
Definition env_ledger_down : Env :=
  mkEnv (fun c _ => match c with Ledger => true | _ => false end) (settles env)
    (contracts env) (batchSize env) (rpcUrl env) (currentBlockNumber env) (hasCode env)
    (tokenEvents env) (activeJobs env) (startTime env).

(** The same surroundings with the queues failing. *)
Definition env_queues_down : Env :=
  mkEnv (fun c _ => match c with WorkQueue _ => true | _ => false end) (settles env)
    (contracts env) (batchSize env) (rpcUrl env) (currentBlockNumber env) (hasCode env)
    (tokenEvents env) (activeJobs env) (startTime env).

(** The same surroundings with one block-processing job that stays
    active, whenever the queue is asked. *)
Definition env_busy : Env :=
  mkEnv (faults env) (settles env) (contracts env) (batchSize env) (rpcUrl env)
    (currentBlockNumber env) (hasCode env) (tokenEvents env)
    (fun q _ =>
       match q with
       | BLOCK_PROCESSING_QUEUE =>
           [Job.mk 1 "process-block-range"
              (ProcessBlockRange (IndexingJob.mk address 137 100 199 events))
              (JobOpts.mk None None (Some 3) (Some 5000))]
       | _ => []
       end)
    (startTime env).

(** [env_busy] with every call taking a quarter of a second to settle. *)
Definition env_slow : Env :=
  mkEnv (faults env) (fun _ _ => Some 250%N) (contracts env) (batchSize env) (rpcUrl env)
    (currentBlockNumber env) (hasCode env) (tokenEvents env) (activeJobs env_busy)
    (startTime env).

(** [env_busy] with a block-processing queue whose calls stay pending. *)
Definition env_hung : Env :=
  mkEnv (faults env)
    (fun c _ => match c with WorkQueue BLOCK_PROCESSING_QUEUE => None | _ => Some 0%N end)
    (contracts env) (batchSize env) (rpcUrl env) (currentBlockNumber env) (hasCode env)
    (tokenEvents env) (activeJobs env_busy) (startTime env).

(** The same address configured on two chains. *)
Definition env_two_chains : Env :=
  mkEnv (faults env) (settles env)
    [("usdc", config);
     ("usdc-mainnet", ContractConfig.mk usdc 1 (AtBlock 100) events true)]
    (batchSize env) (rpcUrl env) (currentBlockNumber env) (hasCode env)
    (tokenEvents env) (activeJobs env) (startTime env).

Definition fresh : World :=
  mkWorld [] [] [] Queue.empty Queue.empty Queue.empty [] 1000 0.

(** After [start(usdc)]: a row with the cursor at 99. *)
Definition started : World := after env (OpStartIndexing usdc) fresh.

(** After the first run: the sub-ranges [100,199], [200,299], [300,349]
    wait in the block-processing queue. *)
Definition scheduled : World :=
  after env (OpHandleStartIndexing 3 address 137 events) started.

Definition job (fromBlock toBlock : Z) : IndexingJob.t :=
  IndexingJob.mk address 137 fromBlock toBlock events.

(** A row whose cursor stands one block below the ledger's height. *)
Definition caught_up : World :=
  mkWorld [IndexingProgress.mk address 137 348 true 100 0 1000] [] []
    Queue.empty Queue.empty Queue.empty [] 1000 0.

(** Only the entity on chain 1 has a row. *)
Definition indexed_on_chain_1 : World :=
  mkWorld [IndexingProgress.mk address 1 348 false 100 0 1000] [] []
    Queue.empty Queue.empty Queue.empty [] 1000 0.

End Scenario.

(* ===================================================================== *)
(** ** Properties of computations *)
(* ===================================================================== *)

(** The computation does not run out of fuel. *)
Definition halts {A} (m : M A) : Prop :=
  forall env w, fst (m env w) <> OutOfFuel.

(** The computation returns normally: it neither throws nor runs out of fuel. *)
Definition returns {A} (m : M A) : Prop :=
  forall env w, exists a, fst (m env w) = Returned a.

(** Whatever its outcome, the computation leaves a progress table that is
    related by [R] to the one it found. *)
Definition preserves (R : list IndexingProgress.t -> list IndexingProgress.t -> Prop)
    {A} (m : M A) : Prop :=
  forall env w,
    R (indexingProgressRepository w) (indexingProgressRepository (snd (m env w))).

(** The record that processTransferEvent writes for a well-formed event. *)
Definition transfer_of (event : TokenEvent.t) (contractAddress : string) (chainId : Z)
    (processedAt : Z) : option TokenTransfer.t :=
  match TokenEvent.args event with
  | JsString from :: JsString to :: value :: _ =>
      match value with
      | JsString v =>
          Some (TokenTransfer.mk (TokenEvent.transactionHash event)
                  (TokenEvent.logIndex event) (TokenEvent.blockNumber event)
                  (TokenEvent.blockHash event) (toLowerCase contractAddress)
                  (toLowerCase from) (toLowerCase to) v chainId processedAt)
      | JsNumber n =>
          Some (TokenTransfer.mk (TokenEvent.transactionHash event)
                  (TokenEvent.logIndex event) (TokenEvent.blockNumber event)
                  (TokenEvent.blockHash event) (toLowerCase contractAddress)
                  (toLowerCase from) (toLowerCase to) (pretty n) chainId processedAt)
      | JsBool b =>
          Some (TokenTransfer.mk (TokenEvent.transactionHash event)
                  (TokenEvent.logIndex event) (TokenEvent.blockNumber event)
                  (TokenEvent.blockHash event) (toLowerCase contractAddress)
                  (toLowerCase from) (toLowerCase to) (if b then "true" else "false")
                  chainId processedAt)
      | JsNull => None
      end
  | _ => None
  end.

(** The row is the one of the configured contract. *)
Definition row_of (c : ContractConfig.t) (r : IndexingProgress.t) : bool :=
  IndexingProgress.has_key (toLowerCase (ContractConfig.address c))
    (ContractConfig.chainId c) r.

(** The row belongs to an enabled contract that is live on the ledger. *)
Definition resumed_row (env : Env) (r : IndexingProgress.t) : bool :=
  existsb (fun c => row_of c r && hasCode env (ContractConfig.address c))%bool
    (AutoResumeService.enabledContracts (contracts env)).

(** The enabled contracts that have a row and are live on the ledger. *)
Definition resumed_contracts (env : Env) (rows : list IndexingProgress.t)
    : list ContractConfig.t :=
  List.filter (fun c => existsb (row_of c) rows && hasCode env (ContractConfig.address c))%bool
    (AutoResumeService.enabledContracts (contracts env)).

(** The start-indexing job that startIndexing enqueues for a contract. *)
Definition start_job (c : ContractConfig.t) : string * JobData * JobOpts.t :=
  ("start-indexing",
   StartIndexing (toLowerCase (ContractConfig.address c)) (ContractConfig.chainId c)
     (ContractConfig.events c),
   JobOpts.mk (Some 1) (Some 0) None None).

(** A row after the recovery pass at time [t]: a stuck flag is reset, and
    the flag of a resumed row is set. *)
Definition reset_row (t : Z) (r : IndexingProgress.t) : IndexingProgress.t :=
  if IndexingProgress.isSyncing r then IndexingProgress.set_isSyncing false t r else r.

Definition recovered_row (env : Env) (t : Z) (r : IndexingProgress.t) : IndexingProgress.t :=
  if resumed_row env r then IndexingProgress.set_isSyncing true t (reset_row t r)
  else reset_row t r.

(** No two configured contracts share an address, whatever the case of
    its letters. *)
Definition distinct_addresses (env : Env) : Prop :=
  NoDup (map (fun kv : string * ContractConfig.t =>
                toLowerCase (ContractConfig.address (snd kv))) (contracts env)).

(** The active jobs that a query of the queue sees when it is collaborator
    call number [k]; a query that fails sees none. *)
Definition seen (env : Env) (q : QueueName) (k : nat) : nat :=
  if faults env (WorkQueue q) k then 0%nat else length (activeJobs env q k).

(** The active jobs that one pass over the three queues counts when it
    starts at call number [t]. *)
Definition activeSeen (env : Env) (t : nat) : nat :=
  (seen env INDEXING_QUEUE t + seen env BLOCK_PROCESSING_QUEUE (S t)
   + seen env EVENT_PROCESSING_QUEUE (S (S t)))%nat.

(** The jobs of a queue that have not started. *)
Definition pending (q : Queue.t) : list Job.t := Queue.waiting q ++ Queue.delayed q.

(** The job carries a contract address, it is the entity's address up to
    the case of its letters, and the job's chain is the entity's. *)
Definition entity_job (contractAddress : string) (chainId : Z) (job : Job.t) : Prop :=
  data_contractAddress (Job.data job) <> "" /\
  toLowerCase (data_contractAddress (Job.data job)) = toLowerCase contractAddress /\
  data_chainId (Job.data job) = chainId.

(** What the inner loop of removeContractJobs does to a queue, job by job. *)
Definition remove_matching (a : string) (c : Z) (jobs : list Job.t) (q : Queue.t) : Queue.t :=
  fold_left (fun Q j => if IndexingService.job_of a c j then Queue.remove (Job.id j) Q else Q)
    jobs q.

(** The progress table is left as it was. *)
Definition unchanged (rows rows' : list IndexingProgress.t) : Prop := rows' = rows.

(** A row stays the row of its entity; its cursor stays, or is set to a
    value that [allow] admits for the entity. *)
Definition row_step (allow : string -> Z -> Z -> Prop) (r r' : IndexingProgress.t) : Prop :=
  IndexingProgress.contractAddress r' = IndexingProgress.contractAddress r /\
  IndexingProgress.chainId r' = IndexingProgress.chainId r /\
  (IndexingProgress.lastProcessedBlock r' = IndexingProgress.lastProcessedBlock r \/
   allow (IndexingProgress.contractAddress r) (IndexingProgress.chainId r)
     (IndexingProgress.lastProcessedBlock r')).

(** Rows are never deleted; new rows come after the old ones. *)
Definition cursor_step (allow : string -> Z -> Z -> Prop)
    (rows rows' : list IndexingProgress.t) : Prop :=
  exists changed extra, rows' = changed ++ extra /\ Forall2 (row_step allow) rows changed.

(** What an operation may set a cursor to: processBlockRange sets the
    cursor of its job's entity to the job's [toBlock]; nothing else sets
    any. *)
Definition allowed (op : Operation) (a : string) (c : Z) (n : Z) : Prop :=
  match op with
  | OpProcessBlockRange job =>
      a = IndexingJob.contractAddress job /\ c = IndexingJob.chainId job /\
      n = IndexingJob.toBlock job
  | _ => False
  end.

(** What one round of the loop does to the world. *)
Definition submit (a : string) (c : Z) (evs : list string) (w : World) (r : Z * Z) : World :=
  with_tick S
    (with_queue BLOCK_PROCESSING_QUEUE
       (Queue.add "process-block-range"
          (ProcessBlockRange (IndexingJob.mk a c (fst r) (snd r) evs))
          (JobOpts.mk None None (Some 3) (Some 5000)))
       (with_tick S w)).

(* ===================================================================== *)
(** ** Further notions: rows, jobs, events, issues *)
(* ===================================================================== *)

(** The rows agree on everything but the flag and the time of the last
    update. *)
Definition same_progress (r r' : IndexingProgress.t) : Prop :=
  IndexingProgress.contractAddress r' = IndexingProgress.contractAddress r /\
  IndexingProgress.chainId r' = IndexingProgress.chainId r /\
  IndexingProgress.lastProcessedBlock r' = IndexingProgress.lastProcessedBlock r /\
  IndexingProgress.syncStartBlock r' = IndexingProgress.syncStartBlock r /\
  IndexingProgress.totalEventsProcessed r' = IndexingProgress.totalEventsProcessed r.

(** A row stays the row of its entity, and a flag that is set stays set. *)
Definition flag_kept_row (r r' : IndexingProgress.t) : Prop :=
  IndexingProgress.contractAddress r' = IndexingProgress.contractAddress r /\
  IndexingProgress.chainId r' = IndexingProgress.chainId r /\
  (IndexingProgress.isSyncing r = true -> IndexingProgress.isSyncing r' = true).

Definition flag_kept (rows rows' : list IndexingProgress.t) : Prop :=
  exists changed extra, rows' = changed ++ extra /\ Forall2 flag_kept_row rows changed.

(** The payloads of the process-event jobs of a list of events. *)
Definition event_jobs (a : string) (c : Z) (evs : list TokenEvent.t) : list JobData :=
  map (fun e => ProcessEvent (ProcessEventJob.mk e a c)) evs.

(** The job is none of the entity. *)
Definition other_job (a : string) (c : Z) (j : Job.t) : bool :=
  negb (IndexingService.job_of a c j).

(** The order of the ledger: by block, then by position in the block. *)
Definition chain_order (a b : TokenEvent.t) : Prop :=
  TokenEvent.blockNumber a < TokenEvent.blockNumber b \/
  (TokenEvent.blockNumber a = TokenEvent.blockNumber b /\
   TokenEvent.logIndex a <= TokenEvent.logIndex b).

(** The entries that getTokenEvents pushes, before it sorts them. *)
Definition decoded_events (eventNames : list string)
    (queryFilter : string -> list QueriedLog) : list TokenEvent.t :=
  flat_map (fun eventName =>
    flat_map (fun log =>
                match log with
                | Decoded log => [BlockchainService.tokenEvent eventName log]
                | Undecoded => []
                end) (queryFilter eventName)) eventNames.

(** The two issues that report a lost connection. *)
Definition is_connection_failure (issue : Issue) : bool :=
  match issue with
  | BlockchainRpcConnectionFailed | DatabaseConnectionFailed => true
  | _ => false
  end.

(** The test of getCriticalAlerts on the text of an issue. *)
Definition is_critical (issue : Issue) : bool :=
  (includes (issue_text issue) "connection failed"
   || includes (issue_text issue) "unhealthy")%bool.

Definition is_digit (c : ascii) : bool :=
  let n := nat_of_ascii c in (Nat.leb 48 n && Nat.leb n 57)%bool.

(** The lag of a row behind the ledger. *)
Definition lag_of (currentBlock : Z) (r : IndexingProgress.t) : Z :=
  currentBlock - IndexingProgress.lastProcessedBlock r.

(** The last row of the table that has the address, on whatever chain. *)
Definition last_row_at (a : string) (rows : list IndexingProgress.t)
    : option IndexingProgress.t :=
  List.find (fun r => String.eqb (IndexingProgress.contractAddress r) a) (rev rows).

Definition same_queue (q q' : QueueName) : bool :=
  match q, q' with
  | INDEXING_QUEUE, INDEXING_QUEUE => true
  | BLOCK_PROCESSING_QUEUE, BLOCK_PROCESSING_QUEUE => true
  | EVENT_PROCESSING_QUEUE, EVENT_PROCESSING_QUEUE => true
  | _, _ => false
  end.

Definition same_collaborator (c c' : Collaborator) : bool :=
  match c, c' with
  | Ledger, Ledger => true
  | ProgressStore, ProgressStore => true
  | TransferStore, TransferStore => true
  | FailureSink, FailureSink => true
  | WorkQueue q, WorkQueue q' => same_queue q q'
  | _, _ => false
  end.

(** The deployment of [Scenario] under outages and with odd inputs. *)
Module Outage.

(** The surroundings of [Scenario.env] with the listed calls failing. *)
Definition env (failing : list (Collaborator * nat)) : Env :=
  mkEnv (fun c k =>
           existsb (fun f => same_collaborator (fst f) c && Nat.eqb (snd f) k)%bool failing)
    (settles Scenario.env) (contracts Scenario.env) (batchSize Scenario.env) (rpcUrl Scenario.env)
    (currentBlockNumber Scenario.env) (hasCode Scenario.env) (tokenEvents Scenario.env)
    (activeJobs Scenario.env) (startTime Scenario.env).

(** The same surroundings with the progress repository unreachable. *)
Definition env_store_down : Env :=
  mkEnv (fun c _ => match c with ProgressStore => true | _ => false end)
    (settles Scenario.env) (contracts Scenario.env) (batchSize Scenario.env) (rpcUrl Scenario.env)
    (currentBlockNumber Scenario.env) (hasCode Scenario.env) (tokenEvents Scenario.env)
    (activeJobs Scenario.env) (startTime Scenario.env).

(** The same surroundings with a batch size of zero. *)
Definition env_zero_batch : Env :=
  mkEnv (faults Scenario.env) (settles Scenario.env) (contracts Scenario.env) 0
    (rpcUrl Scenario.env)
    (currentBlockNumber Scenario.env) (hasCode Scenario.env) (tokenEvents Scenario.env)
    (activeJobs Scenario.env) (startTime Scenario.env).

(** An address that is not configured. *)
Definition stranger : string := "0x00000000000000000000000000000000000000aa".

(** A Transfer event whose recipient is missing. *)
Definition malformedEvent : TokenEvent.t :=
  TokenEvent.mk "0xaa03" 2 150 "0xb150" Scenario.address "Transfer"
    [JsString "0xF00D"; JsNull; JsString "1"].

(** A Transfer log as the ledger client decodes it. *)
Definition transferLog : EventLog.t :=
  EventLog.mk "0xaa01" 0 150 "0xb150" Scenario.usdc
    [ArgValue (JsString "0xF00D"); ArgValue (JsString "0xBEEF"); ArgBigInt 2500].

(** [Scenario.scheduled] with a sub-range of the stranger waiting behind
    the three of USDC. *)
Definition shared_queue : World :=
  with_queue BLOCK_PROCESSING_QUEUE
    (Queue.add "process-block-range"
       (ProcessBlockRange (IndexingJob.mk stranger 137 100 199 Scenario.events))
       (JobOpts.mk None None (Some 3) (Some 5000)))
    Scenario.scheduled.

(** The surroundings in which the second call after [Scenario.scheduled]
    fails when it goes to the progress repository. *)
Definition env_find_fails : Env :=
  env [(ProgressStore, S (tick Scenario.scheduled))].

(** The rows of one address on two chains. *)
Definition two_rows : World :=
  mkWorld [IndexingProgress.mk Scenario.address 137 300 true 100 0 1000;
           IndexingProgress.mk Scenario.address 1 48 false 100 0 1000] [] []
    Queue.empty Queue.empty Queue.empty [] 1000 0.

End Outage.

(* ===================================================================== *)
(** ** Reasoning about computations *)
(* ===================================================================== *)

Lemma run_call {A} (c : Collaborator) (act : Env -> World -> A * World) env w :
  faults env c (tick w) = false ->
  call c act env w = (Returned (fst (act env w)), with_tick S (snd (act env w))).
Proof.
  intros H. unfold call. rewrite H. destruct (act env w); reflexivity.
Qed.

(** *** Computations that halt, and computations that return *)

Lemma returns_halts {A} (m : M A) : returns m -> halts m.
Proof. intros H env w. destruct (H env w) as [a Ha]. rewrite Ha. discriminate. Qed.

Lemma halts_ret {A} (a : A) : halts (ret a).
Proof. intros env w. discriminate. Qed.

Lemma halts_throw {A} (e : Error) : halts (@throw A e).
Proof. intros env w. discriminate. Qed.

Lemma halts_ask {A} (f : Env -> A) : halts (ask f).
Proof. intros env w. discriminate. Qed.

Lemma halts_get {A} (f : World -> A) : halts (get f).
Proof. intros env w. discriminate. Qed.

Lemma halts_modify (f : World -> World) : halts (modify f).
Proof. intros env w. discriminate. Qed.

Lemma halts_call {A} c (act : Env -> World -> A * World) : halts (call c act).
Proof.
  intros env w. unfold call.
  destruct (faults env c (tick w)); [discriminate|].
  destruct (act env w); discriminate.
Qed.

Lemma halts_bind {A B} (m : M A) (k : A -> M B) :
  halts m -> (forall a, halts (k a)) -> halts (bind m k).
Proof.
  intros Hm Hk env w. unfold bind. specialize (Hm env w).
  destruct (m env w) as [[a| e |] w']; cbn in *; [apply Hk | discriminate | congruence].
Qed.

Lemma halts_try_catch {A} (body : M A) (handler : Error -> M A) :
  halts body -> (forall e, halts (handler e)) -> halts (try_catch body handler).
Proof.
  intros Hm Hk env w. unfold try_catch. specialize (Hm env w).
  destruct (body env w) as [[a| e |] w']; cbn in *; [discriminate | apply Hk | congruence].
Qed.

Lemma halts_forEach {A} (f : A -> M unit) (xs : list A) :
  (forall x, halts (f x)) -> halts (forEach f xs).
Proof.
  intros Hf. induction xs as [|x xs IH]; cbn.
  - apply halts_ret.
  - apply halts_bind; auto.
Qed.

Lemma returns_ret {A} (a : A) : returns (ret a).
Proof. intros env w. eexists; reflexivity. Qed.

Lemma returns_ask {A} (f : Env -> A) : returns (ask f).
Proof. intros env w. eexists; reflexivity. Qed.

Lemma returns_get {A} (f : World -> A) : returns (get f).
Proof. intros env w. eexists; reflexivity. Qed.

Lemma returns_modify (f : World -> World) : returns (modify f).
Proof. intros env w. eexists; reflexivity. Qed.

Lemma returns_bind {A B} (m : M A) (k : A -> M B) :
  returns m -> (forall a, returns (k a)) -> returns (bind m k).
Proof.
  intros Hm Hk env w. unfold bind. destruct (Hm env w) as [a Ha].
  destruct (m env w) as [o w']; cbn in Ha; subst o. apply Hk.
Qed.

(** A handler that returns makes the whole `try` return. *)
Lemma returns_try_catch {A} (body : M A) (handler : Error -> M A) :
  halts body -> (forall e, returns (handler e)) -> returns (try_catch body handler).
Proof.
  intros Hm Hk env w. unfold try_catch. specialize (Hm env w).
  destruct (body env w) as [[a| e |] w']; cbn in *;
    [eexists; reflexivity | apply Hk | congruence].
Qed.

Lemma returns_forEach {A} (f : A -> M unit) (xs : list A) :
  (forall x, returns (f x)) -> returns (forEach f xs).
Proof.
  intros Hf. induction xs as [|x xs IH]; cbn.
  - apply returns_ret.
  - apply returns_bind; auto.
Qed.

Lemma returns_run {A} (m : M A) env w :
  returns m -> exists a w', m env w = (Returned a, w').
Proof.
  intros H. destruct (H env w) as [a Ha].
  destruct (m env w) as [o w']; cbn in Ha; subst o. eauto.
Qed.

(** *** Relations between the progress table before and after *)

Section Preservation.

Variable R : list IndexingProgress.t -> list IndexingProgress.t -> Prop.

Hypothesis R_refl : forall rows, R rows rows.

Hypothesis R_trans : forall a b c, R a b -> R b c -> R a c.

Lemma preserves_ret {A} (a : A) : preserves R (ret a).
Proof. intros env w. apply R_refl. Qed.

Lemma preserves_throw {A} (e : Error) : preserves R (@throw A e).
Proof. intros env w. apply R_refl. Qed.

Lemma preserves_outOfFuel {A} : preserves R (@outOfFuel A).
Proof. intros env w. apply R_refl. Qed.

Lemma preserves_ask {A} (f : Env -> A) : preserves R (ask f).
Proof. intros env w. apply R_refl. Qed.

Lemma preserves_get {A} (f : World -> A) : preserves R (get f).
Proof. intros env w. apply R_refl. Qed.

Lemma preserves_modify (f : World -> World) :
  (forall w, indexingProgressRepository (f w) = indexingProgressRepository w) ->
  preserves R (modify f).
Proof. intros H env w. cbn. rewrite H. apply R_refl. Qed.

Lemma preserves_bind {A B} (m : M A) (k : A -> M B) :
  preserves R m -> (forall a, preserves R (k a)) -> preserves R (bind m k).
Proof.
  intros Hm Hk env w. unfold bind. specialize (Hm env w).
  destruct (m env w) as [[a| e |] w']; cbn in *; auto.
  eapply R_trans; [exact Hm | apply Hk].
Qed.

Lemma preserves_try_catch {A} (body : M A) (handler : Error -> M A) :
  preserves R body -> (forall e, preserves R (handler e)) ->
  preserves R (try_catch body handler).
Proof.
  intros Hm Hk env w. unfold try_catch. specialize (Hm env w).
  destruct (body env w) as [[a| e |] w']; cbn in *; auto.
  eapply R_trans; [exact Hm | apply Hk].
Qed.

Lemma preserves_call {A} c (act : Env -> World -> A * World) :
  (forall env w,
      R (indexingProgressRepository w) (indexingProgressRepository (snd (act env w)))) ->
  preserves R (call c act).
Proof.
  intros H env w. unfold call.
  destruct (faults env c (tick w)); cbn; [apply R_refl|].
  specialize (H env w). destruct (act env w) as [a w']; cbn in *. exact H.
Qed.

Lemma preserves_await_settled {A} c (m : M A) :
  preserves R m -> preserves R (await_settled c m).
Proof.
  intros H env w. unfold await_settled.
  destruct (settles env c (tick w)); [|apply R_refl].
  specialize (H env w). destruct (m env w) as [o w']. cbn in *. exact H.
Qed.

Lemma preserves_forEach {A} (f : A -> M unit) (xs : list A) :
  (forall x, preserves R (f x)) -> preserves R (forEach f xs).
Proof.
  intros Hf. induction xs as [|x xs IH]; cbn.
  - apply preserves_ret.
  - apply preserves_bind; auto.
Qed.

Lemma preserves_logger l m : preserves R (logger l m).
Proof. apply preserves_modify. reflexivity. Qed.

Lemma preserves_sleep ms : preserves R (sleep ms).
Proof. apply preserves_modify. reflexivity. Qed.

(** A call that leaves the progress table alone. *)
Lemma preserves_call_frame {A} c (act : Env -> World -> A * World) :
  (forall env w,
      indexingProgressRepository (snd (act env w)) = indexingProgressRepository w) ->
  preserves R (call c act).
Proof. intros H. apply preserves_call. intros env w. rewrite H. apply R_refl. Qed.

Lemma progress_with_queue q f w :
  indexingProgressRepository (with_queue q f w) = indexingProgressRepository w.
Proof. destruct q; reflexivity. Qed.

Lemma preserves_queue_add q n d o : preserves R (BullQueue.add q n d o).
Proof. apply preserves_call_frame. intros. apply progress_with_queue. Qed.

Lemma preserves_queue_addBulk q js : preserves R (BullQueue.addBulk q js).
Proof. apply preserves_call_frame. intros. apply progress_with_queue. Qed.

Lemma preserves_queue_remove q j : preserves R (BullQueue.remove q j).
Proof. apply preserves_call_frame. intros. apply progress_with_queue. Qed.

Lemma preserves_queue_close q : preserves R (BullQueue.close q).
Proof. apply preserves_call_frame. intros. apply progress_with_queue. Qed.

Lemma preserves_queue_getWaiting q : preserves R (BullQueue.getWaiting q).
Proof. apply preserves_call_frame. reflexivity. Qed.

Lemma preserves_queue_getDelayed q : preserves R (BullQueue.getDelayed q).
Proof. apply preserves_call_frame. reflexivity. Qed.

Lemma preserves_queue_getActive q : preserves R (BullQueue.getActive q).
Proof. apply preserves_call_frame. reflexivity. Qed.

Lemma preserves_findOne a c : preserves R (ProgressRepository.findOne a c).
Proof. apply preserves_call_frame. reflexivity. Qed.

Lemma preserves_find : preserves R ProgressRepository.find.
Proof. apply preserves_call_frame. reflexivity. Qed.

Lemma preserves_getCurrentBlockNumber : preserves R BlockchainService.getCurrentBlockNumber.
Proof. apply preserves_call_frame. reflexivity. Qed.

Lemma preserves_getTokenEvents a ns f t :
  preserves R (BlockchainService.getTokenEvents a ns f t).
Proof. apply preserves_call_frame. reflexivity. Qed.

Lemma preserves_validateContractAddress a :
  preserves R (BlockchainService.validateContractAddress a).
Proof.
  apply preserves_try_catch; [apply preserves_call_frame; reflexivity|].
  intros. apply preserves_ret.
Qed.

Lemma preserves_transfer_findOne h i : preserves R (TransferRepository.findOne h i).
Proof. apply preserves_call_frame. reflexivity. Qed.

Lemma preserves_transfer_save r : preserves R (TransferRepository.save r).
Proof. apply preserves_call_frame. reflexivity. Qed.

Lemma preserves_failed_save r : preserves R (FailedEventRepository.save r).
Proof. apply preserves_call_frame. reflexivity. Qed.

Lemma preserves_failed_count : preserves R FailedEventRepository.count.
Proof. apply preserves_call_frame. reflexivity. Qed.

Lemma preserves_js_toLowerCase v : preserves R (js_toLowerCase v).
Proof. destruct v as [[]|]; (apply preserves_ret || apply preserves_throw). Qed.

Lemma preserves_js_toString v : preserves R (js_toString v).
Proof. destruct v as [[]|]; (apply preserves_ret || apply preserves_throw). Qed.

(** The two writes to the progress table. *)
Lemma preserves_update (criteria : IndexingProgress.t -> bool)
    (partial : Z -> IndexingProgress.t -> IndexingProgress.t) :
  (forall rows t, R rows (map (fun r => if criteria r then partial t r else r) rows)) ->
  preserves R (ProgressRepository.update criteria partial).
Proof. intros H. apply preserves_call. intros env w. cbn. apply H. Qed.

Lemma preserves_save r :
  (forall rows, R rows (rows ++ [r])) -> preserves R (ProgressRepository.save r).
Proof.
  intros H. apply preserves_bind.
  - apply preserves_call. intros env w. cbn.
    destruct (existsb _ _); cbn; [apply R_refl | apply H].
  - intros []; [apply preserves_throw | apply preserves_ret].
Qed.

End Preservation.

Ltac preserve Hrefl Htrans :=
  repeat (intros; cbv beta zeta;
    lazymatch goal with
    | |- preserves _ (bind _ _) => apply (preserves_bind _ Htrans)
    | |- preserves _ (try_catch _ _) => apply (preserves_try_catch _ Htrans)
    | |- preserves _ (forEach _ _) => apply (preserves_forEach _ Hrefl Htrans)
    | |- preserves _ (await_settled _ _) => apply (preserves_await_settled _ Hrefl)
    | |- preserves _ (ret _) => apply (preserves_ret _ Hrefl)
    | |- preserves _ (throw _) => apply (preserves_throw _ Hrefl)
    | |- preserves _ outOfFuel => apply (preserves_outOfFuel _ Hrefl)
    | |- preserves _ (ask _) => apply (preserves_ask _ Hrefl)
    | |- preserves _ (get _) => apply (preserves_get _ Hrefl)
    | |- preserves _ newDate => apply (preserves_get _ Hrefl)
    | |- preserves _ (logger _ _) => apply (preserves_logger _ Hrefl)
    | |- preserves _ (sleep _) => apply (preserves_sleep _ Hrefl)
    | |- preserves _ (BullQueue.add _ _ _ _) => apply (preserves_queue_add _ Hrefl)
    | |- preserves _ (BullQueue.addBulk _ _) => apply (preserves_queue_addBulk _ Hrefl)
    | |- preserves _ (BullQueue.remove _ _) => apply (preserves_queue_remove _ Hrefl)
    | |- preserves _ (BullQueue.close _) => apply (preserves_queue_close _ Hrefl)
    | |- preserves _ (BullQueue.getWaiting _) => apply (preserves_queue_getWaiting _ Hrefl)
    | |- preserves _ (BullQueue.getDelayed _) => apply (preserves_queue_getDelayed _ Hrefl)
    | |- preserves _ (BullQueue.getActive _) => apply (preserves_queue_getActive _ Hrefl)
    | |- preserves _ (ProgressRepository.findOne _ _) => apply (preserves_findOne _ Hrefl)
    | |- preserves _ ProgressRepository.find => apply (preserves_find _ Hrefl)
    | |- preserves _ BlockchainService.getCurrentBlockNumber =>
        apply (preserves_getCurrentBlockNumber _ Hrefl)
    | |- preserves _ (BlockchainService.getTokenEvents _ _ _ _) =>
        apply (preserves_getTokenEvents _ Hrefl)
    | |- preserves _ (BlockchainService.validateContractAddress _) =>
        apply (preserves_validateContractAddress _ Hrefl Htrans)
    | |- preserves _ (TransferRepository.findOne _ _) =>
        apply (preserves_transfer_findOne _ Hrefl)
    | |- preserves _ (TransferRepository.save _) => apply (preserves_transfer_save _ Hrefl)
    | |- preserves _ (FailedEventRepository.save _) => apply (preserves_failed_save _ Hrefl)
    | |- preserves _ FailedEventRepository.count => apply (preserves_failed_count _ Hrefl)
    | |- preserves _ (js_toLowerCase _) => apply (preserves_js_toLowerCase _ Hrefl)
    | |- preserves _ (js_toString _) => apply (preserves_js_toString _ Hrefl)
    | |- preserves _ (ProgressRepository.update _ _) => apply (preserves_update _ Hrefl)
    | |- preserves _ (ProgressRepository.save _) => apply (preserves_save _ Hrefl Htrans)
    | |- preserves _ (match ?x with _ => _ end) => destruct x
    end).

(* ===================================================================== *)
(** ** The cursor: what each operation may do to lastProcessedBlock *)
(* ===================================================================== *)

Lemma has_key_spec a c r :
  IndexingProgress.has_key a c r = true <->
  IndexingProgress.contractAddress r = a /\ IndexingProgress.chainId r = c.
Proof.
  unfold IndexingProgress.has_key. rewrite andb_true_iff, String.eqb_eq, Z.eqb_eq.
  reflexivity.
Qed.

Section Cursor.

(** [allow a c n]: the entity (a, c) may have its cursor set to [n]. *)
Variable allow : string -> Z -> Z -> Prop.

Lemma row_step_refl r : row_step allow r r.
Proof. unfold row_step. auto. Qed.

Lemma row_step_trans r1 r2 r3 : row_step allow r1 r2 -> row_step allow r2 r3 -> row_step allow r1 r3.
Proof.
  unfold row_step. intros (Ha & Hc & H12) (Ha' & Hc' & H23).
  rewrite Ha, Hc in *. repeat split; try congruence.
  destruct H23 as [H23|H23]; [|right; exact H23].
  destruct H12 as [H12|H12]; [left; congruence | right; rewrite H23; exact H12].
Qed.

Lemma Forall2_row_step_refl rows : Forall2 (row_step allow) rows rows.
Proof. induction rows; constructor; auto using row_step_refl. Qed.

Lemma cursor_step_refl rows : cursor_step allow rows rows.
Proof.
  exists rows, []. split; [symmetry; apply app_nil_r | apply Forall2_row_step_refl].
Qed.

Lemma Forall2_row_step_trans l1 l2 l3 :
  Forall2 (row_step allow) l1 l2 -> Forall2 (row_step allow) l2 l3 -> Forall2 (row_step allow) l1 l3.
Proof.
  intros H. revert l3. induction H; intros l3 H3; inversion H3; subst; constructor.
  - eapply row_step_trans; eauto.
  - auto.
Qed.

Lemma cursor_step_trans a b c : cursor_step allow a b -> cursor_step allow b c -> cursor_step allow a c.
Proof.
  intros (ch1 & ex1 & -> & H1) (ch2 & ex2 & -> & H2).
  apply Forall2_app_inv_l in H2 as (c2a & c2b & Ha & Hb & ->).
  exists c2a, (c2b ++ ex2). split; [symmetry; apply app_assoc|].
  eapply Forall2_row_step_trans; eauto.
Qed.

Lemma cursor_step_append rows r : cursor_step allow rows (rows ++ [r]).
Proof. exists rows, [r]. split; [reflexivity | apply Forall2_row_step_refl]. Qed.

Lemma cursor_step_map (f : IndexingProgress.t -> IndexingProgress.t) rows :
  (forall r, row_step allow r (f r)) -> cursor_step allow rows (map f rows).
Proof.
  intros H. exists (map f rows), []. split; [symmetry; apply app_nil_r|].
  induction rows; constructor; auto.
Qed.

Lemma cursor_step_isSyncing (criteria : IndexingProgress.t -> bool) b rows t :
  cursor_step allow rows
    (map (fun r => if criteria r then IndexingProgress.set_isSyncing b t r else r) rows).
Proof.
  apply cursor_step_map. intros r. destruct (criteria r); [|apply row_step_refl].
  unfold row_step; cbn; auto.
Qed.

Lemma cursor_step_increment (criteria : IndexingProgress.t -> bool) d rows t :
  cursor_step allow rows
    (map (fun r => if criteria r
                   then IndexingProgress.increment_totalEventsProcessed d t r else r) rows).
Proof.
  apply cursor_step_map. intros r. destruct (criteria r); [|apply row_step_refl].
  unfold row_step; cbn; auto.
Qed.

Lemma cursor_step_set a c n rows t :
  allow a c n ->
  cursor_step allow rows
    (map (fun r => if IndexingProgress.has_key a c r
                   then IndexingProgress.set_lastProcessedBlock n t r else r) rows).
Proof.
  intros Hallow. apply cursor_step_map. intros r.
  destruct (IndexingProgress.has_key a c r) eqn:Hk; [|apply row_step_refl].
  apply has_key_spec in Hk as [<- <-]. unfold row_step; cbn; auto.
Qed.

(** The first row of an entity stays its first row. *)
Lemma find_row_step a c rows changed extra r :
  Forall2 (row_step allow) rows changed ->
  List.find (IndexingProgress.has_key a c) rows = Some r ->
  exists r', List.find (IndexingProgress.has_key a c) (changed ++ extra) = Some r' /\
             row_step allow r r'.
Proof.
  intros H. induction H as [|x y xs ys Hxy Hrest IH]; cbn; [discriminate|].
  assert (Hkey : IndexingProgress.has_key a c y = IndexingProgress.has_key a c x).
  { destruct Hxy as (Ha & Hc & _). unfold IndexingProgress.has_key. rewrite Ha, Hc.
    reflexivity. }
  rewrite Hkey. destruct (IndexingProgress.has_key a c x).
  - intros [= <-]. eauto.
  - exact IH.
Qed.

Lemma keeps_updateSyncingStatus a c b :
  preserves (cursor_step allow) (IndexingService.updateSyncingStatus a c b).
Proof.
  unfold IndexingService.updateSyncingStatus.
  preserve cursor_step_refl cursor_step_trans. apply cursor_step_isSyncing.
Qed.

Lemma keeps_getIndexingStatus a c : preserves (cursor_step allow) (IndexingService.getIndexingStatus a c).
Proof. apply (preserves_findOne _ cursor_step_refl). Qed.

Lemma keeps_startIndexing a : preserves (cursor_step allow) (IndexingService.startIndexing a).
Proof.
  unfold IndexingService.startIndexing, IndexingService.getContractConfig.
  preserve cursor_step_refl cursor_step_trans;
    auto using cursor_step_append, cursor_step_isSyncing.
Qed.

Lemma keeps_processTokenEvent data : preserves (cursor_step allow) (IndexingService.processTokenEvent data).
Proof.
  unfold IndexingService.processTokenEvent, IndexingService.processTransferEvent,
    IndexingService.storeFailedEvent.
  preserve cursor_step_refl cursor_step_trans; auto using cursor_step_increment.
Qed.

Lemma keeps_processBlockRange job :
  allow (IndexingJob.contractAddress job) (IndexingJob.chainId job)
    (IndexingJob.toBlock job) ->
  preserves (cursor_step allow) (IndexingService.processBlockRange job).
Proof.
  intros Hallow. unfold IndexingService.processBlockRange.
  preserve cursor_step_refl cursor_step_trans.
  intros. apply cursor_step_set. exact Hallow.
Qed.

Lemma keeps_removeContractJobs a c : preserves (cursor_step allow) (IndexingService.removeContractJobs a c).
Proof.
  unfold IndexingService.removeContractJobs.
  preserve cursor_step_refl cursor_step_trans.
Qed.

Lemma keeps_stopIndexing a c : preserves (cursor_step allow) (IndexingService.stopIndexing a c).
Proof.
  unfold IndexingService.stopIndexing.
  preserve cursor_step_refl cursor_step_trans;
    auto using cursor_step_isSyncing, keeps_removeContractJobs.
Qed.

Lemma keeps_processInBatches fuel a c evs cur bs from :
  preserves (cursor_step allow) (IndexingProcessor.processInBatches fuel a c evs cur bs from).
Proof.
  revert from. induction fuel as [|fuel IH]; intros from; cbn.
  - destruct (negb (Z.leb from cur)); preserve cursor_step_refl cursor_step_trans.
  - destruct (negb (Z.leb from cur)); preserve cursor_step_refl cursor_step_trans;
      auto using keeps_getIndexingStatus.
Qed.

Lemma keeps_handleStartIndexing fuel a c evs :
  preserves (cursor_step allow) (IndexingProcessor.handleStartIndexing fuel a c evs).
Proof.
  unfold IndexingProcessor.handleStartIndexing, IndexingProcessor.scheduleNextIndexing.
  preserve cursor_step_refl cursor_step_trans;
    auto using keeps_getIndexingStatus, keeps_updateSyncingStatus,
      keeps_processInBatches.
Qed.

Lemma keeps_resumeIndexing : preserves (cursor_step allow) AutoResumeService.resumeIndexing.
Proof.
  unfold AutoResumeService.resumeIndexing, AutoResumeService.resetStuckSyncingStates,
    AutoResumeService.resumeContractIndexing.
  preserve cursor_step_refl cursor_step_trans;
    auto using cursor_step_isSyncing, keeps_startIndexing.
Qed.

Lemma keeps_countActiveJobs qs n : preserves (cursor_step allow) (ShutdownService.countActiveJobs qs n).
Proof.
  revert n. induction qs as [|[name q] qs IH]; intros n; cbn;
    preserve cursor_step_refl cursor_step_trans; auto.
Qed.

Lemma keeps_waitLoop fuel start timeout :
  preserves (cursor_step allow) (ShutdownService.waitLoop fuel start timeout).
Proof.
  induction fuel as [|fuel IH]; cbn;
    preserve cursor_step_refl cursor_step_trans; auto using keeps_countActiveJobs.
Qed.

Lemma keeps_onApplicationShutdown fuel :
  preserves (cursor_step allow) (ShutdownService.onApplicationShutdown fuel).
Proof.
  unfold ShutdownService.onApplicationShutdown, ShutdownService.markSyncingAsStopped,
    ShutdownService.waitForActiveJobs, ShutdownService.closeQueues.
  preserve cursor_step_refl cursor_step_trans;
    auto using cursor_step_isSyncing, keeps_waitLoop.
Qed.

Lemma keeps_getSystemHealth : preserves (cursor_step allow) HealthMonitoringService.getSystemHealth.
Proof.
  unfold HealthMonitoringService.getSystemHealth,
    HealthMonitoringService.getSystemHealth_try,
    HealthMonitoringService.getSystemHealth_catch,
    HealthMonitoringService.checkBlockchainHealth,
    HealthMonitoringService.checkIndexingHealth,
    HealthMonitoringService.checkDatabaseHealth,
    HealthMonitoringService.shortened.
  preserve cursor_step_refl cursor_step_trans.
  all: try (apply (preserves_call_frame _ cursor_step_refl); reflexivity).
Qed.

End Cursor.

Lemma perform_cursor_step op : preserves (cursor_step (allowed op)) (perform op).
Proof.
  destruct op; cbn [perform].
  - apply keeps_startIndexing.
  - apply keeps_stopIndexing.
  - apply keeps_handleStartIndexing.
  - unfold IndexingProcessor.handleProcessBlockRange.
    preserve (cursor_step_refl (allowed (OpProcessBlockRange job)))
             (cursor_step_trans (allowed (OpProcessBlockRange job))).
    apply keeps_processBlockRange. cbn. auto.
  - unfold IndexingProcessor.handleProcessEvent.
    preserve (cursor_step_refl (allowed (OpProcessTokenEvent data)))
             (cursor_step_trans (allowed (OpProcessTokenEvent data))).
    apply keeps_processTokenEvent.
  - apply keeps_resumeIndexing.
  - apply keeps_onApplicationShutdown.
  - preserve (cursor_step_refl (allowed OpGetSystemHealth))
             (cursor_step_trans (allowed OpGetSystemHealth)).
    apply keeps_getSystemHealth.
Qed.

(** One operation: the cursor of an entity stays, unless the operation is a
    processBlockRange job of that entity, which sets it to [toBlock]. *)
Lemma cursor_after env op w a c n :
  cursor a c w = Some n ->
  exists n', cursor a c (after env op w) = Some n' /\
             (n' = n \/ allowed op a c n').
Proof.
  unfold cursor, after. intros H.
  destruct (List.find _ (indexingProgressRepository w)) as [r|] eqn:Hr; [|discriminate].
  injection H as <-.
  destruct (perform_cursor_step op env w) as (changed & extra & -> & HF).
  destruct (find_row_step _ a c _ _ extra r HF Hr) as (r' & -> & Ha & Hc & Hn).
  apply List.find_some in Hr as [_ Hk]. apply has_key_spec in Hk as [Hka Hkc].
  rewrite Hka, Hkc in Hn. cbn. eexists; split; [reflexivity|]. exact Hn.
Qed.

Lemma cursor_unchanged env op w a c n :
  (forall job, op <> OpProcessBlockRange job) ->
  cursor a c w = Some n -> cursor a c (after env op w) = Some n.
Proof.
  intros Hop H. destruct (cursor_after env op w a c n H) as (n' & Hn' & [->|Hal]); auto.
  destruct op; cbn in Hal; try contradiction. exfalso. eapply Hop; reflexivity.
Qed.

(* ===================================================================== *)
(** ** The batch split *)
(* ===================================================================== *)

Lemma numBatches_last from to bs :
  from <= to -> 1 <= bs -> to <= from + bs - 1 -> numBatches from to bs = 1%nat.
Proof.
  intros. unfold numBatches. rewrite Z.div_small by lia. reflexivity.
Qed.

Lemma numBatches_more from to bs :
  from <= to -> 1 <= bs -> from + bs - 1 < to ->
  numBatches from to bs = S (numBatches (from + bs) to bs).
Proof.
  intros. unfold numBatches.
  replace (to - from) with ((to - (from + bs)) + 1 * bs) by lia.
  rewrite Z.div_add by lia.
  assert (0 <= (to - (from + bs)) / bs) by (apply Z.div_pos; lia).
  rewrite <- Z2Nat.inj_succ by lia. reflexivity.
Qed.

Lemma subRange_shift from to bs i :
  subRange from to bs (S i) = subRange (from + bs) to bs i.
Proof. unfold subRange. f_equal; [|f_equal]; lia. Qed.

Lemma subRanges_last from to bs :
  from <= to -> 1 <= bs -> to <= from + bs - 1 -> subRanges from to bs = [(from, to)].
Proof.
  intros. unfold subRanges. rewrite numBatches_last by assumption. cbn.
  unfold subRange. cbn. f_equal. f_equal; lia.
Qed.

Lemma subRanges_more from to bs :
  from <= to -> 1 <= bs -> from + bs - 1 < to ->
  subRanges from to bs = (from, from + bs - 1) :: subRanges (from + bs) to bs.
Proof.
  intros. unfold subRanges. rewrite numBatches_more by assumption.
  cbn [seq map]. f_equal.
  - unfold subRange. cbn. f_equal; lia.
  - rewrite <- seq_shift, map_map. apply map_ext. intros i. apply subRange_shift.
Qed.

(** Induction along the split: the last batch, or one batch and the rest. *)
Lemma subRanges_ind (P : Z -> list (Z * Z) -> Prop) to bs :
  1 <= bs ->
  (forall from, from <= to -> to <= from + bs - 1 -> P from [(from, to)]) ->
  (forall from, from <= to -> from + bs - 1 < to ->
     P (from + bs) (subRanges (from + bs) to bs) ->
     P from ((from, from + bs - 1) :: subRanges (from + bs) to bs)) ->
  forall from, from <= to -> P from (subRanges from to bs).
Proof.
  intros Hbs Hlast Hmore from.
  remember (numBatches from to bs) as n eqn:Hn. revert from Hn.
  induction n as [|n IH]; intros from Hn Hle.
  - destruct (Z_le_gt_dec to (from + bs - 1)).
    + rewrite numBatches_last in Hn by lia. discriminate.
    + rewrite numBatches_more in Hn by lia. discriminate.
  - destruct (Z_le_gt_dec to (from + bs - 1)).
    + rewrite subRanges_last by lia. apply Hlast; lia.
    + rewrite subRanges_more by lia. apply Hmore; [lia | lia |].
      apply IH; [|lia]. rewrite numBatches_more in Hn by lia. congruence.
Qed.

Lemma subRanges_sizes from to bs :
  from <= to -> 1 <= bs ->
  Forall (fun r => from <= fst r /\ fst r <= snd r /\ snd r <= to /\
                   snd r - fst r + 1 <= bs) (subRanges from to bs).
Proof.
  intros Hle Hbs. revert from Hle.
  apply (subRanges_ind
           (fun from l => Forall (fun r => from <= fst r /\ fst r <= snd r /\ snd r <= to /\
                                           snd r - fst r + 1 <= bs) l)); [assumption| |].
  - intros from H1 H2. constructor; [cbn; lia | constructor].
  - intros from H1 H2 IH. constructor; [cbn; lia|].
    eapply Forall_impl; [exact IH|]. cbn. intros r Hr. lia.
Qed.

Lemma subRanges_cover from to bs b :
  from <= to -> 1 <= bs ->
  length (List.filter (in_range b) (subRanges from to bs)) =
  if (Z.leb from b && Z.leb b to)%bool then 1%nat else 0%nat.
Proof.
  intros Hle Hbs. revert from Hle.
  apply (subRanges_ind
           (fun from l => length (List.filter (in_range b) l) =
                          if (Z.leb from b && Z.leb b to)%bool then 1%nat else 0%nat));
    [assumption| |].
  - intros from H1 H2. cbn. unfold in_range. cbn.
    destruct (Z.leb from b && Z.leb b to)%bool; reflexivity.
  - intros from H1 H2 IH. cbn [List.filter]. unfold in_range at 1. cbn [fst snd].
    destruct (Z.leb_spec from b), (Z.leb_spec b (from + bs - 1)),
             (Z.leb_spec (from + bs) b), (Z.leb_spec b to);
      cbn in *; rewrite IH; try reflexivity; lia.
Qed.

Lemma subRanges_consecutive from to bs :
  from <= to -> 1 <= bs ->
  forall i r r',
    nth_error (subRanges from to bs) i = Some r ->
    nth_error (subRanges from to bs) (S i) = Some r' ->
    fst r' = snd r + 1.
Proof.
  intros Hle Hbs i r r' Hr Hr'. unfold subRanges in *.
  rewrite nth_error_map in Hr, Hr'.
  destruct (nth_error (seq 0 _) i) as [j|] eqn:Hj; [|discriminate].
  destruct (nth_error (seq 0 _) (S i)) as [j'|] eqn:Hj'; [|discriminate].
  assert (Hlt : (S i < numBatches from to bs)%nat).
  { assert (Hs : nth_error (seq 0 (numBatches from to bs)) (S i) <> None) by congruence.
    apply nth_error_Some in Hs. rewrite length_seq in Hs. exact Hs. }
  rewrite nth_error_seq in Hj, Hj'.
  destruct (Nat.ltb_spec i (numBatches from to bs)); [|lia].
  destruct (Nat.ltb_spec (S i) (numBatches from to bs)); [|lia].
  injection Hj as <-. injection Hj' as <-. injection Hr as <-. injection Hr' as <-.
  unfold subRange. cbn [fst snd Nat.add].
  (* batch i is not the last one, so its upper bound is not cut by [to] *)
  assert (Hfull : from + (Z.of_nat i + 1) * bs - 1 < to).
  { unfold numBatches in Hlt.
    assert (Z.of_nat i + 1 <= (to - from) / bs).
    { assert (0 <= (to - from) / bs) by (apply Z.div_pos; lia). lia. }
    assert (bs * ((to - from) / bs) <= to - from) by (apply Z.mul_div_le; lia).
    nia. }
  rewrite Z.min_l by lia. lia.
Qed.

Lemma processInBatches_done fuel a c evs cur bs from env w :
  cur < from ->
  IndexingProcessor.processInBatches fuel a c evs cur bs from env w = (Returned true, w).
Proof.
  intros H. destruct fuel; cbn; destruct (Z.leb_spec from cur); try lia; reflexivity.
Qed.

Lemma processInBatches_round fuel a c evs cur bs from env w :
  from <= cur ->
  reliable env ->
  IndexingProcessor.is_syncing
    (List.find (IndexingProgress.has_key (toLowerCase a) c)
       (indexingProgressRepository w)) = true ->
  IndexingProcessor.processInBatches (S fuel) a c evs cur bs from env w =
  IndexingProcessor.processInBatches fuel a c evs cur bs
    (Z.min (from + bs - 1) cur + 1) env
    (submit a c evs w (from, Z.min (from + bs - 1) cur)).
Proof.
  intros Hle Hrel Hsync. cbn [IndexingProcessor.processInBatches].
  destruct (Z.leb_spec from cur); [|lia]. cbn [negb].
  unfold bind at 1. unfold IndexingService.getIndexingStatus, ProgressRepository.findOne.
  rewrite run_call by apply Hrel. cbn [fst snd]. rewrite Hsync. cbn [negb].
  unfold bind at 1. unfold BullQueue.add. rewrite run_call by apply Hrel. reflexivity.
Qed.

Lemma processInBatches_runs env a c evs to bs :
  1 <= bs -> reliable env ->
  forall from, from <= to ->
  forall fuel w,
    (numBatches from to bs <= fuel)%nat ->
    IndexingProcessor.is_syncing
      (List.find (IndexingProgress.has_key (toLowerCase a) c)
         (indexingProgressRepository w)) = true ->
    IndexingProcessor.processInBatches fuel a c evs to bs from env w =
    (Returned true, fold_left (submit a c evs) (subRanges from to bs) w).
Proof.
  intros Hbs Hrel from Hle.
  remember (numBatches from to bs) as n eqn:Hn. revert from Hn Hle.
  induction n as [|n IH]; intros from Hn Hle fuel w Hfuel Hsync.
  - destruct (Z_le_gt_dec to (from + bs - 1)).
    + rewrite numBatches_last in Hn by lia. discriminate.
    + rewrite numBatches_more in Hn by lia. discriminate.
  - destruct fuel as [|fuel]; [lia|].
    rewrite processInBatches_round by assumption.
    destruct (Z_le_gt_dec to (from + bs - 1)).
    + rewrite subRanges_last by lia. rewrite Z.min_r by lia.
      rewrite processInBatches_done by lia. reflexivity.
    + rewrite subRanges_more by lia. rewrite Z.min_l by lia.
      rewrite numBatches_more in Hn by lia.
      replace (from + bs - 1 + 1) with (from + bs) by lia.
      rewrite (IH (from + bs)); [reflexivity | congruence | lia | lia | exact Hsync].
Qed.

Lemma submit_all_queue a c evs ranges w :
  map Job.data (Queue.waiting (blockProcessingQueue (fold_left (submit a c evs) ranges w))) =
  map Job.data (Queue.waiting (blockProcessingQueue w)) ++
  map (fun r => ProcessBlockRange (IndexingJob.mk a c (fst r) (snd r) evs)) ranges.
Proof.
  revert w. induction ranges as [|r ranges IH]; intros w; cbn [fold_left map].
  - symmetry. apply app_nil_r.
  - rewrite IH. cbn. rewrite map_app, <- app_assoc. reflexivity.
Qed.

Lemma submit_all_frame a c evs ranges w :
  let w' := fold_left (submit a c evs) ranges w in
  indexingProgressRepository w' = indexingProgressRepository w /\
  tokenTransferRepository w' = tokenTransferRepository w /\
  failedEventRepository w' = failedEventRepository w /\
  indexingQueue w' = indexingQueue w /\
  eventProcessingQueue w' = eventProcessingQueue w /\
  logs w' = logs w /\ now w' = now w /\
  tick w' = (tick w + 2 * length ranges)%nat.
Proof.
  revert w. induction ranges as [|r ranges IH]; intros w; cbn [fold_left length].
  - cbn. repeat split; auto; lia.
  - destruct (IH (submit a c evs w r)) as (H1 & H2 & H3 & H4 & H5 & H6 & H7 & H8).
    cbn zeta. rewrite H1, H2, H3, H4, H5, H6, H7, H8. cbn. repeat split; auto; lia.
Qed.

(* ===================================================================== *)
(** ** Running the services step by step *)
(* ===================================================================== *)

Lemma quiet_tick env w n c k :
  quiet env w n -> (tick w <= k < tick w + n)%nat -> faults env c k = false.
Proof.
  intros H Hk. replace k with (tick w + (k - tick w))%nat by lia. apply H. lia.
Qed.

(** Rewrite the faults that a [quiet] hypothesis rules out. *)
Ltac quiet_rewrite H :=
  repeat match goal with
  | |- context [faults ?e ?c ?k] =>
      rewrite (quiet_tick _ _ _ c k H) by (cbn; lia)
  end.

(** Case analysis on every remaining fault. *)
Ltac case_faults :=
  repeat (match goal with
          | |- context [faults ?e ?c ?k] => destruct (faults e c k) eqn:?
          end; cbn).

Ltac unfold_monad :=
  unfold try_catch, bind, call, logger, modify, ret, throw, ask, get, newDate in *.

Lemma find_none_filter {A} (p : A -> bool) (l : list A) :
  List.find p l = None -> List.filter p l = [].
Proof.
  induction l as [|x l IH]; cbn; [reflexivity|].
  destruct (p x); [discriminate | exact IH].
Qed.

Lemma find_app_fresh {A} (p : A -> bool) (l : list A) (x : A) :
  List.find p l = None -> List.find p (l ++ [x]) = if p x then Some x else None.
Proof.
  induction l as [|y l IH]; cbn; [reflexivity|].
  destruct (p y); [discriminate | exact IH].
Qed.

Lemma transfer_has_key_refl h i bn bh a f t v c pa :
  TokenTransfer.has_key h i (TokenTransfer.mk h i bn bh a f t v c pa) = true.
Proof.
  unfold TokenTransfer.has_key. cbn. rewrite String.eqb_refl, Z.eqb_refl. reflexivity.
Qed.

(** *** processTokenEvent *)

(** An event whose key is already materialized is skipped. *)
Lemma processTokenEvent_existing env w data t :
  List.find (TokenTransfer.has_key
               (TokenEvent.transactionHash (ProcessEventJob.event data))
               (TokenEvent.logIndex (ProcessEventJob.event data)))
    (tokenTransferRepository w) = Some t ->
  faults env TransferStore (tick w) = false ->
  IndexingService.processTokenEvent data env w =
  (Returned tt,
   with_logs (fun ls => ls ++
     [(DEBUG, MsgEventAlreadyProcessed
                (TokenEvent.transactionHash (ProcessEventJob.event data))
                (TokenEvent.logIndex (ProcessEventJob.event data)))])
     (with_tick S w)).
Proof.
  intros Hfind Hq.
  unfold IndexingService.processTokenEvent, TransferRepository.findOne.
  unfold_monad. cbn. rewrite Hq, Hfind. reflexivity.
Qed.

Lemma transfer_of_has_key event a c t r :
  transfer_of event a c t = Some r ->
  TokenTransfer.has_key (TokenEvent.transactionHash event) (TokenEvent.logIndex event) r
  = true.
Proof.
  unfold transfer_of.
  destruct (TokenEvent.args event) as [|[f| | |] [|[t'| | |] [|[v|n|b|] rest]]];
    try discriminate; intros [= <-]; apply transfer_has_key_refl.
Qed.

(** A fresh, well-formed Transfer event is materialized and counted. *)
Lemma processTokenEvent_fresh_transfer env w data r :
  TokenEvent.eventName (ProcessEventJob.event data) = "Transfer" ->
  transfer_of (ProcessEventJob.event data) (ProcessEventJob.contractAddress data)
    (ProcessEventJob.chainId data) (now w) = Some r ->
  List.find (TokenTransfer.has_key
               (TokenEvent.transactionHash (ProcessEventJob.event data))
               (TokenEvent.logIndex (ProcessEventJob.event data)))
    (tokenTransferRepository w) = None ->
  quiet env w 3 ->
  let run := IndexingService.processTokenEvent data env w in
  fst run = Returned tt /\
  tokenTransferRepository (snd run) = tokenTransferRepository w ++ [r] /\
  indexingProgressRepository (snd run) =
    map (fun p => if IndexingProgress.has_key (ProcessEventJob.contractAddress data)
                       (ProcessEventJob.chainId data) p
                  then IndexingProgress.increment_totalEventsProcessed 1 (now w) p
                  else p) (indexingProgressRepository w) /\
  failedEventRepository (snd run) = failedEventRepository w /\
  tick (snd run) = (tick w + 3)%nat /\ now (snd run) = now w.
Proof.
  intros Hname Hr Hfresh Hq. unfold transfer_of in Hr.
  unfold IndexingService.processTokenEvent, IndexingService.processTransferEvent,
    IndexingService.storeFailedEvent, TransferRepository.findOne, TransferRepository.save,
    ProgressRepository.update, FailedEventRepository.save, js_toLowerCase, js_toString.
  unfold_monad. cbn. quiet_rewrite Hq. rewrite Hfresh, Hname. cbn.
  destruct (TokenEvent.args (ProcessEventJob.event data))
    as [|[f| | |] [|[t'| | |] [|[v|n|b|] rest]]]; try discriminate;
    injection Hr as <-; cbn; quiet_rewrite Hq; cbn;
    repeat split; try reflexivity; lia.
Qed.

(** *** processBlockRange *)

Lemma addBulk_waiting (datas : list JobData) (name : string) (attempts backoff : option Z)
    (q : Queue.t) :
  let q' := Queue.addBulk
              (map (fun d => (name, d, JobOpts.mk None None attempts backoff)) datas) q in
  map Job.data (Queue.waiting q') = map Job.data (Queue.waiting q) ++ datas /\
  Queue.delayed q' = Queue.delayed q /\ Queue.closed q' = Queue.closed q.
Proof.
  revert q. induction datas as [|d datas IH]; intros q; cbn.
  - rewrite app_nil_r. auto.
  - destruct (IH (Queue.add name d (JobOpts.mk None None attempts backoff) q))
      as (H1 & H2 & H3).
    cbn in H1, H2, H3. rewrite H1, H2, H3. cbn.
    rewrite map_app, <- app_assoc. auto.
Qed.

(** With the ledger, the queue and the store answering, processBlockRange
    puts one process-event job per fetched event on the event queue and
    then sets the cursor; nothing is materialized or recorded as failed. *)
Lemma processBlockRange_runs env w job :
  quiet env w 3 ->
  let evs := tokenEvents env (IndexingJob.contractAddress job) (IndexingJob.events job)
               (IndexingJob.fromBlock job) (IndexingJob.toBlock job) in
  let run := IndexingService.processBlockRange job env w in
  fst run = Returned tt /\
  indexingProgressRepository (snd run) =
    map (fun p => if IndexingProgress.has_key (IndexingJob.contractAddress job)
                       (IndexingJob.chainId job) p
                  then IndexingProgress.set_lastProcessedBlock (IndexingJob.toBlock job)
                         (now w) p
                  else p) (indexingProgressRepository w) /\
  map Job.data (Queue.waiting (eventProcessingQueue (snd run))) =
    map Job.data (Queue.waiting (eventProcessingQueue w)) ++
    map (fun e => ProcessEvent (ProcessEventJob.mk e (IndexingJob.contractAddress job)
                                  (IndexingJob.chainId job))) evs /\
  tokenTransferRepository (snd run) = tokenTransferRepository w /\
  failedEventRepository (snd run) = failedEventRepository w.
Proof.
  intros Hq evs.
  unfold IndexingService.processBlockRange, BlockchainService.getTokenEvents,
    BullQueue.addBulk, ProgressRepository.update.
  unfold_monad. cbn. quiet_rewrite Hq. cbn. fold evs.
  destruct evs as [|e evs'] eqn:Hevs; cbn; quiet_rewrite Hq; cbn.
  - rewrite app_nil_r. repeat split; reflexivity.
  - repeat split; try reflexivity.
    pose proof (addBulk_waiting
      (map (fun e => ProcessEvent (ProcessEventJob.mk e (IndexingJob.contractAddress job)
                                     (IndexingJob.chainId job))) evs')
      "process-event" (Some 3) (Some 2000)
      (Queue.add "process-event"
         (ProcessEvent (ProcessEventJob.mk e (IndexingJob.contractAddress job)
                          (IndexingJob.chainId job)))
         (JobOpts.mk None None (Some 3) (Some 2000)) (eventProcessingQueue w)))
      as (H1 & _).
    rewrite map_map in H1. cbn in H1. rewrite map_map. rewrite H1.
    cbn. rewrite map_app, <- app_assoc. reflexivity.
Qed.

(** When processBlockRange throws, it has not written the progress table. *)
Lemma processBlockRange_throws env w job e :
  fst (IndexingService.processBlockRange job env w) = Thrown e ->
  indexingProgressRepository (snd (IndexingService.processBlockRange job env w)) =
  indexingProgressRepository w.
Proof.
  unfold IndexingService.processBlockRange, BlockchainService.getTokenEvents,
    BullQueue.addBulk, ProgressRepository.update.
  unfold_monad. cbn.
  destruct (faults env Ledger (tick w)); cbn; [reflexivity|].
  destruct (tokenEvents env _ _ _ _) as [|ev evs]; cbn.
  - destruct (faults env ProgressStore _); cbn; [reflexivity | discriminate].
  - destruct (faults env (WorkQueue EVENT_PROCESSING_QUEUE) _); cbn; [reflexivity|].
    destruct (faults env ProgressStore _); cbn; [reflexivity | discriminate].
Qed.

(** processBlockRange either returns, having written [toBlock] on the rows
    of its entity, or throws, having written no row. *)
Lemma processBlockRange_cases env w job :
  let run := IndexingService.processBlockRange job env w in
  (fst run = Returned tt /\
   indexingProgressRepository (snd run) =
     map (fun p => if IndexingProgress.has_key (IndexingJob.contractAddress job)
                        (IndexingJob.chainId job) p
                   then IndexingProgress.set_lastProcessedBlock (IndexingJob.toBlock job)
                          (now w) p
                   else p) (indexingProgressRepository w)) \/
  ((exists e, fst run = Thrown e) /\
   indexingProgressRepository (snd run) = indexingProgressRepository w).
Proof.
  unfold IndexingService.processBlockRange, BlockchainService.getTokenEvents,
    BullQueue.addBulk, ProgressRepository.update.
  unfold_monad. cbn.
  destruct (faults env Ledger (tick w)); cbn; [right; eauto|].
  destruct (tokenEvents env _ _ _ _) as [|ev evs]; cbn.
  - destruct (faults env ProgressStore _); cbn; [right; eauto | left; auto].
  - destruct (faults env (WorkQueue EVENT_PROCESSING_QUEUE) _); cbn; [right; eauto|].
    destruct (faults env ProgressStore _); cbn; [right; eauto | left; auto].
Qed.

(** The job handler of the block-processing queue logs and rethrows. *)
Lemma handleProcessBlockRange_cases env w job :
  let run := IndexingProcessor.handleProcessBlockRange job env w in
  (fst run = Returned tt /\
   indexingProgressRepository (snd run) =
     map (fun p => if IndexingProgress.has_key (IndexingJob.contractAddress job)
                        (IndexingJob.chainId job) p
                   then IndexingProgress.set_lastProcessedBlock (IndexingJob.toBlock job)
                          (now w) p
                   else p) (indexingProgressRepository w)) \/
  ((exists e, fst run = Thrown e) /\
   indexingProgressRepository (snd run) = indexingProgressRepository w).
Proof.
  unfold IndexingProcessor.handleProcessBlockRange, try_catch.
  destruct (processBlockRange_cases env w job) as [[Hr Hp]|[[e He] Hp]];
    destruct (IndexingService.processBlockRange job env w) as [o w1]; cbn in *; subst o.
  - left. auto.
  - right. unfold bind, logger, modify, throw. cbn. eauto.
Qed.

Lemma cursor_written a c t time rows n :
  option_map IndexingProgress.lastProcessedBlock
    (List.find (IndexingProgress.has_key a c) rows) = Some n ->
  option_map IndexingProgress.lastProcessedBlock
    (List.find (IndexingProgress.has_key a c)
       (map (fun p => if IndexingProgress.has_key a c p
                      then IndexingProgress.set_lastProcessedBlock t time p else p) rows))
  = Some t.
Proof.
  induction rows as [|r rows IH]; cbn; [discriminate|].
  destruct (IndexingProgress.has_key a c r) eqn:Hk; cbn.
  - intros _. unfold IndexingProgress.has_key in *. cbn. rewrite Hk. reflexivity.
  - rewrite Hk. exact IH.
Qed.

Lemma ascending_from_le n m l : n <= m -> ascending_from m l = true -> ascending_from n l = true.
Proof.
  destruct l as [|x l]; cbn; [reflexivity|]. intros Hle H.
  apply andb_true_iff in H as [H1 H2]. apply Z.leb_le in H1.
  apply andb_true_iff. split; [apply Z.leb_le; lia | exact H2].
Qed.

Lemma cursor_ascending ops : forall w a c n,
  cursor a c w = Some n ->
  ascending_from n (toBlocks_of a c ops) = true ->
  exists n', cursor a c (after_all ops w) = Some n' /\ n <= n'.
Proof.
  induction ops as [|[env op] ops IH]; intros w a c n Hcur Hasc.
  - exists n. split; [exact Hcur | lia].
  - cbn [after_all].
    destruct (cursor_after env op w a c n Hcur) as (n1 & Hn1 & Hstep).
    assert (Hnext : n <= n1 /\ ascending_from n1 (toBlocks_of a c ops) = true).
    { destruct op; cbn in Hstep, Hasc;
        try (destruct Hstep as [->|[]]; split; [lia | exact Hasc]).
      destruct (String.eqb (IndexingJob.contractAddress job) a
                && Z.eqb (IndexingJob.chainId job) c)%bool eqn:Hk.
      - cbn in Hasc. apply andb_true_iff in Hasc as [Hle Hrest]. apply Z.leb_le in Hle.
        destruct Hstep as [->|(_ & _ & ->)]; split; try lia; try exact Hrest.
        eapply ascending_from_le; [exact Hle | exact Hrest].
      - destruct Hstep as [->|(-> & -> & _)]; [split; [lia | exact Hasc]|].
        rewrite String.eqb_refl, Z.eqb_refl in Hk. discriminate. }
    destruct Hnext as [Hle Hasc'].
    destruct (IH (after env op w) a c n1 Hn1 Hasc') as (n' & Hn' & Hle').
    exists n'. split; [exact Hn' | lia].
Qed.

(** *** handleStartIndexing *)

(** A run that finds the entity caught up clears the flag and parks one
    start-indexing job for 30000 ms; it submits no sub-range. *)
Lemma handleStartIndexing_caught_up env w fuel a c evs p :
  List.find (IndexingProgress.has_key (toLowerCase a) c) (indexingProgressRepository w)
    = Some p ->
  IndexingProgress.isSyncing p = true ->
  IndexingProgress.lastProcessedBlock p >= currentBlockNumber env - 1 ->
  quiet env w 4 ->
  let run := IndexingProcessor.handleStartIndexing fuel a c evs env w in
  fst run = Returned tt /\
  indexingProgressRepository (snd run) =
    map (fun r => if IndexingProgress.has_key (toLowerCase a) c r
                  then IndexingProgress.set_isSyncing false (now w) r else r)
      (indexingProgressRepository w) /\
  blockProcessingQueue (snd run) = blockProcessingQueue w /\
  eventProcessingQueue (snd run) = eventProcessingQueue w /\
  indexingQueue (snd run) =
    Queue.add "start-indexing" (StartIndexing a c evs)
      (JobOpts.mk None (Some 30000) (Some 1) None) (indexingQueue w).
Proof.
  intros Hfind Hsync Hcaught Hq.
  unfold IndexingProcessor.handleStartIndexing, IndexingProcessor.scheduleNextIndexing,
    IndexingService.getIndexingStatus, IndexingService.updateSyncingStatus,
    ProgressRepository.findOne, ProgressRepository.update,
    BlockchainService.getCurrentBlockNumber, BullQueue.add.
  unfold_monad. cbn. quiet_rewrite Hq. rewrite Hfind. cbn. rewrite Hsync. cbn.
  quiet_rewrite Hq. cbn. rewrite Z.geb_leb.
  destruct (Z.leb_spec (currentBlockNumber env - 1) (IndexingProgress.lastProcessedBlock p));
    [|lia].
  cbn. quiet_rewrite Hq. cbn. repeat split; reflexivity.
Qed.

(** A run that finds blocks to process submits the sub-ranges and, still
    syncing at the end, parks one start-indexing job for 60000 ms. *)
Lemma handleStartIndexing_catching_up env w fuel a c evs p :
  List.find (IndexingProgress.has_key (toLowerCase a) c) (indexingProgressRepository w)
    = Some p ->
  IndexingProgress.isSyncing p = true ->
  IndexingProgress.lastProcessedBlock p < currentBlockNumber env - 1 ->
  reliable env ->
  1 <= batchSize env ->
  (numBatches (IndexingProgress.lastProcessedBlock p + 1) (currentBlockNumber env)
     (batchSize env) <= fuel)%nat ->
  let run := IndexingProcessor.handleStartIndexing fuel a c evs env w in
  fst run = Returned tt /\
  indexingProgressRepository (snd run) = indexingProgressRepository w /\
  map Job.data (Queue.waiting (blockProcessingQueue (snd run))) =
    map Job.data (Queue.waiting (blockProcessingQueue w)) ++
    map (fun r => ProcessBlockRange (IndexingJob.mk a c (fst r) (snd r) evs))
      (subRanges (IndexingProgress.lastProcessedBlock p + 1) (currentBlockNumber env)
         (batchSize env)) /\
  indexingQueue (snd run) =
    Queue.add "start-indexing" (StartIndexing a c evs)
      (JobOpts.mk None (Some 60000) (Some 1) None) (indexingQueue w).
Proof.
  intros Hfind Hsync Hbehind Hrel Hbs Hfuel.
  assert (Hs : forall w', indexingProgressRepository w' = indexingProgressRepository w ->
             IndexingProcessor.is_syncing
               (List.find (IndexingProgress.has_key (toLowerCase a) c)
                  (indexingProgressRepository w')) = true).
  { intros w' ->. rewrite Hfind. exact Hsync. }
  unfold IndexingProcessor.handleStartIndexing, IndexingProcessor.scheduleNextIndexing,
    IndexingService.getIndexingStatus, IndexingService.updateSyncingStatus,
    ProgressRepository.findOne, ProgressRepository.update,
    BlockchainService.getCurrentBlockNumber, BullQueue.add.
  unfold_monad. cbn. rewrite !Hrel. rewrite Hfind. cbn. rewrite Hsync. cbn.
  rewrite !Hrel. cbn. rewrite Z.geb_leb.
  destruct (Z.leb_spec (currentBlockNumber env - 1) (IndexingProgress.lastProcessedBlock p));
    [lia|].
  cbn.
  rewrite processInBatches_runs; [| lia | exact Hrel | lia | exact Hfuel | apply Hs; reflexivity].
  cbn.
  match goal with
  | |- context [fold_left (submit a c evs) ?rs ?w0] =>
      destruct (submit_all_frame a c evs rs w0) as (F1 & F2 & F3 & F4 & F5 & F6 & F7 & F8);
      pose proof (submit_all_queue a c evs rs w0) as FQ;
      cbn in F1, F4, FQ
  end.
  rewrite !Hrel. cbn. rewrite F1, Hfind. cbn. rewrite Hsync. rewrite !Hrel. cbn.
  rewrite F1, F4, FQ. repeat split; reflexivity.
Qed.

(** *** stopIndexing and the cancellation of pending jobs *)

Lemma bind_run {A B} (m : M A) (k : A -> M B) env w a w' :
  m env w = (Returned a, w') -> bind m k env w = k a env w'.
Proof. intros H. unfold bind. rewrite H. reflexivity. Qed.

Lemma try_catch_run {A} (body : M A) (handler : Error -> M A) env w a w' :
  body env w = (Returned a, w') -> try_catch body handler env w = (Returned a, w').
Proof. intros H. unfold try_catch. rewrite H. reflexivity. Qed.

Lemma removeContractJobs_returns a c : returns (IndexingService.removeContractJobs a c).
Proof.
  unfold IndexingService.removeContractJobs.
  apply returns_try_catch.
  - apply halts_forEach. intros [name q]. cbn [fst snd].
    unfold BullQueue.getWaiting, BullQueue.getDelayed.
    apply halts_bind; [apply halts_call|]. intros ws.
    apply halts_bind; [apply halts_call|]. intros ds.
    apply halts_forEach. intros job.
    destruct (IndexingService.job_of a c job); [|apply halts_ret].
    apply halts_bind; [apply halts_call | intros; apply halts_modify].
  - intros e. apply returns_modify.
Qed.

Lemma unchanged_refl rows : unchanged rows rows.
Proof. reflexivity. Qed.

Lemma unchanged_trans a b c : unchanged a b -> unchanged b c -> unchanged a c.
Proof. unfold unchanged. congruence. Qed.

Lemma removeContractJobs_progress a c :
  preserves unchanged (IndexingService.removeContractJobs a c).
Proof.
  unfold IndexingService.removeContractJobs. preserve unchanged_refl unchanged_trans.
Qed.

(** A failure of the first queue call is caught and logged. *)
Lemma removeContractJobs_first_fault a c env w :
  faults env (WorkQueue INDEXING_QUEUE) (tick w) = true ->
  last (logs (snd (IndexingService.removeContractJobs a c env w))) =
    Some (ERROR, MsgFailedToRemoveJobs a
                   (CollaboratorError (WorkQueue INDEXING_QUEUE) (tick w))).
Proof.
  intros Hf. unfold IndexingService.removeContractJobs, IndexingService.queues.
  cbn [forEach fst snd]. unfold BullQueue.getWaiting. unfold_monad. cbn. rewrite Hf. cbn.
  apply last_snoc.
Qed.

Lemma stopIndexing_not_found env w a chainId :
  let c := match chainId with Some c => c | None => 137 end in
  List.find (IndexingProgress.has_key (toLowerCase a) c) (indexingProgressRepository w)
    = None ->
  faults env ProgressStore (tick w) = false ->
  let run := IndexingService.stopIndexing a chainId env w in
  fst run = Thrown (NoIndexingProgress a) /\
  indexingProgressRepository (snd run) = indexingProgressRepository w /\
  tokenTransferRepository (snd run) = tokenTransferRepository w /\
  failedEventRepository (snd run) = failedEventRepository w /\
  (forall q, queue q (snd run) = queue q w).
Proof.
  intros c Hfind Hq.
  unfold IndexingService.stopIndexing, ProgressRepository.findOne.
  unfold_monad. cbn. rewrite Hq. fold c. rewrite Hfind. cbn.
  repeat split; reflexivity.
Qed.

Lemma stopIndexing_found env w a chainId p :
  let c := match chainId with Some c => c | None => 137 end in
  List.find (IndexingProgress.has_key (toLowerCase a) c) (indexingProgressRepository w)
    = Some p ->
  faults env ProgressStore (tick w) = false ->
  faults env ProgressStore (S (tick w)) = false ->
  exists w',
    IndexingService.stopIndexing a chainId env w = (Returned tt, w') /\
    indexingProgressRepository w' =
      map (fun r => if IndexingProgress.has_key (toLowerCase a) c r
                    then IndexingProgress.set_isSyncing false (now w) r else r)
        (indexingProgressRepository w).
Proof.
  intros c Hfind Hq1 Hq2.
  unfold IndexingService.stopIndexing, ProgressRepository.findOne, ProgressRepository.update.
  fold c. remember (IndexingService.removeContractJobs a c) as rm eqn:Hrm.
  unfold_monad. cbn. rewrite Hq1, Hfind. cbn. rewrite Hq2. cbn.
  match goal with
  | |- context [rm env ?w0] =>
      pose proof (removeContractJobs_returns a c env w0) as [[] Hret];
      pose proof (removeContractJobs_progress a c env w0) as Hsame;
      rewrite <- Hrm in Hret, Hsame;
      destruct (rm env w0) as [o w3]
  end.
  cbn in Hret, Hsame. subst o. unfold unchanged in Hsame.
  eexists. split; [reflexivity|]. cbn. exact Hsame.
Qed.

Lemma queue_with_queue q f w : queue q (with_queue q f w) = f (queue q w).
Proof. destruct q; reflexivity. Qed.

Lemma queue_with_queue_other q q' f w : q' <> q -> queue q' (with_queue q f w) = queue q' w.
Proof. destruct q, q'; intros H; try reflexivity; congruence. Qed.

Lemma queue_with_logs q f w : queue q (with_logs f w) = queue q w.
Proof. destruct q; reflexivity. Qed.

Lemma queue_with_tick q f w : queue q (with_tick f w) = queue q w.
Proof. destruct q; reflexivity. Qed.

Lemma cancel_jobs_run a c name q env :
  reliable env ->
  forall jobs w,
  exists w',
    forEach (fun job =>
               if IndexingService.job_of a c job
               then BullQueue.remove q job ;;;
                    logger DEBUG (MsgRemovedJob name (Job.id job) a)
               else ret tt) jobs env w = (Returned tt, w') /\
    queue q w' = remove_matching a c jobs (queue q w) /\
    (forall q', q' <> q -> queue q' w' = queue q' w).
Proof.
  intros Hrel. induction jobs as [|j jobs IH]; intros w; cbn [forEach].
  - exists w. repeat split; reflexivity.
  - unfold remove_matching. cbn [fold_left].
    destruct (IndexingService.job_of a c j).
    + unfold bind at 1. unfold bind at 1. unfold BullQueue.remove.
      rewrite run_call by apply Hrel. cbn [fst snd]. unfold logger, modify.
      match goal with |- context [forEach _ jobs env ?w0] =>
        destruct (IH w0) as (w' & Hrun & Hq & Hother) end.
      exists w'. split; [exact Hrun|]. split.
      * rewrite Hq, queue_with_logs, queue_with_tick, queue_with_queue. reflexivity.
      * intros q' Hne.
        rewrite (Hother q' Hne), queue_with_logs, queue_with_tick,
          queue_with_queue_other by assumption.
        reflexivity.
    + unfold bind at 1. cbn. apply IH.
Qed.

Lemma remove_matching_lists a c jobs q :
  let keep := fun j =>
    negb (existsb (fun j' => IndexingService.job_of a c j' &&
                             Nat.eqb (Job.id j') (Job.id j))%bool jobs) in
  Queue.waiting (remove_matching a c jobs q) = List.filter keep (Queue.waiting q) /\
  Queue.delayed (remove_matching a c jobs q) = List.filter keep (Queue.delayed q).
Proof.
  revert q. induction jobs as [|j0 jobs IH]; intros q; cbn zeta.
  - cbn. split; symmetry; apply forallb_filter_id; apply forallb_forall; reflexivity.
  - assert (Hfilter : forall (f g h : Job.t -> bool) (l : list Job.t),
               (forall x, h x = (g x && f x)%bool) ->
               List.filter f (List.filter g l) = List.filter h l).
    { intros f g h l Hh. induction l as [|x l IHl]; cbn; [reflexivity|].
      rewrite (Hh x). destruct (g x); cbn; [destruct (f x)|]; rewrite IHl; reflexivity. }
    unfold remove_matching. cbn [fold_left existsb].
    destruct (IndexingService.job_of a c j0) eqn:Hj0.
    + destruct (IH (Queue.remove (Job.id j0) q)) as [Hw Hd].
      unfold remove_matching in Hw, Hd. rewrite Hw, Hd.
      cbn [Queue.waiting Queue.delayed Queue.remove].
      split; apply Hfilter; intros x; rewrite (Nat.eqb_sym (Job.id j0) (Job.id x));
        destruct (Nat.eqb (Job.id x) (Job.id j0)); cbn; try reflexivity;
        destruct (existsb _ jobs); reflexivity.
    + cbn [andb orb]. apply IH.
Qed.

(** After the inner loop has gone over all pending jobs of a queue, none of
    the entity is left, and nothing was added. *)
Lemma remove_matching_pending a c q :
  let q' := remove_matching a c (pending q) q in
  (forall j, In j (pending q') -> IndexingService.job_of a c j = false) /\
  incl (pending q') (pending q).
Proof.
  cbn zeta. destruct (remove_matching_lists a c (pending q) q) as [Hw Hd].
  cbn zeta in Hw, Hd. unfold pending at 1 3. rewrite Hw, Hd. split.
  - intros j Hj.
    assert (Hin : In j (pending q) /\
                  negb (existsb (fun j' => IndexingService.job_of a c j' &&
                                           Nat.eqb (Job.id j') (Job.id j))%bool
                          (pending q)) = true).
    { unfold pending at 1. apply in_app_or in Hj as [Hj|Hj];
        apply List.filter_In in Hj as [Hj Hk]; split; auto; apply in_or_app; auto. }
    destruct Hin as [Hin Hkeep].
    destruct (IndexingService.job_of a c j) eqn:Hjob; [exfalso|reflexivity].
    apply negb_true_iff in Hkeep.
    assert (Hex : existsb (fun j' => IndexingService.job_of a c j' &&
                                     Nat.eqb (Job.id j') (Job.id j))%bool (pending q) = true).
    { apply existsb_exists. exists j. split; [exact Hin|].
      rewrite Hjob, Nat.eqb_refl. reflexivity. }
    congruence.
  - intros j Hj. unfold pending.
    apply in_app_or in Hj as [Hj|Hj]; apply List.filter_In in Hj as [Hj _];
      apply in_or_app; auto.
Qed.

(** One queue of removeContractJobs, with every call answered. *)
Lemma cancel_queue_run a c name q env w :
  reliable env ->
  exists w',
    (waitingJobs <- BullQueue.getWaiting q ;;
     delayedJobs <- BullQueue.getDelayed q ;;
     forEach (fun job =>
                if IndexingService.job_of a c job
                then BullQueue.remove q job ;;;
                     logger DEBUG (MsgRemovedJob name (Job.id job) a)
                else ret tt) (waitingJobs ++ delayedJobs)) env w = (Returned tt, w') /\
    queue q w' = remove_matching a c (pending (queue q w)) (queue q w) /\
    (forall q', q' <> q -> queue q' w' = queue q' w).
Proof.
  intros Hrel. unfold BullQueue.getWaiting, BullQueue.getDelayed.
  unfold bind at 1. rewrite run_call by apply Hrel. cbn [fst snd].
  unfold bind at 1. rewrite run_call by apply Hrel. cbn [fst snd].
  match goal with |- context [forEach _ ?jobs env ?w0] =>
    destruct (cancel_jobs_run a c name q env Hrel jobs w0) as (w' & Hrun & Hq & Hother) end.
  exists w'. split; [exact Hrun|]. split.
  - rewrite Hq, !queue_with_tick. reflexivity.
  - intros q' Hne. rewrite (Hother q' Hne), !queue_with_tick. reflexivity.
Qed.

(** With every call answered, removeContractJobs leaves no pending job of
    the entity in any queue, and adds none. *)
Lemma removeContractJobs_cancels a c env w :
  reliable env ->
  exists w',
    IndexingService.removeContractJobs a c env w = (Returned tt, w') /\
    forall q,
      (forall j, In j (pending (queue q w')) -> IndexingService.job_of a c j = false) /\
      incl (pending (queue q w')) (pending (queue q w)).
Proof.
  intros Hrel. unfold IndexingService.removeContractJobs, IndexingService.queues.
  cbn [forEach fst snd].
  destruct (cancel_queue_run a c "indexing" INDEXING_QUEUE env w Hrel)
    as (w1 & R1 & Q1 & O1).
  destruct (cancel_queue_run a c "block-processing" BLOCK_PROCESSING_QUEUE env w1 Hrel)
    as (w2 & R2 & Q2 & O2).
  destruct (cancel_queue_run a c "event-processing" EVENT_PROCESSING_QUEUE env w2 Hrel)
    as (w3 & R3 & Q3 & O3).
  exists w3. split.
  - apply try_catch_run.
    rewrite (bind_run _ _ env w tt w1 R1), (bind_run _ _ env w1 tt w2 R2),
      (bind_run _ _ env w2 tt w3 R3). reflexivity.
  - intros q. destruct q.
    + rewrite (O3 INDEXING_QUEUE), (O2 INDEXING_QUEUE), Q1 by discriminate.
      apply remove_matching_pending.
    + rewrite (O3 BLOCK_PROCESSING_QUEUE), Q2, (O1 BLOCK_PROCESSING_QUEUE) by discriminate.
      apply remove_matching_pending.
    + rewrite Q3, (O2 EVENT_PROCESSING_QUEUE), (O1 EVENT_PROCESSING_QUEUE) by discriminate.
      apply remove_matching_pending.
Qed.

Lemma NoDup_map_inj_in {A B} (f : A -> B) (l : list A) x y :
  List.NoDup (map f l) -> In x l -> In y l -> f x = f y -> x = y.
Proof.
  induction l as [|z l IH]; cbn; [contradiction|].
  intros Hnd Hx Hy Hf. apply List.NoDup_cons_iff in Hnd as [Hnotin Hnd].
  destruct Hx as [->|Hx], Hy as [->|Hy]; auto.
  - exfalso. apply Hnotin. rewrite Hf. apply in_map. exact Hy.
  - exfalso. apply Hnotin. rewrite <- Hf. apply in_map. exact Hx.
Qed.

Lemma filter_ext_In {A} (f g : A -> bool) (l : list A) :
  (forall x, In x l -> f x = g x) -> List.filter f l = List.filter g l.
Proof.
  induction l as [|x l IH]; cbn; intros H; [reflexivity|].
  rewrite (H x (or_introl eq_refl)), IH by (intros; apply H; auto). reflexivity.
Qed.

(** When the job ids of a queue are distinct, the loop removes the jobs of
    the entity and no other. *)
Lemma remove_matching_unique a c q :
  List.NoDup (map Job.id (pending q)) ->
  let q' := remove_matching a c (pending q) q in
  Queue.waiting q' = List.filter (fun j => negb (IndexingService.job_of a c j)) (Queue.waiting q) /\
  Queue.delayed q' = List.filter (fun j => negb (IndexingService.job_of a c j)) (Queue.delayed q).
Proof.
  intros Hnd. cbn zeta.
  destruct (remove_matching_lists a c (pending q) q) as [Hw Hd]. cbn zeta in Hw, Hd.
  rewrite Hw, Hd.
  assert (Hkeep : forall j, In j (pending q) ->
            negb (existsb (fun j' => IndexingService.job_of a c j' &&
                                     Nat.eqb (Job.id j') (Job.id j))%bool (pending q)) =
            negb (IndexingService.job_of a c j)).
  { intros j Hj. f_equal.
    destruct (IndexingService.job_of a c j) eqn:Hjob.
    - apply existsb_exists. exists j. rewrite Hjob, Nat.eqb_refl. auto.
    - destruct (existsb _ _) eqn:E; [|reflexivity].
      apply existsb_exists in E as (j' & Hj' & Hboth).
      apply andb_true_iff in Hboth as [Hjob' Hid]. apply Nat.eqb_eq in Hid.
      assert (j' = j) by (eapply NoDup_map_inj_in; eauto). subst j'. congruence. }
  split; apply filter_ext_In; intros j Hj; apply Hkeep; unfold pending; apply in_or_app; auto.
Qed.

Lemma pending_remove i q : incl (pending (Queue.remove i q)) (pending q).
Proof.
  intros j Hj. unfold pending in *. cbn in Hj.
  apply in_app_or in Hj as [Hj|Hj]; apply List.filter_In in Hj as [Hj _];
    apply in_or_app; auto.
Qed.

(** The inner loop of removeContractJobs, whatever the queue does: it goes
    through all the jobs, or it stops at the first call that fails. *)
Lemma cancel_jobs_cases a c name q env :
  forall jobs w,
  exists o w',
    forEach (fun job =>
               if IndexingService.job_of a c job
               then BullQueue.remove q job ;;;
                    logger DEBUG (MsgRemovedJob name (Job.id job) a)
               else ret tt) jobs env w = (o, w') /\
    ((o = Returned tt /\ queue q w' = remove_matching a c jobs (queue q w)) \/
     (exists k, faults env (WorkQueue q) k = true /\
                o = Thrown (CollaboratorError (WorkQueue q) k))) /\
    (forall q', q' <> q -> queue q' w' = queue q' w) /\
    incl (pending (queue q w')) (pending (queue q w)).
Proof.
  induction jobs as [|j jobs IH]; intros w; cbn [forEach].
  - exists (Returned tt), w. split; [reflexivity|].
    split; [left; split; reflexivity|]. split; [reflexivity | apply incl_refl].
  - unfold remove_matching. cbn [fold_left].
    destruct (IndexingService.job_of a c j).
    + unfold bind at 1. unfold bind at 1. unfold BullQueue.remove, call.
      destruct (faults env (WorkQueue q) (tick w)) eqn:Hf.
      * eexists _, _. split; [reflexivity|]. split; [right; eauto|]. split.
        -- intros q' _. apply queue_with_tick.
        -- rewrite queue_with_tick. apply incl_refl.
      * cbn [fst snd]. unfold logger, modify.
        match goal with |- context [forEach _ jobs env ?w0] =>
          destruct (IH w0) as (o & w' & Hrun & Hcase & Hother & Hincl);
          assert (Hq0 : queue q w0 = Queue.remove (Job.id j) (queue q w))
            by (rewrite queue_with_logs, queue_with_tick, queue_with_queue; reflexivity);
          assert (Ho0 : forall q', q' <> q -> queue q' w0 = queue q' w)
            by (intros q' Hne;
                rewrite queue_with_logs, queue_with_tick, queue_with_queue_other by assumption;
                reflexivity)
        end.
        rewrite Hq0 in Hcase, Hincl.
        exists o, w'. split; [exact Hrun|]. split; [exact Hcase|]. split.
        -- intros q' Hne. rewrite (Hother q' Hne). apply Ho0. exact Hne.
        -- eapply incl_tran; [exact Hincl | apply pending_remove].
    + unfold bind at 1. cbn. apply IH.
Qed.

(** One queue of removeContractJobs, whatever the queue does. *)
Lemma cancel_queue_cases a c name q env w :
  exists o w',
    (waitingJobs <- BullQueue.getWaiting q ;;
     delayedJobs <- BullQueue.getDelayed q ;;
     forEach (fun job =>
                if IndexingService.job_of a c job
                then BullQueue.remove q job ;;;
                     logger DEBUG (MsgRemovedJob name (Job.id job) a)
                else ret tt) (waitingJobs ++ delayedJobs)) env w = (o, w') /\
    ((o = Returned tt /\
      queue q w' = remove_matching a c (pending (queue q w)) (queue q w)) \/
     (exists k, faults env (WorkQueue q) k = true /\
                o = Thrown (CollaboratorError (WorkQueue q) k))) /\
    (forall q', q' <> q -> queue q' w' = queue q' w) /\
    incl (pending (queue q w')) (pending (queue q w)).
Proof.
  unfold BullQueue.getWaiting, BullQueue.getDelayed.
  unfold bind at 1. unfold call at 1.
  destruct (faults env (WorkQueue q) (tick w)) eqn:Hf1.
  { eexists _, _. split; [reflexivity|]. split; [right; eauto|].
    split; [intros; apply queue_with_tick|]. rewrite queue_with_tick. apply incl_refl. }
  cbn [fst snd]. unfold bind at 1. unfold call at 1. cbn [tick with_tick].
  destruct (faults env (WorkQueue q) (S (tick w))) eqn:Hf2.
  { eexists _, _. split; [reflexivity|]. split; [right; eauto|].
    split; [intros; rewrite !queue_with_tick; reflexivity|].
    rewrite !queue_with_tick. apply incl_refl. }
  cbn [fst snd].
  match goal with |- context [forEach _ ?jobs env ?w0] =>
    destruct (cancel_jobs_cases a c name q env jobs w0)
      as (o & w' & Hrun & Hcase & Hother & Hincl) end.
  rewrite !queue_with_tick in Hcase, Hincl.
  exists o, w'. split; [exact Hrun|]. split; [exact Hcase|]. split.
  - intros q' Hne. rewrite (Hother q' Hne), !queue_with_tick. reflexivity.
  - exact Hincl.
Qed.

(** removeContractJobs returns, whatever the queues do.  Either every call
    is answered, and each queue has lost what the loop removes, or a call
    fails, and its error is the last entry of the log.  No queue gains a
    pending job. *)
Lemma removeContractJobs_cases a c env w :
  exists w',
    IndexingService.removeContractJobs a c env w = (Returned tt, w') /\
    ((forall q, queue q w' = remove_matching a c (pending (queue q w)) (queue q w)) \/
     (exists q k, faults env (WorkQueue q) k = true /\
                  last (logs w') =
                    Some (ERROR, MsgFailedToRemoveJobs a (CollaboratorError (WorkQueue q) k)))) /\
    (forall q, incl (pending (queue q w')) (pending (queue q w))).
Proof.
  unfold IndexingService.removeContractJobs, IndexingService.queues.
  cbn [forEach fst snd]. unfold try_catch.
  destruct (cancel_queue_cases a c "indexing" INDEXING_QUEUE env w)
    as (o1 & w1 & R1 & C1 & O1 & I1).
  unfold bind at 1. rewrite R1.
  assert (Hincl1 : forall q, incl (pending (queue q w1)) (pending (queue q w))).
  { intros []; [exact I1 | rewrite O1 by discriminate; apply incl_refl
               | rewrite O1 by discriminate; apply incl_refl]. }
  destruct C1 as [[-> Q1]|(k & Hk & ->)].
  2:{ unfold logger, modify. eexists. split; [reflexivity|]. cbn [logs with_logs].
      split; [right; exists INDEXING_QUEUE, k; split; [exact Hk | apply last_snoc]|].
      intros q. rewrite queue_with_logs. apply Hincl1. }
  destruct (cancel_queue_cases a c "block-processing" BLOCK_PROCESSING_QUEUE env w1)
    as (o2 & w2 & R2 & C2 & O2 & I2).
  unfold bind at 1. rewrite R2.
  assert (Hincl2 : forall q, incl (pending (queue q w2)) (pending (queue q w))).
  { intros q. eapply incl_tran; [|apply Hincl1].
    destruct q; [rewrite O2 by discriminate; apply incl_refl | exact I2
                | rewrite O2 by discriminate; apply incl_refl]. }
  destruct C2 as [[-> Q2]|(k & Hk & ->)].
  2:{ unfold logger, modify. eexists. split; [reflexivity|]. cbn [logs with_logs].
      split; [right; exists BLOCK_PROCESSING_QUEUE, k; split; [exact Hk | apply last_snoc]|].
      intros q. rewrite queue_with_logs. apply Hincl2. }
  destruct (cancel_queue_cases a c "event-processing" EVENT_PROCESSING_QUEUE env w2)
    as (o3 & w3 & R3 & C3 & O3 & I3).
  unfold bind at 1. rewrite R3.
  assert (Hincl3 : forall q, incl (pending (queue q w3)) (pending (queue q w))).
  { intros q. eapply incl_tran; [|apply Hincl2].
    destruct q; [rewrite O3 by discriminate; apply incl_refl
                | rewrite O3 by discriminate; apply incl_refl | exact I3]. }
  destruct C3 as [[-> Q3]|(k & Hk & ->)].
  2:{ unfold logger, modify. eexists. split; [reflexivity|]. cbn [logs with_logs].
      split; [right; exists EVENT_PROCESSING_QUEUE, k; split; [exact Hk | apply last_snoc]|].
      intros q. rewrite queue_with_logs. apply Hincl3. }
  cbn. exists w3. split; [reflexivity|]. split; [|exact Hincl3].
  left. intros q. destruct q.
  - rewrite (O3 INDEXING_QUEUE), (O2 INDEXING_QUEUE), Q1 by discriminate. reflexivity.
  - rewrite (O3 BLOCK_PROCESSING_QUEUE), Q2, (O1 BLOCK_PROCESSING_QUEUE) by discriminate.
    reflexivity.
  - rewrite Q3, (O2 EVENT_PROCESSING_QUEUE), (O1 EVENT_PROCESSING_QUEUE) by discriminate.
    reflexivity.
Qed.

Lemma job_of_spec a c j : IndexingService.job_of a c j = true <-> entity_job a c j.
Proof.
  unfold IndexingService.job_of, entity_job.
  rewrite !andb_true_iff, negb_true_iff, String.eqb_eq, Z.eqb_eq, String.eqb_neq.
  tauto.
Qed.

(** stopIndexing on an entity that has a row, with the two storage calls
    answered: the flag is cleared, then the cancellation runs, then the
    success is logged. *)
Lemma stopIndexing_found_run env w a chainId p :
  let c := match chainId with Some c => c | None => 137 end in
  List.find (IndexingProgress.has_key (toLowerCase a) c) (indexingProgressRepository w)
    = Some p ->
  faults env ProgressStore (tick w) = false ->
  faults env ProgressStore (S (tick w)) = false ->
  exists w0 w1,
    (forall q, queue q w0 = queue q w) /\
    indexingProgressRepository w0 =
      map (fun r => if IndexingProgress.has_key (toLowerCase a) c r
                    then IndexingProgress.set_isSyncing false (now w) r else r)
        (indexingProgressRepository w) /\
    tokenTransferRepository w0 = tokenTransferRepository w /\
    failedEventRepository w0 = failedEventRepository w /\
    IndexingService.removeContractJobs a c env w0 = (Returned tt, w1) /\
    IndexingService.stopIndexing a chainId env w =
      (Returned tt, with_logs (fun ls => ls ++ [(LOG, MsgSuccessfullyStopped a)]) w1).
Proof.
  intros c Hfind Hq1 Hq2.
  unfold IndexingService.stopIndexing, ProgressRepository.findOne, ProgressRepository.update.
  fold c. remember (IndexingService.removeContractJobs a c) as rm eqn:Hrm.
  unfold_monad. cbn. rewrite Hq1, Hfind. cbn. rewrite Hq2. cbn.
  match goal with
  | |- context [rm env ?w0] =>
      pose proof (removeContractJobs_returns a c env w0) as [[] Hret];
      rewrite <- Hrm in Hret;
      exists w0; destruct (rm env w0) as [o w3] eqn:Hrun
  end.
  cbn in Hret. subst o. exists w3.
  split; [intros []; reflexivity|]. repeat split; reflexivity.
Qed.

(** *** The recovery pass *)

Lemma getContractConfig_distinct (cs : list (string * ContractConfig.t)) kv :
  NoDup (map (fun kv : string * ContractConfig.t =>
                toLowerCase (ContractConfig.address (snd kv))) cs) ->
  In kv cs ->
  List.find (fun kv' : string * ContractConfig.t =>
               String.eqb (toLowerCase (ContractConfig.address (snd kv')))
                          (toLowerCase (ContractConfig.address (snd kv)))) cs = Some kv.
Proof.
  induction cs as [|x cs IH]; intros Hnd Hin; [contradiction|].
  cbn in Hnd. apply NoDup_cons in Hnd as [Hnotin Hnd]. cbn.
  destruct Hin as [->|Hin].
  - rewrite String.eqb_refl. reflexivity.
  - destruct (String.eqb_spec (toLowerCase (ContractConfig.address (snd x)))
                (toLowerCase (ContractConfig.address (snd kv)))) as [Heq|Hne].
    + exfalso. apply Hnotin. rewrite Heq.
      apply list_elem_of_In.
      apply (in_map (fun kv : string * ContractConfig.t =>
                       toLowerCase (ContractConfig.address (snd kv)))). exact Hin.
    + apply IH; assumption.
Qed.

Lemma enabledContracts_In cs c :
  In c (AutoResumeService.enabledContracts cs) ->
  ContractConfig.enabled c = true /\ exists k, In (k, c) cs.
Proof.
  unfold AutoResumeService.enabledContracts. intros H.
  apply List.filter_In in H as [H He]. split; [exact He|].
  apply in_map_iff in H as ([k c'] & Hc & Hin). cbn in Hc. subst c'. eauto.
Qed.

Lemma existsb_find_some {A} (p : A -> bool) (l : list A) :
  existsb p l = true -> exists x, List.find p l = Some x.
Proof.
  induction l as [|y l IH]; cbn; [discriminate|].
  destruct (p y); [eauto | exact IH].
Qed.

Lemma existsb_find_none {A} (p : A -> bool) (l : list A) :
  existsb p l = false -> List.find p l = None.
Proof.
  induction l as [|y l IH]; cbn; [reflexivity|].
  destruct (p y); [discriminate | exact IH].
Qed.

Lemma map_unmatched {A} (p : A -> bool) (b : bool) (f : A -> A) (l : list A) :
  existsb p l = false -> map (fun r => if (p r && b)%bool then f r else r) l = l.
Proof.
  induction l as [|y l IH]; cbn; [reflexivity|].
  destruct (p y); cbn; [discriminate|]. intros H. rewrite IH by exact H. reflexivity.
Qed.

(** startIndexing for a configured, enabled contract that has a row. *)
Lemma startIndexing_resume env w k c :
  reliable env -> distinct_addresses env ->
  In (k, c) (contracts env) -> ContractConfig.enabled c = true ->
  existsb (row_of c) (indexingProgressRepository w) = true ->
  exists w',
    snd (IndexingService.startIndexing (ContractConfig.address c) env w) = w' /\
    (exists a, fst (IndexingService.startIndexing (ContractConfig.address c) env w) = a /\
               a <> OutOfFuel) /\
    indexingProgressRepository w' =
      map (fun r => if (row_of c r && hasCode env (ContractConfig.address c))%bool
                    then IndexingProgress.set_isSyncing true (now w) r else r)
        (indexingProgressRepository w) /\
    indexingQueue w' =
      (if hasCode env (ContractConfig.address c)
       then Queue.addBulk [start_job c] (indexingQueue w) else indexingQueue w) /\
    now w' = now w.
Proof.
  intros Hrel Hdist Hin Hen Hrow.
  change (existsb (IndexingProgress.has_key (toLowerCase (ContractConfig.address c))
                     (ContractConfig.chainId c)) (indexingProgressRepository w) = true)
    in Hrow.
  destruct (existsb_find_some _ _ Hrow) as [p Hp].
  pose proof (getContractConfig_distinct _ (k, c) Hdist Hin) as Hcfg. cbn [snd] in Hcfg.
  eexists. split; [reflexivity|].
  unfold IndexingService.startIndexing, IndexingService.getContractConfig,
    BlockchainService.validateContractAddress, ProgressRepository.findOne,
    ProgressRepository.update, BullQueue.add.
  unfold_monad. cbn. rewrite Hcfg. cbn. rewrite Hen. cbn. rewrite !Hrel.
  destruct (hasCode env (ContractConfig.address c)); cbn.
  - rewrite ?Hrel. rewrite Hp. cbn. rewrite ?Hrel. cbn. rewrite ?Hrel. cbn.
    split; [eexists; split; [reflexivity | discriminate]|].
    split; [|split; reflexivity].
    apply map_ext. intros r. unfold row_of. rewrite andb_true_r. reflexivity.
  - split; [eexists; split; [reflexivity | discriminate]|].
    split; [|split; reflexivity].
    symmetry. erewrite map_ext; [apply map_id|].
    intros r. cbn. rewrite andb_false_r. reflexivity.
Qed.

Lemma resumeContractIndexing_step env w c :
  reliable env -> distinct_addresses env ->
  In c (AutoResumeService.enabledContracts (contracts env)) ->
  exists w',
    AutoResumeService.resumeContractIndexing c env w = (Returned tt, w') /\
    indexingProgressRepository w' =
      map (fun r => if (row_of c r && hasCode env (ContractConfig.address c))%bool
                    then IndexingProgress.set_isSyncing true (now w) r else r)
        (indexingProgressRepository w) /\
    indexingQueue w' =
      (if (existsb (row_of c) (indexingProgressRepository w)
           && hasCode env (ContractConfig.address c))%bool
       then Queue.addBulk [start_job c] (indexingQueue w) else indexingQueue w) /\
    now w' = now w.
Proof.
  intros Hrel Hdist Hin.
  apply enabledContracts_In in Hin as [Hen [k Hin]].
  unfold AutoResumeService.resumeContractIndexing.
  remember (IndexingService.startIndexing (ContractConfig.address c)) as start eqn:Hstart.
  unfold ProgressRepository.findOne. unfold_monad. cbn. rewrite Hrel.
  destruct (existsb (row_of c) (indexingProgressRepository w)) eqn:Hrow.
  - pose proof Hrow as Hrow'.
    change (existsb (IndexingProgress.has_key (toLowerCase (ContractConfig.address c))
                       (ContractConfig.chainId c)) (indexingProgressRepository w) = true)
      in Hrow'.
    destruct (existsb_find_some _ _ Hrow') as [p Hp]. rewrite Hp. cbn.
    match goal with |- context [start env ?w0] =>
      destruct (startIndexing_resume env w0 k c Hrel Hdist Hin Hen Hrow)
        as (w3 & Hsnd & (o & Hfst & Hfuel) & Hprog & Hq & Hnow);
      rewrite <- Hstart in Hsnd, Hfst;
      destruct (start env w0) as [o' w3']
    end.
    cbn in Hsnd, Hfst. subst o' w3'. cbn in Hprog, Hq, Hnow.
    destruct o as [[]|e|]; [| |congruence].
    + eexists. split; [reflexivity|]. cbn. rewrite Hprog, Hq, Hnow. auto.
    + eexists. split; [reflexivity|]. cbn. rewrite Hprog, Hq, Hnow. auto.
  - pose proof Hrow as Hrow'.
    change (existsb (IndexingProgress.has_key (toLowerCase (ContractConfig.address c))
                       (ContractConfig.chainId c)) (indexingProgressRepository w) = false)
      in Hrow'.
    rewrite (existsb_find_none _ _ Hrow'). cbn.
    eexists. split; [reflexivity|]. cbn.
    rewrite (map_unmatched _ _ _ _ Hrow). auto.
Qed.

Lemma existsb_pointwise {A} (f g : A -> bool) (l : list A) :
  (forall x, f x = g x) -> existsb f l = existsb g l.
Proof.
  intros H. induction l as [|x l IH]; cbn; [reflexivity|]. rewrite H, IH. reflexivity.
Qed.

Lemma row_of_set_isSyncing c b t r :
  row_of c (IndexingProgress.set_isSyncing b t r) = row_of c r.
Proof. reflexivity. Qed.

Lemma existsb_row_of_map c (f : IndexingProgress.t -> IndexingProgress.t) rows :
  (forall r, row_of c (f r) = row_of c r) ->
  existsb (row_of c) (map f rows) = existsb (row_of c) rows.
Proof.
  intros Hf. induction rows as [|r rows IH]; cbn; [reflexivity|].
  rewrite Hf, IH. reflexivity.
Qed.

Lemma resume_loop env :
  reliable env -> distinct_addresses env ->
  forall cs w,
    (forall c, In c cs -> In c (AutoResumeService.enabledContracts (contracts env))) ->
    exists w',
      forEach AutoResumeService.resumeContractIndexing cs env w = (Returned tt, w') /\
      indexingProgressRepository w' =
        map (fun r =>
               if existsb (fun c => row_of c r && hasCode env (ContractConfig.address c))%bool cs
               then IndexingProgress.set_isSyncing true (now w) r else r)
          (indexingProgressRepository w) /\
      indexingQueue w' =
        Queue.addBulk
          (map start_job
             (List.filter (fun c => existsb (row_of c) (indexingProgressRepository w)
                                    && hasCode env (ContractConfig.address c))%bool cs))
          (indexingQueue w) /\
      now w' = now w.
Proof.
  intros Hrel Hdist. induction cs as [|c cs IH]; intros w Hsub; cbn [forEach].
  - exists w. split; [reflexivity|]. cbn. rewrite map_id. auto.
  - destruct (resumeContractIndexing_step env w c Hrel Hdist (Hsub c (or_introl eq_refl)))
      as (w1 & Hrun1 & Hp1 & Hq1 & Hn1).
    destruct (IH w1 (fun c' H => Hsub c' (or_intror H))) as (w' & Hrun & Hp & Hq & Hn).
    exists w'. split; [rewrite (bind_run _ _ env w tt w1 Hrun1); exact Hrun|].
    split; [|split].
    + rewrite Hp, Hp1, Hn1, map_map. apply map_ext. intros r. cbn [existsb].
      destruct (row_of c r && hasCode env (ContractConfig.address c))%bool eqn:Hc; cbn.
      * erewrite existsb_pointwise; [|intros c'; rewrite row_of_set_isSyncing; reflexivity].
        destruct (existsb _ cs); reflexivity.
      * reflexivity.
    + rewrite Hq, Hq1, Hp1. cbn [List.filter].
      assert (Hf : List.filter
                (fun c0 => existsb (row_of c0)
                   (map (fun r => if (row_of c r && hasCode env (ContractConfig.address c))%bool
                                  then IndexingProgress.set_isSyncing true (now w) r else r)
                      (indexingProgressRepository w))
                 && hasCode env (ContractConfig.address c0))%bool cs =
              List.filter
                (fun c0 => existsb (row_of c0) (indexingProgressRepository w)
                 && hasCode env (ContractConfig.address c0))%bool cs).
      { apply filter_ext. intros c0. rewrite existsb_row_of_map; [reflexivity|].
        intros r. destruct (row_of c r && hasCode env (ContractConfig.address c))%bool;
          reflexivity. }
      rewrite Hf.
      destruct (existsb (row_of c) (indexingProgressRepository w)
                && hasCode env (ContractConfig.address c))%bool; reflexivity.
    + congruence.
Qed.

Lemma resetStuckSyncingStates_run env w :
  reliable env ->
  exists w',
    AutoResumeService.resetStuckSyncingStates env w = (Returned tt, w') /\
    indexingProgressRepository w' = map (reset_row (now w)) (indexingProgressRepository w) /\
    indexingQueue w' = indexingQueue w /\ now w' = now w.
Proof.
  intros Hrel. unfold AutoResumeService.resetStuckSyncingStates, ProgressRepository.update.
  unfold_monad. cbn. rewrite Hrel.
  destruct (length (List.filter IndexingProgress.isSyncing (indexingProgressRepository w)));
    cbn; eexists; (split; [reflexivity|]); cbn; auto.
Qed.

(** The recovery pass, with every call answered and no address configured
    twice: the reset, then the loop over the enabled contracts. *)
Lemma resumeIndexing_run env w :
  reliable env -> distinct_addresses env ->
  exists w1 w2,
    AutoResumeService.resetStuckSyncingStates env
      (with_logs (fun ls => ls ++ [(LOG, MsgCheckingContractsToResume)]) w)
      = (Returned tt, w1) /\
    (forall r, In r (indexingProgressRepository w1) -> IndexingProgress.isSyncing r = false) /\
    forEach AutoResumeService.resumeContractIndexing
      (AutoResumeService.enabledContracts (contracts env)) env
      (with_logs (fun ls => ls ++
         [(LOG, MsgFoundEnabledContracts
                  (length (AutoResumeService.enabledContracts (contracts env))))]) w1)
      = (Returned tt, w2) /\
    AutoResumeService.resumeIndexing env w =
      (Returned tt, with_logs (fun ls => ls ++ [(LOG, MsgAutoResumeCompleted)]) w2) /\
    indexingProgressRepository w2 =
      map (recovered_row env (now w)) (indexingProgressRepository w) /\
    indexingQueue w2 =
      Queue.addBulk (map start_job (resumed_contracts env (indexingProgressRepository w)))
        (indexingQueue w).
Proof.
  intros Hrel Hdist. unfold AutoResumeService.resumeIndexing.
  unfold try_catch, bind at 1, logger at 1, modify at 1.
  match goal with |- context [bind AutoResumeService.resetStuckSyncingStates ?k env ?w0] =>
    destruct (resetStuckSyncingStates_run env w0 Hrel) as (w1 & Hrun1 & Hp1 & Hq1 & Hn1);
    rewrite (bind_run _ k env w0 tt w1 Hrun1)
  end.
  cbn in Hp1, Hq1, Hn1.
  unfold bind at 1, ask at 1. unfold bind at 1, logger at 1, modify at 1.
  match goal with |- context [bind (forEach _ ?cs) ?k env ?w0] =>
    destruct (resume_loop env Hrel Hdist cs w0 (fun c H => H))
      as (w2 & Hrun2 & Hp2 & Hq2 & Hn2);
    rewrite (bind_run _ k env w0 tt w2 Hrun2)
  end.
  cbn in Hp2, Hq2, Hn2. unfold logger, modify.
  exists w1, w2. split; [exact Hrun1|]. split.
  { intros r Hin. rewrite Hp1 in Hin. apply in_map_iff in Hin as (r0 & <- & _).
    unfold reset_row. destruct (IndexingProgress.isSyncing r0) eqn:Hs; [reflexivity | exact Hs]. }
  split; [exact Hrun2|]. split; [reflexivity|]. split.
  - rewrite Hp2, Hp1, Hn1, map_map. apply map_ext. intros r.
    unfold recovered_row, resumed_row.
    erewrite existsb_pointwise; [reflexivity|]. intros c. cbn beta.
    unfold reset_row. destruct (IndexingProgress.isSyncing r); reflexivity.
  - rewrite Hq2, Hq1, Hp1. unfold resumed_contracts. f_equal. f_equal.
    apply filter_ext. intros c. rewrite existsb_row_of_map; [reflexivity|].
    intros r. unfold reset_row. destruct (IndexingProgress.isSyncing r); reflexivity.
Qed.

(** *** The health report *)

Ltac halting :=
  repeat (intros; cbv beta zeta;
    lazymatch goal with
    | |- halts (bind _ _) => apply halts_bind
    | |- halts (try_catch _ _) => apply halts_try_catch
    | |- halts (forEach _ _) => apply halts_forEach
    | |- halts (ret _) => apply halts_ret
    | |- halts (throw _) => apply halts_throw
    | |- halts (ask _) => apply halts_ask
    | |- halts (get _) => apply halts_get
    | |- halts newDate => apply halts_get
    | |- halts (modify _) => apply halts_modify
    | |- halts (logger _ _) => apply halts_modify
    | |- halts (sleep _) => apply halts_modify
    | |- halts (call _ _) => apply halts_call
    | |- halts (match ?x with _ => _ end) => destruct x
    | |- returns (bind _ _) => apply returns_bind
    | |- returns (ret _) => apply returns_ret
    | |- returns (ask _) => apply returns_ask
    | |- returns (get _) => apply returns_get
    | |- returns newDate => apply returns_get
    | |- returns (modify _) => apply returns_modify
    | |- returns (logger _ _) => apply returns_modify
    | |- returns (sleep _) => apply returns_modify
    | |- returns (try_catch _ _) => apply returns_try_catch
    | |- returns (forEach _ _) => apply returns_forEach
    | |- returns (match ?x with _ => _ end) => destruct x
    end).

Lemma checkBlockchainHealth_returns : returns HealthMonitoringService.checkBlockchainHealth.
Proof.
  unfold HealthMonitoringService.checkBlockchainHealth, HealthMonitoringService.shortened,
    BlockchainService.getCurrentBlockNumber.
  halting.
Qed.

Lemma checkIndexingHealth_returns : returns HealthMonitoringService.checkIndexingHealth.
Proof.
  unfold HealthMonitoringService.checkIndexingHealth, ProgressRepository.find,
    BlockchainService.getCurrentBlockNumber.
  halting.
Qed.

Lemma checkDatabaseHealth_returns : returns HealthMonitoringService.checkDatabaseHealth.
Proof.
  unfold HealthMonitoringService.checkDatabaseHealth, FailedEventRepository.count.
  halting.
Qed.

Lemma getSystemHealth_catch_run e env w :
  exists report w',
    HealthMonitoringService.getSystemHealth_catch e env w = (Returned report, w') /\
    SystemHealthStatus.status report = unhealthy /\
    SystemHealthStatus.issues report = [SystemHealthCheckFailed].
Proof. eexists; eexists. split; [reflexivity|]. split; reflexivity. Qed.

(** The `try` block returns the report that the three checks determine. *)
Lemma getSystemHealth_try_run env w :
  exists b i d w1 w2 w3 report,
    HealthMonitoringService.checkBlockchainHealth env w = (Returned b, w1) /\
    HealthMonitoringService.checkIndexingHealth env w1 = (Returned i, w2) /\
    HealthMonitoringService.checkDatabaseHealth env w2 = (Returned d, w3) /\
    HealthMonitoringService.getSystemHealth_try env w = (Returned report, w3) /\
    SystemHealthStatus.blockchain report = b /\
    SystemHealthStatus.indexing report = i /\
    SystemHealthStatus.database report = d /\
    (BlockchainHealth.connected b = false ->
       SystemHealthStatus.status report = unhealthy /\
       In BlockchainRpcConnectionFailed (SystemHealthStatus.issues report)) /\
    (DatabaseHealth.connected d = false ->
       SystemHealthStatus.status report = unhealthy /\
       In DatabaseConnectionFailed (SystemHealthStatus.issues report)) /\
    (SystemHealthStatus.status report = healthy ->
       SystemHealthStatus.issues report = []).
Proof.
  destruct (returns_run _ env w checkBlockchainHealth_returns) as (b & w1 & Hb).
  destruct (returns_run _ env w1 checkIndexingHealth_returns) as (i & w2 & Hi).
  destruct (returns_run _ env w2 checkDatabaseHealth_returns) as (d & w3 & Hd).
  exists b, i, d, w1, w2, w3.
  unfold HealthMonitoringService.getSystemHealth_try.
  rewrite (bind_run _ _ env w b w1 Hb).
  destruct (negb (BlockchainHealth.connected b)) eqn:Ecb;
    rewrite (bind_run _ _ env w1 i w2 Hi);
    destruct (Nat.eqb (IndexingHealth.activelyIndexing i) 0
              && Nat.ltb 0 (IndexingHealth.totalContracts i))%bool;
    destruct (HealthMonitoringService.maxLag (IndexingHealth.syncLag i)) as [m|];
    try destruct (Z.ltb 1000 m);
    rewrite (bind_run _ _ env w2 d w3 Hd);
    destruct (negb (DatabaseHealth.connected d)) eqn:Ecd;
    destruct (Nat.ltb 100 (DatabaseHealth.failedEvents d));
    eexists; (split; [exact Hb|]); (split; [exact Hi|]); (split; [exact Hd|]);
    (split; [reflexivity|]); cbn;
    repeat match goal with |- _ /\ _ => split end;
    try reflexivity;
    intros Hc;
    first [ rewrite Hc in *; discriminate
          | discriminate
          | reflexivity
          | split; [reflexivity | cbn; repeat (first [left; reflexivity | right])] ].
Qed.

Lemma checkBlockchainHealth_fault env w b w1 :
  faults env Ledger (tick w) = true ->
  HealthMonitoringService.checkBlockchainHealth env w = (Returned b, w1) ->
  BlockchainHealth.connected b = false.
Proof.
  intros Hf. unfold HealthMonitoringService.checkBlockchainHealth,
    BlockchainService.getCurrentBlockNumber.
  unfold_monad. cbn. rewrite Hf. cbn. intros [= <- _]. reflexivity.
Qed.

Lemma checkDatabaseHealth_fault env w d w1 :
  faults env ProgressStore (tick w) = true \/ faults env FailureSink (S (tick w)) = true ->
  HealthMonitoringService.checkDatabaseHealth env w = (Returned d, w1) ->
  DatabaseHealth.connected d = false.
Proof.
  intros Hf. unfold HealthMonitoringService.checkDatabaseHealth, FailedEventRepository.count.
  unfold_monad. cbn.
  destruct (faults env ProgressStore (tick w)) eqn:E1; cbn.
  - intros [= <- _]. reflexivity.
  - destruct Hf as [Hf|Hf]; [discriminate|]. rewrite Hf. cbn. intros [= <- _]. reflexivity.
Qed.

Lemma maxLag_empty : HealthMonitoringService.maxLag ∅ = None.
Proof. unfold HealthMonitoringService.maxLag. apply map_fold_empty. Qed.

(** A failure inside checkIndexingHealth is caught there: the check
    answers zero contracts and an empty lag table. *)
Lemma checkIndexingHealth_fault env w i w1 :
  faults env ProgressStore (tick w) = true \/ faults env Ledger (S (tick w)) = true ->
  HealthMonitoringService.checkIndexingHealth env w = (Returned i, w1) ->
  i = IndexingHealth.mk 0 0 ∅ 0.
Proof.
  intros Hf. unfold HealthMonitoringService.checkIndexingHealth, ProgressRepository.find,
    BlockchainService.getCurrentBlockNumber.
  unfold_monad. cbn.
  destruct (faults env ProgressStore (tick w)) eqn:E1; cbn.
  - intros [= <- _]. reflexivity.
  - destruct Hf as [Hf|Hf]; [discriminate|]. rewrite Hf. cbn. intros [= <- _]. reflexivity.
Qed.

Lemma checkDatabaseHealth_connected env w d w1 :
  HealthMonitoringService.checkDatabaseHealth env w = (Returned d, w1) ->
  DatabaseHealth.connected d = false ->
  faults env ProgressStore (tick w) = true \/ faults env FailureSink (S (tick w)) = true.
Proof.
  unfold HealthMonitoringService.checkDatabaseHealth, FailedEventRepository.count.
  unfold_monad. cbn.
  destruct (faults env ProgressStore (tick w)) eqn:E1; cbn; [auto|].
  destruct (faults env FailureSink (S (tick w))) eqn:E2; cbn; [auto|].
  intros [= <- _]. cbn. discriminate.
Qed.

(** getSystemHealth returns the report that its three checks determine;
    its own handler is never reached. *)
Lemma getSystemHealth_parts env w :
  exists b i d w1 w2 w3 report,
    HealthMonitoringService.checkBlockchainHealth env w = (Returned b, w1) /\
    HealthMonitoringService.checkIndexingHealth env w1 = (Returned i, w2) /\
    HealthMonitoringService.checkDatabaseHealth env w2 = (Returned d, w3) /\
    HealthMonitoringService.getSystemHealth env w = (Returned report, w3) /\
    SystemHealthStatus.blockchain report = b /\
    SystemHealthStatus.indexing report = i /\
    SystemHealthStatus.database report = d /\
    (BlockchainHealth.connected b = false <->
     In BlockchainRpcConnectionFailed (SystemHealthStatus.issues report)) /\
    (DatabaseHealth.connected d = false <->
     In DatabaseConnectionFailed (SystemHealthStatus.issues report)) /\
    (SystemHealthStatus.status report = unhealthy <->
     BlockchainHealth.connected b = false \/ DatabaseHealth.connected d = false) /\
    (SystemHealthStatus.status report = healthy <-> SystemHealthStatus.issues report = []) /\
    ~ In SystemHealthCheckFailed (SystemHealthStatus.issues report) /\
    (i = IndexingHealth.mk 0 0 ∅ 0 ->
     BlockchainHealth.connected b = true -> DatabaseHealth.connected d = true ->
     (DatabaseHealth.failedEvents d <= 100)%nat ->
     SystemHealthStatus.status report = healthy /\ SystemHealthStatus.issues report = []).
Proof.
  destruct (returns_run _ env w checkBlockchainHealth_returns) as (b & w1 & Hb).
  destruct (returns_run _ env w1 checkIndexingHealth_returns) as (i & w2 & Hi).
  destruct (returns_run _ env w2 checkDatabaseHealth_returns) as (d & w3 & Hd).
  exists b, i, d, w1, w2, w3.
  unfold HealthMonitoringService.getSystemHealth,
    HealthMonitoringService.getSystemHealth_try.
  unfold try_catch. rewrite (bind_run _ _ env w b w1 Hb).
  destruct (BlockchainHealth.connected b) eqn:Ecb; cbn [negb];
    rewrite (bind_run _ _ env w1 i w2 Hi);
    destruct (Nat.eqb (IndexingHealth.activelyIndexing i) 0
              && Nat.ltb 0 (IndexingHealth.totalContracts i))%bool eqn:Eidle;
    destruct (HealthMonitoringService.maxLag (IndexingHealth.syncLag i)) as [m|] eqn:Elag;
    try destruct (Z.ltb 1000 m) eqn:Ehigh;
    rewrite (bind_run _ _ env w2 d w3 Hd);
    destruct (DatabaseHealth.connected d) eqn:Ecd; cbn [negb];
    destruct (Nat.ltb 100 (DatabaseHealth.failedEvents d)) eqn:Emany;
    eexists; (split; [exact Hb|]); (split; [exact Hi|]); (split; [exact Hd|]);
    (split; [reflexivity|]); cbn;
    repeat match goal with |- _ /\ _ => split end;
    try reflexivity;
    lazymatch goal with
    | |- i = _ -> _ =>
        intros -> Hcb Hcd Hfew; cbn in Eidle, Elag;
        first [ discriminate
              | rewrite maxLag_empty in Elag; discriminate
              | apply Nat.ltb_lt in Emany; lia
              | split; reflexivity ]
    | |- _ => intuition congruence
    end.
Qed.

(** *** The drain *)

Lemma settles_within_nonneg env L : settles_within env L -> 0 <= L.
Proof. intros H. destruct (H Ledger 0%nat) as (d & _ & Hd). lia. Qed.

(** One awaited query of the active jobs: it counts what the queue shows,
    or nothing when the query throws, and takes the time the queue takes. *)
Lemma countActiveJobs_run env w L :
  settles_within env L ->
  exists w',
    ShutdownService.countActiveJobs ShutdownService.queues 0 env w =
      (Returned (activeSeen env (tick w)), w') /\
    tick w' = (tick w + 3)%nat /\ now w <= now w' <= now w + 3 * L /\
    (forall q, queue q w' = queue q w) /\
    indexingProgressRepository w' = indexingProgressRepository w.
Proof.
  intros Hs.
  destruct (Hs (WorkQueue INDEXING_QUEUE) (tick w)) as (d1 & E1 & B1).
  destruct (Hs (WorkQueue BLOCK_PROCESSING_QUEUE) (S (tick w))) as (d2 & E2 & B2).
  destruct (Hs (WorkQueue EVENT_PROCESSING_QUEUE) (S (S (tick w)))) as (d3 & E3 & B3).
  unfold ShutdownService.countActiveJobs, ShutdownService.queues, BullQueue.getActive,
    await_settled, activeSeen, seen.
  unfold_monad. cbn. rewrite E1.
  destruct (faults env (WorkQueue INDEXING_QUEUE) (tick w)); cbn;
    [|destruct (length (activeJobs env INDEXING_QUEUE (tick w))); cbn];
    rewrite E2;
    (destruct (faults env (WorkQueue BLOCK_PROCESSING_QUEUE) (S (tick w))); cbn;
     [|destruct (length (activeJobs env BLOCK_PROCESSING_QUEUE (S (tick w)))); cbn]);
    rewrite E3;
    (destruct (faults env (WorkQueue EVENT_PROCESSING_QUEUE) (S (S (tick w)))); cbn;
     [|destruct (length (activeJobs env EVENT_PROCESSING_QUEUE (S (S (tick w))))); cbn]);
    eexists; (split; [first [reflexivity | do 2 f_equal; lia]|]);
    (split; [cbn; lia|]); (split; [cbn; lia|]);
    (split; [intros []; reflexivity|]); reflexivity.
Qed.

(** The wait, from a loop head on.  [i] pauses lie behind; the loop makes
    [k] more passes that count active jobs, each followed by a pause, and
    ends with a pass that counts none or at a loop head that finds the
    timeout used up. *)
Lemma waitLoop_spec env start L :
  settles_within env L ->
  forall fuel i w,
    1000 * Z.of_nat i <= now w - start -> now w - start < 31000 + 3 * L ->
    (i <= 30)%nat -> (30 <= i + fuel)%nat ->
    exists k w',
      ShutdownService.waitLoop fuel start 30000 env w = (Returned tt, w') /\
      (i + k <= 30)%nat /\
      (forall j, (j < k)%nat -> activeSeen env (tick w + 3 * j) <> 0%nat) /\
      ((now w' - start < 30000 + 3 * L /\
        activeSeen env (tick w + 3 * k) = 0%nat /\
        tick w' = (tick w + 3 * (k + 1))%nat /\
        last (logs w') = Some (LOG, MsgAllJobsCompleted)) \/
       (30000 <= now w' - start /\
        tick w' = (tick w + 3 * k)%nat /\
        last (logs w') = Some (WARN, MsgTimeoutReached))) /\
      now w + 1000 * Z.of_nat k <= now w' /\
      now w' <= now w + 1000 * Z.of_nat k + 3 * L * (Z.of_nat k + 1) /\
      now w' - start < 31000 + 3 * L /\
      (forall q, queue q w' = queue q w) /\
      indexingProgressRepository w' = indexingProgressRepository w.
Proof.
  intros Hs. pose proof (settles_within_nonneg env L Hs) as HL.
  induction fuel as [|fuel IH]; intros i w Hlow Hhigh Hi Hfuel.
  - cbn [ShutdownService.waitLoop]. unfold bind at 1, get at 1.
    destruct (Z.ltb_spec (now w - start) 30000) as [Hlt|Hge]; [lia|]. cbn [negb].
    unfold logger, modify. exists 0%nat. eexists. split; [reflexivity|].
    cbn. rewrite last_snoc.
    split; [lia|]. split; [intros; lia|]. split; [right; repeat split; lia|].
    repeat split; first [lia | reflexivity | intros []; reflexivity].
  - cbn [ShutdownService.waitLoop]. unfold bind at 1, get at 1.
    destruct (Z.ltb_spec (now w - start) 30000) as [Hlt|Hge]; cbn [negb].
    + destruct (countActiveJobs_run env w L Hs) as (w1 & Hrun & Ht & Hn & Hq & Hp).
      rewrite (bind_run _ _ env w _ w1 Hrun).
      destruct (Nat.eqb_spec (activeSeen env (tick w)) 0) as [Hz|Hnz].
      * unfold logger, modify. exists 0%nat. eexists. split; [reflexivity|].
        cbn. rewrite last_snoc. rewrite !Nat.add_0_r.
        split; [lia|]. split; [intros; lia|].
        split; [left; repeat split; first [lia | assumption | reflexivity]|].
        repeat split; first [lia | assumption | intros q; rewrite queue_with_logs; apply Hq].
      * unfold bind at 1, sleep at 1, modify at 1.
        set (w2 := with_now (fun t => t + 1000) w1).
        assert (Hn2 : now w2 = now w1 + 1000) by reflexivity.
        assert (Ht2 : tick w2 = tick w1) by reflexivity.
        destruct (IH (S i) w2) as (k & w' & Hrun' & Hk & Hbusy & Hend & Hlo & Hhi & Hb & Hq' & Hp');
          [lia | lia | lia | lia |].
        exists (S k), w'. split; [exact Hrun'|]. split; [lia|]. split.
        { intros [|j] Hj; [rewrite Nat.mul_0_r, Nat.add_0_r; exact Hnz|].
          replace (tick w + 3 * S j)%nat with (tick w2 + 3 * j)%nat by lia.
          apply Hbusy. lia. }
        split.
        { destruct Hend as [(He0 & He1 & He2 & He3)|(He1 & He2 & He3)]; [left | right].
          - replace (tick w + 3 * S k)%nat with (tick w2 + 3 * k)%nat by lia.
            repeat split; first [assumption | lia].
          - repeat split; first [assumption | lia]. }
        split; [lia|]. split; [nia|]. split; [lia|]. split.
        { intros q. rewrite Hq'. rewrite <- (Hq q). destruct q; reflexivity. }
        rewrite Hp'. exact Hp.
    + unfold logger, modify. exists 0%nat. eexists. split; [reflexivity|].
      cbn. rewrite last_snoc.
      split; [lia|]. split; [intros; lia|]. split; [right; repeat split; lia|].
      repeat split; first [lia | reflexivity | intros []; reflexivity].
Qed.

Lemma markSyncingAsStopped_run env w L :
  settles_within env L ->
  exists w',
    ShutdownService.markSyncingAsStopped env w = (Returned tt, w') /\
    tick w' = S (tick w) /\ now w <= now w' <= now w + L /\
    (forall q, queue q w' = queue q w).
Proof.
  intros Hs. destruct (Hs ProgressStore (tick w)) as (d & E & B).
  unfold ShutdownService.markSyncingAsStopped, ProgressRepository.update, await_settled.
  unfold_monad. cbn. rewrite E.
  destruct (faults env ProgressStore (tick w)); cbn;
    [|destruct (length (List.filter IndexingProgress.isSyncing (indexingProgressRepository w)));
      cbn];
    eexists; (split; [reflexivity|]); cbn; (split; [reflexivity|]); (split; [lia|]);
    intros []; reflexivity.
Qed.

Lemma closeQueues_run env w L :
  settles_within env L ->
  exists w',
    ShutdownService.closeQueues env w = (Returned tt, w') /\
    now w <= now w' <= now w + 3 * L /\
    (quiet env w 3 -> forall q, Queue.closed (queue q w') = true).
Proof.
  intros Hs.
  destruct (Hs (WorkQueue INDEXING_QUEUE) (tick w)) as (d1 & E1 & B1).
  destruct (Hs (WorkQueue BLOCK_PROCESSING_QUEUE) (S (tick w))) as (d2 & E2 & B2).
  destruct (Hs (WorkQueue EVENT_PROCESSING_QUEUE) (S (S (tick w)))) as (d3 & E3 & B3).
  unfold ShutdownService.closeQueues, ShutdownService.queues.
  cbn [forEach fst snd]. unfold BullQueue.close, await_settled. unfold_monad. cbn.
  rewrite E1.
  destruct (faults env (WorkQueue INDEXING_QUEUE) (tick w)) eqn:F1; cbn; rewrite E2;
    (destruct (faults env (WorkQueue BLOCK_PROCESSING_QUEUE) (S (tick w))) eqn:F2; cbn);
    rewrite E3;
    (destruct (faults env (WorkQueue EVENT_PROCESSING_QUEUE) (S (S (tick w)))) eqn:F3; cbn);
    eexists; (split; [reflexivity|]); cbn; (split; [lia|]);
    intros Hq;
    try match goal with
        | H : faults env ?c ?k = true |- _ =>
            rewrite (quiet_tick env w 3 c k Hq) in H by lia; discriminate
        end;
    intros []; reflexivity.
Qed.

(* ===================================================================== *)
(** * The properties of the specification *)
(* ===================================================================== *)

(** ** Monotonic cursor *)

(** C1, as amended.  For every tracked entity, [lastProcessedBlock] never
    decreases over a history of operations in which each processBlockRange
    job carries a [toBlock] that is not below the cursor its entity has
    when the job runs; it is so, in particular, when the jobs of the entity
    run in ascending order of [toBlock], the first of them not below the
    cursor.  An operation other than processBlockRange leaves the cursor
    as it is, and so does a processBlockRange job of another entity or one
    that fails.  A processBlockRange job of the entity that returns, as it
    does when its three calls are answered, sets the cursor to its
    [toBlock] whatever the cursor was: it compares nothing. *)
Theorem cursor_monotonic_in_order (ops : list (Env * Operation)) (w : World)
    (a : string) (c : Z) (n : Z) :
  cursor a c w = Some n ->
  (in_cursor_order ops w = true ->
     exists n', cursor a c (after_all ops w) = Some n' /\ n <= n') /\
  (ascending_from n (toBlocks_of a c ops) = true ->
     exists n', cursor a c (after_all ops w) = Some n' /\ n <= n') /\
  (forall env op, (forall job, op <> OpProcessBlockRange job) ->
                  cursor a c (after env op w) = Some n) /\
  (forall env job,
     let run := IndexingProcessor.handleProcessBlockRange job env w in
     (quiet env w 3 -> fst run = Returned tt) /\
     (IndexingJob.contractAddress job = a -> IndexingJob.chainId job = c ->
      fst run = Returned tt -> cursor a c (snd run) = Some (IndexingJob.toBlock job)) /\
     (fst run <> Returned tt -> cursor a c (snd run) = Some n) /\
     (IndexingJob.contractAddress job <> a \/ IndexingJob.chainId job <> c ->
      cursor a c (snd run) = Some n)).
Proof.
  intros Hcur. split; [|split; [|split]].
  - revert w n Hcur. induction ops as [|[env op] ops IH]; intros w n Hcur Hord.
    + exists n. split; [exact Hcur | lia].
    + cbn [after_all]. cbn [in_cursor_order] in Hord.
      apply andb_true_iff in Hord as [Hjob Hrest].
      destruct (cursor_after env op w a c n Hcur) as (n1 & Hn1 & Hstep).
      destruct (IH (after env op w) n1 Hn1 Hrest) as (n' & Hn' & Hle).
      exists n'. split; [exact Hn'|].
      destruct Hstep as [->|Hallowed]; [exact Hle|].
      destruct op; cbn in Hallowed; try contradiction.
      destruct Hallowed as (-> & -> & ->).
      unfold cursor in Hcur.
      destruct (List.find _ (indexingProgressRepository w)) as [r|] eqn:Hr; [|discriminate].
      injection Hcur as <-. apply List.find_some in Hr as [Hin Hkey].
      rewrite forallb_forall in Hjob. specialize (Hjob r Hin). rewrite Hkey in Hjob.
      cbn in Hjob. apply Z.leb_le in Hjob. lia.
  - apply cursor_ascending. exact Hcur.
  - intros env op Hop. apply cursor_unchanged; assumption.
  - intros env job run. split; [|split; [|split]].
    + intros Hq. unfold run, IndexingProcessor.handleProcessBlockRange.
      destruct (processBlockRange_runs env w job Hq) as (Hr & _).
      unfold try_catch.
      destruct (IndexingService.processBlockRange job env w) as [o w1]; cbn in *; subst o.
      reflexivity.
    + intros <- <- Hret.
      destruct (handleProcessBlockRange_cases env w job) as [[_ Hp]|[[e He] _]].
      * unfold cursor. fold run in Hp. rewrite Hp. eapply cursor_written. exact Hcur.
      * fold run in He. congruence.
    + intros Hfail.
      destruct (handleProcessBlockRange_cases env w job) as [[Hr _]|[_ Hp]].
      * fold run in Hr. contradiction.
      * unfold cursor. fold run in Hp. rewrite Hp. exact Hcur.
    + intros Hother.
      destruct (cursor_after env (OpProcessBlockRange job) w a c n Hcur)
        as (n' & Hn' & [->|(Ha & Hc & _)]); [exact Hn'|].
      destruct Hother as [Hne|Hne]; congruence.
Qed.

Lemma cursor_monotonic_in_order_witness :
  (exists n', cursor Scenario.address 137
               (after_all [(Scenario.env, OpProcessBlockRange (Scenario.job 100 199));
                           (Scenario.env, OpProcessTokenEvent
                              (ProcessEventJob.mk Scenario.transferEvent Scenario.address 137));
                           (Scenario.env, OpProcessBlockRange (Scenario.job 200 299))]
                  Scenario.scheduled) = Some n' /\ 99 <= n') /\
  cursor Scenario.address 137
    (after Scenario.env (OpProcessBlockRange (Scenario.job 100 199)) Scenario.scheduled)
    = Some 199.
Proof.
  destruct (cursor_monotonic_in_order
           [(Scenario.env, OpProcessBlockRange (Scenario.job 100 199));
            (Scenario.env, OpProcessTokenEvent
               (ProcessEventJob.mk Scenario.transferEvent Scenario.address 137));
            (Scenario.env, OpProcessBlockRange (Scenario.job 200 299))]
           Scenario.scheduled Scenario.address 137 99) as (Hhist & _ & _ & Hjob).
  - vm_compute. reflexivity.
  - split.
    + apply Hhist. vm_compute. reflexivity.
    + destruct (Hjob Scenario.env (Scenario.job 100 199)) as (Hret & Hset & _).
      apply Hset; [reflexivity | reflexivity |].
      apply Hret. intros k q _. reflexivity.
Defined.

(** C1, as stated, fails: the job of [100,199] that completes after the
    job of [200,299] takes the cursor from 299 back to 199. *)
Lemma cursor_can_regress :
  ~ (forall env op w a c n,
       cursor a c w = Some n ->
       exists n', cursor a c (after env op w) = Some n' /\ n <= n').
Proof.
  intros H.
  destruct (H Scenario.env (OpProcessBlockRange (Scenario.job 100 199))
              (after Scenario.env (OpProcessBlockRange (Scenario.job 200 299))
                 Scenario.scheduled)
              Scenario.address 137 299) as (n' & Hn' & Hle).
  - vm_compute. reflexivity.
  - vm_compute in Hn'. injection Hn' as <-. lia.
Qed.

(** ** Idempotent replay *)

(** C2, as amended.  Applying twice the same Transfer event whose arguments
    are well formed and whose key is not yet materialized, with the storage
    calls answered: both applications return; afterwards exactly one record
    has the event's key and the counter of the entity's row was incremented
    once, by the first application; the second application changes neither
    the transfer store nor the progress store nor the failure sink. *)
Theorem transfer_replay_idempotent (env : Env) (w : World) (data : ProcessEventJob.t)
    (r : TokenTransfer.t) :
  let event := ProcessEventJob.event data in
  let key := TokenTransfer.has_key (TokenEvent.transactionHash event)
               (TokenEvent.logIndex event) in
  TokenEvent.eventName event = "Transfer" ->
  transfer_of event (ProcessEventJob.contractAddress data) (ProcessEventJob.chainId data)
    (now w) = Some r ->
  List.find key (tokenTransferRepository w) = None ->
  quiet env w 4 ->
  let first := IndexingService.processTokenEvent data env w in
  let second := IndexingService.processTokenEvent data env (snd first) in
  fst first = Returned tt /\ fst second = Returned tt /\
  tokenTransferRepository (snd second) = tokenTransferRepository w ++ [r] /\
  length (List.filter key (tokenTransferRepository (snd second))) = 1%nat /\
  indexingProgressRepository (snd first) =
    map (fun p => if IndexingProgress.has_key (ProcessEventJob.contractAddress data)
                       (ProcessEventJob.chainId data) p
                  then IndexingProgress.increment_totalEventsProcessed 1 (now w) p
                  else p) (indexingProgressRepository w) /\
  indexingProgressRepository (snd second) = indexingProgressRepository (snd first) /\
  failedEventRepository (snd second) = failedEventRepository w.
Proof.
  intros event key Hname Hr Hfresh Hq first second.
  assert (Hq3 : quiet env w 3) by (intros c k Hk; apply Hq; lia).
  destruct (processTokenEvent_fresh_transfer env w data r Hname Hr Hfresh Hq3)
    as (H1 & H2 & H3 & H4 & H5 & H6).
  fold first in H1, H2, H3, H4, H5, H6.
  assert (Hkey : key r = true) by (eapply transfer_of_has_key; exact Hr).
  assert (Hfound : List.find key (tokenTransferRepository (snd first)) = Some r).
  { rewrite H2, (find_app_fresh _ _ _ Hfresh), Hkey. reflexivity. }
  assert (Hq' : faults env TransferStore (tick (snd first)) = false).
  { rewrite H5. apply Hq. lia. }
  pose proof (processTokenEvent_existing env (snd first) data r Hfound Hq') as Hsecond.
  fold second in Hsecond. rewrite Hsecond. cbn [fst snd].
  cbn [tokenTransferRepository indexingProgressRepository failedEventRepository
       with_logs with_tick].
  rewrite H2, H3, H4. repeat split; try reflexivity; try assumption.
  rewrite List.filter_app, (find_none_filter _ _ Hfresh). cbn. rewrite Hkey. reflexivity.
Qed.

Lemma transfer_replay_idempotent_witness :
  let data := ProcessEventJob.mk Scenario.transferEvent Scenario.address 137 in
  let first := IndexingService.processTokenEvent data Scenario.env Scenario.started in
  let second := IndexingService.processTokenEvent data Scenario.env (snd first) in
  fst second = Returned tt /\
  length (tokenTransferRepository (snd second)) = 1%nat /\
  map IndexingProgress.totalEventsProcessed (indexingProgressRepository (snd second)) = [1].
Proof.
  intros data first second.
  destruct (transfer_replay_idempotent Scenario.env Scenario.started data
              (TokenTransfer.mk "0xaa01" 0 150 "0xb150" Scenario.address
                 "0xf00d" "0xbeef" "2500" 137 1000))
    as (_ & H2 & H3 & _ & H5 & H6 & _).
  - reflexivity.
  - vm_compute. reflexivity.
  - vm_compute. reflexivity.
  - intros c k _. reflexivity.
  - fold first in H3, H5, H6. fold second in H2, H3, H6.
    split; [exact H2|]. split.
    + rewrite H3. reflexivity.
    + rewrite H6, H5. vm_compute. reflexivity.
Defined.

(** C2, as stated, fails: an Approval event is never materialized, so the
    replay is not recognised; after two applications no record has its key
    and the counter was incremented twice. *)
Lemma approval_replay_counts_twice :
  ~ (forall env w data,
       reliable env ->
       List.find (TokenTransfer.has_key
                    (TokenEvent.transactionHash (ProcessEventJob.event data))
                    (TokenEvent.logIndex (ProcessEventJob.event data)))
         (tokenTransferRepository w) = None ->
       let first := IndexingService.processTokenEvent data env w in
       let second := IndexingService.processTokenEvent data env (snd first) in
       length (List.filter (TokenTransfer.has_key
                              (TokenEvent.transactionHash (ProcessEventJob.event data))
                              (TokenEvent.logIndex (ProcessEventJob.event data)))
                 (tokenTransferRepository (snd second))) = 1%nat /\
       map IndexingProgress.totalEventsProcessed (indexingProgressRepository (snd second)) =
       map (fun p => if IndexingProgress.has_key (ProcessEventJob.contractAddress data)
                          (ProcessEventJob.chainId data) p
                     then IndexingProgress.totalEventsProcessed p + 1
                     else IndexingProgress.totalEventsProcessed p)
         (indexingProgressRepository w)).
Proof.
  intros H.
  destruct (H Scenario.env Scenario.started
              (ProcessEventJob.mk Scenario.approvalEvent Scenario.address 137))
    as [Hrecords Hcounter].
  - intros c k. reflexivity.
  - reflexivity.
  - vm_compute in Hrecords. discriminate.
Qed.

(** ** Range coverage *)

(** C3.  For a range [[from, to]] with [from <= to] and a batch size of at
    least 1, the loop of handleStartIndexing, while the entity stays
    syncing and the calls are answered, submits exactly the sub-ranges
    [sub_i = [from + i*batchSize, min(from + (i+1)*batchSize - 1, to)]], in
    this order; each has at most [batchSize] blocks, each starts right
    after the one before, and every block of [[from, to]] lies in exactly
    one of them and no other block in any.  [100, 349] with batch size 100
    gives [100,199], [200,299], [300,349]. *)
Theorem batch_split_covers_range (env : Env) (w : World) (a : string) (c : Z)
    (evs : list string) (from to bs : Z) :
  reliable env ->
  IndexingProcessor.is_syncing
    (List.find (IndexingProgress.has_key (toLowerCase a) c)
       (indexingProgressRepository w)) = true ->
  from <= to -> 1 <= bs ->
  let ranges := subRanges from to bs in
  (forall fuel, (numBatches from to bs <= fuel)%nat ->
     exists w',
       IndexingProcessor.processInBatches fuel a c evs to bs from env w
         = (Returned true, w') /\
       map Job.data (Queue.waiting (blockProcessingQueue w')) =
         map Job.data (Queue.waiting (blockProcessingQueue w)) ++
         map (fun r => ProcessBlockRange (IndexingJob.mk a c (fst r) (snd r) evs)) ranges) /\
  (forall i, (i < numBatches from to bs)%nat ->
     nth_error ranges i =
       Some (from + Z.of_nat i * bs, Z.min (from + (Z.of_nat i + 1) * bs - 1) to)) /\
  Forall (fun r => fst r <= snd r /\ snd r - fst r + 1 <= bs) ranges /\
  (forall i r r', nth_error ranges i = Some r -> nth_error ranges (S i) = Some r' ->
                  fst r' = snd r + 1) /\
  (forall b, length (List.filter (in_range b) ranges) =
             if (Z.leb from b && Z.leb b to)%bool then 1%nat else 0%nat) /\
  subRanges 100 349 100 = [(100, 199); (200, 299); (300, 349)].
Proof.
  intros Hrel Hsync Hle Hbs ranges. repeat split.
  - intros fuel Hfuel. eexists. split.
    + apply processInBatches_runs; assumption.
    + apply submit_all_queue.
  - intros i Hi. unfold ranges, subRanges.
    rewrite nth_error_map, nth_error_seq.
    destruct (Nat.ltb_spec i (numBatches from to bs)); [reflexivity | lia].
  - eapply Forall_impl; [apply subRanges_sizes; assumption|]. cbn. intros r Hr. lia.
  - apply subRanges_consecutive; assumption.
  - intros b. apply subRanges_cover; assumption.
Qed.

Lemma batch_split_covers_range_witness :
  exists w',
    IndexingProcessor.processInBatches 3 Scenario.address 137 Scenario.events 349 100 100
      Scenario.env Scenario.started = (Returned true, w') /\
    map Job.data (Queue.waiting (blockProcessingQueue w')) =
      [ProcessBlockRange (Scenario.job 100 199);
       ProcessBlockRange (Scenario.job 200 299);
       ProcessBlockRange (Scenario.job 300 349)].
Proof.
  destruct (batch_split_covers_range Scenario.env Scenario.started Scenario.address 137
              Scenario.events 100 349 100) as (Hrun & _).
  - intros c k. reflexivity.
  - vm_compute. reflexivity.
  - lia.
  - lia.
  - destruct (Hrun 3%nat) as (w' & Hw' & Hq); [vm_compute; lia|].
    exists w'. split; [exact Hw'|]. rewrite Hq. vm_compute. reflexivity.
Defined.

(** ** The cursor of a sub-range *)

(** C4, as amended.  processBlockRange fetches the events of the sub-range,
    puts one process-event job per event on the event-processing queue (if
    there is any event) and then sets [lastProcessedBlock] to [toBlock], in
    this order, each step only if the one before was answered.  When the
    fetch fails it throws that error, having enqueued nothing and written
    no row; when the enqueue fails it throws that error, the queue and the
    rows being as they were; when the update fails it throws that error,
    the events being enqueued already and the rows as they were; when all
    are answered it returns with the events enqueued and the cursor at
    [toBlock].  In no case has it applied an event or recorded one as
    failed: the cursor advances once the events are enqueued.  The later
    application of an event, failing or not, never changes a cursor. *)
Theorem cursor_advances_after_enqueue (env : Env) (w : World) (job : IndexingJob.t) :
  let fetched := tokenEvents env (IndexingJob.contractAddress job) (IndexingJob.events job)
                   (IndexingJob.fromBlock job) (IndexingJob.toBlock job) in
  let enqueued := map (fun e => ProcessEvent (ProcessEventJob.mk e
                                   (IndexingJob.contractAddress job)
                                   (IndexingJob.chainId job))) fetched in
  let enqueue_fails := (Nat.ltb 0 (length fetched) &&
                        faults env (WorkQueue EVENT_PROCESSING_QUEUE) (S (tick w)))%bool in
  let update := if Nat.ltb 0 (length fetched) then S (S (tick w)) else S (tick w) in
  let run := IndexingService.processBlockRange job env w in
  (faults env Ledger (tick w) = true ->
     fst run = Thrown (CollaboratorError Ledger (tick w)) /\
     indexingProgressRepository (snd run) = indexingProgressRepository w /\
     eventProcessingQueue (snd run) = eventProcessingQueue w) /\
  (faults env Ledger (tick w) = false -> enqueue_fails = true ->
     fst run = Thrown (CollaboratorError (WorkQueue EVENT_PROCESSING_QUEUE) (S (tick w))) /\
     indexingProgressRepository (snd run) = indexingProgressRepository w /\
     eventProcessingQueue (snd run) = eventProcessingQueue w) /\
  (faults env Ledger (tick w) = false -> enqueue_fails = false ->
   faults env ProgressStore update = true ->
     fst run = Thrown (CollaboratorError ProgressStore update) /\
     indexingProgressRepository (snd run) = indexingProgressRepository w /\
     map Job.data (Queue.waiting (eventProcessingQueue (snd run))) =
       map Job.data (Queue.waiting (eventProcessingQueue w)) ++ enqueued) /\
  (faults env Ledger (tick w) = false -> enqueue_fails = false ->
   faults env ProgressStore update = false ->
     fst run = Returned tt /\
     indexingProgressRepository (snd run) =
       map (fun p => if IndexingProgress.has_key (IndexingJob.contractAddress job)
                          (IndexingJob.chainId job) p
                     then IndexingProgress.set_lastProcessedBlock (IndexingJob.toBlock job)
                            (now w) p
                     else p) (indexingProgressRepository w) /\
     map Job.data (Queue.waiting (eventProcessingQueue (snd run))) =
       map Job.data (Queue.waiting (eventProcessingQueue w)) ++ enqueued) /\
  tokenTransferRepository (snd run) = tokenTransferRepository w /\
  failedEventRepository (snd run) = failedEventRepository w /\
  (forall env' w' data a c n,
     cursor a c w' = Some n ->
     cursor a c (after env' (OpProcessTokenEvent data) w') = Some n).
Proof.
  intros fetched enqueued enqueue_fails update run.
  assert (Hqueue : forall e evs',
            map Job.data (Queue.waiting
              (Queue.addBulk
                 (map (fun d => ("process-event", ProcessEvent d,
                                 JobOpts.mk None None (Some 3) (Some 2000)))
                    (map (fun event => ProcessEventJob.mk event
                            (IndexingJob.contractAddress job) (IndexingJob.chainId job))
                       (e :: evs')))
                 (eventProcessingQueue w))) =
            map Job.data (Queue.waiting (eventProcessingQueue w)) ++
            map (fun e => ProcessEvent (ProcessEventJob.mk e
                            (IndexingJob.contractAddress job) (IndexingJob.chainId job)))
              (e :: evs')).
  { intros e evs'. cbn.
    pose proof (addBulk_waiting
      (map (fun e => ProcessEvent (ProcessEventJob.mk e (IndexingJob.contractAddress job)
                                     (IndexingJob.chainId job))) evs')
      "process-event" (Some 3) (Some 2000)
      (Queue.add "process-event"
         (ProcessEvent (ProcessEventJob.mk e (IndexingJob.contractAddress job)
                          (IndexingJob.chainId job)))
         (JobOpts.mk None None (Some 3) (Some 2000)) (eventProcessingQueue w)))
      as (H1 & _).
    rewrite map_map in H1. cbn in H1. rewrite map_map. rewrite H1.
    cbn. rewrite map_app, <- app_assoc. reflexivity. }
  unfold run, update, enqueue_fails, enqueued.
  unfold IndexingService.processBlockRange, BlockchainService.getTokenEvents,
    BullQueue.addBulk, ProgressRepository.update.
  unfold_monad. cbn. fold fetched.
  destruct (faults env Ledger (tick w)) eqn:Fl; cbn.
  { repeat split; try reflexivity; try discriminate.
    intros env' w' data a c n Hcur. apply cursor_unchanged; [discriminate | exact Hcur]. }
  destruct fetched as [|e evs'] eqn:Hevs; cbn.
  - destruct (faults env ProgressStore (S (tick w))) eqn:Fp; cbn;
      repeat split; try reflexivity; try discriminate; try (rewrite app_nil_r; reflexivity);
      (intros env' w' data a c n Hcur; apply cursor_unchanged; [discriminate | exact Hcur]).
  - destruct (faults env (WorkQueue EVENT_PROCESSING_QUEUE) (S (tick w))) eqn:Fq; cbn.
    { repeat split; try reflexivity; try discriminate.
      intros env' w' data a c n Hcur. apply cursor_unchanged; [discriminate | exact Hcur]. }
    specialize (Hqueue e evs'). cbn in Hqueue.
    destruct (faults env ProgressStore (S (S (tick w)))) eqn:Fp; cbn;
      repeat split; try reflexivity; try discriminate; try (intros; exact Hqueue);
      (intros env' w' data a c n Hcur; apply cursor_unchanged; [discriminate | exact Hcur]).
Qed.

Lemma cursor_advances_after_enqueue_witness :
  let run := IndexingService.processBlockRange (Scenario.job 100 199) Scenario.env
               Scenario.scheduled in
  fst run = Returned tt /\
  cursor Scenario.address 137 (snd run) = Some 199 /\
  length (Queue.waiting (eventProcessingQueue (snd run))) = 2%nat /\
  tokenTransferRepository (snd run) = [] /\ failedEventRepository (snd run) = [].
Proof.
  intros run.
  destruct (cursor_advances_after_enqueue Scenario.env Scenario.scheduled
              (Scenario.job 100 199)) as (_ & _ & _ & Hrun & H4 & H5 & _).
  destruct Hrun as (H1 & H2 & H3); [reflexivity | reflexivity | reflexivity |].
  fold run in H1, H2, H3, H4, H5.
  split; [exact H1|]. split; [unfold cursor; rewrite H2; vm_compute; reflexivity|].
  split; [rewrite <- (length_map Job.data), H3; vm_compute; reflexivity|].
  split; [rewrite H4 | rewrite H5]; vm_compute; reflexivity.
Defined.

(** C4, as stated, fails: when processBlockRange has set the cursor, the
    events of the sub-range are neither materialized nor in the failure
    sink; they wait in the event-processing queue. *)
Lemma cursor_advances_before_application :
  ~ (forall env w job,
       quiet env w 3 ->
       forall e,
         In e (tokenEvents env (IndexingJob.contractAddress job) (IndexingJob.events job)
                 (IndexingJob.fromBlock job) (IndexingJob.toBlock job)) ->
         materialized_or_failed e (snd (IndexingService.processBlockRange job env w)) = true).
Proof.
  intros H.
  specialize (H Scenario.env Scenario.scheduled (Scenario.job 100 199)).
  assert (Hq : quiet Scenario.env Scenario.scheduled 3) by (intros c k _; reflexivity).
  specialize (H Hq Scenario.transferEvent).
  assert (Hin : In Scenario.transferEvent
                  (tokenEvents Scenario.env (IndexingJob.contractAddress (Scenario.job 100 199))
                     (IndexingJob.events (Scenario.job 100 199))
                     (IndexingJob.fromBlock (Scenario.job 100 199))
                     (IndexingJob.toBlock (Scenario.job 100 199)))) by (left; reflexivity).
  specialize (H Hin). vm_compute in H. discriminate.
Qed.

(** ** Caught-up transition *)

(** C5, as amended.  A start-indexing run that finds the entity syncing and
    observes [lastProcessedBlock >= currentHeight - 1] sets [isSyncing] to
    false and parks one start-indexing job with a delay of 30000 ms; it
    submits no sub-range and no immediate re-run.  That delay is the shorter
    one: a run that finds blocks to process and is still syncing when the
    range is exhausted parks its re-run with a delay of 60000 ms. *)
Theorem caught_up_schedules_monitoring (env : Env) (w : World) (fuel : nat) (a : string)
    (c : Z) (evs : list string) (p : IndexingProgress.t) :
  List.find (IndexingProgress.has_key (toLowerCase a) c) (indexingProgressRepository w)
    = Some p ->
  IndexingProgress.isSyncing p = true ->
  let run := IndexingProcessor.handleStartIndexing fuel a c evs env w in
  (IndexingProgress.lastProcessedBlock p >= currentBlockNumber env - 1 ->
   quiet env w 4 ->
     fst run = Returned tt /\
     indexingProgressRepository (snd run) =
       map (fun r => if IndexingProgress.has_key (toLowerCase a) c r
                     then IndexingProgress.set_isSyncing false (now w) r else r)
         (indexingProgressRepository w) /\
     blockProcessingQueue (snd run) = blockProcessingQueue w /\
     Queue.waiting (indexingQueue (snd run)) = Queue.waiting (indexingQueue w) /\
     Queue.delayed (indexingQueue (snd run)) =
       Queue.delayed (indexingQueue w) ++
       [Job.mk (Queue.nextId (indexingQueue w)) "start-indexing" (StartIndexing a c evs)
          (JobOpts.mk None (Some 30000) (Some 1) None)]) /\
  (IndexingProgress.lastProcessedBlock p < currentBlockNumber env - 1 ->
   reliable env -> 1 <= batchSize env ->
   (numBatches (IndexingProgress.lastProcessedBlock p + 1) (currentBlockNumber env)
      (batchSize env) <= fuel)%nat ->
     fst run = Returned tt /\
     Queue.waiting (indexingQueue (snd run)) = Queue.waiting (indexingQueue w) /\
     Queue.delayed (indexingQueue (snd run)) =
       Queue.delayed (indexingQueue w) ++
       [Job.mk (Queue.nextId (indexingQueue w)) "start-indexing" (StartIndexing a c evs)
          (JobOpts.mk None (Some 60000) (Some 1) None)]) /\
  30000 < 60000.
Proof.
  intros Hfind Hsync run. split; [|split; [|lia]].
  - intros Hcaught Hq.
    destruct (handleStartIndexing_caught_up env w fuel a c evs p Hfind Hsync Hcaught Hq)
      as (H1 & H2 & H3 & H4 & H5).
    fold run in H1, H2, H3, H4, H5. rewrite H5. cbn. auto.
  - intros Hbehind Hrel Hbs Hfuel.
    destruct (handleStartIndexing_catching_up env w fuel a c evs p Hfind Hsync Hbehind
                Hrel Hbs Hfuel) as (H1 & H2 & H3 & H4).
    fold run in H1, H2, H3, H4. rewrite H4. cbn. auto.
Qed.

Lemma caught_up_schedules_monitoring_witness :
  let run := IndexingProcessor.handleStartIndexing 0 Scenario.address 137 Scenario.events
               Scenario.env Scenario.caught_up in
  fst run = Returned tt /\
  map IndexingProgress.isSyncing (indexingProgressRepository (snd run)) = [false] /\
  blockProcessingQueue (snd run) = Queue.empty /\
  Queue.waiting (indexingQueue (snd run)) = [] /\
  parked_delays (snd run) = [Some 30000].
Proof.
  intros run.
  destruct (caught_up_schedules_monitoring Scenario.env Scenario.caught_up 0
              Scenario.address 137 Scenario.events
              (IndexingProgress.mk Scenario.address 137 348 true 100 0 1000))
    as (Hcaught & _).
  - vm_compute. reflexivity.
  - reflexivity.
  - destruct Hcaught as (H1 & H2 & H3 & H4 & H5).
    + vm_compute. discriminate.
    + intros c k _. reflexivity.
    + fold run in H1, H2, H3, H4, H5. unfold parked_delays.
      rewrite H2, H3, H4, H5. repeat split; try assumption; vm_compute; reflexivity.
Defined.

(** C5, as stated, fails: the recheck that a caught-up run parks has the
    shorter delay, not the longer one. *)
Lemma monitoring_period_not_longer :
  let caught_up := IndexingProcessor.handleStartIndexing 0 Scenario.address 137
                     Scenario.events Scenario.env Scenario.caught_up in
  let catching_up := IndexingProcessor.handleStartIndexing 3 Scenario.address 137
                       Scenario.events Scenario.env Scenario.started in
  parked_delays (snd caught_up) = [Some 30000] /\
  parked_delays (snd catching_up) = [Some 60000] /\
  ~ (forall m r, In (Some m) (parked_delays (snd caught_up)) ->
                 In (Some r) (parked_delays (snd catching_up)) -> m > r).
Proof.
  intros caught_up catching_up.
  assert (H1 : parked_delays (snd caught_up) = [Some 30000]) by (vm_compute; reflexivity).
  assert (H2 : parked_delays (snd catching_up) = [Some 60000]) by (vm_compute; reflexivity).
  split; [exact H1|]. split; [exact H2|].
  intros H. specialize (H 30000 60000). rewrite H1, H2 in H.
  assert (30000 > 60000) by (apply H; left; reflexivity). lia.
Qed.

(** ** Startup recovery *)

(** X1.  When no two configured contracts share an address and
    the calls are answered, the startup recovery pass first resets the
    [isSyncing] flag of every row (in the world [w1] that the reset leaves
    no row is syncing) and only afterwards, from that world on, goes
    through the enabled contracts and starts those that have a row: at the
    end the flag is true on the rows of the enabled contracts that are live
    on the ledger and false on all others, the cursors are untouched, and
    one start-indexing job per resumed contract waits in the indexing
    queue, in configuration order.  No row is created: an enabled contract
    without a row has none at the end, and no job is enqueued for it. *)
Theorem recovery_resets_then_resumes (env : Env) (w : World) :
  reliable env -> distinct_addresses env ->
  exists w1 w2 w',
    AutoResumeService.resetStuckSyncingStates env
      (with_logs (fun ls => ls ++ [(LOG, MsgCheckingContractsToResume)]) w)
      = (Returned tt, w1) /\
    (forall r, In r (indexingProgressRepository w1) -> IndexingProgress.isSyncing r = false) /\
    forEach AutoResumeService.resumeContractIndexing
      (AutoResumeService.enabledContracts (contracts env)) env
      (with_logs (fun ls => ls ++
         [(LOG, MsgFoundEnabledContracts
                  (length (AutoResumeService.enabledContracts (contracts env))))]) w1)
      = (Returned tt, w2) /\
    w' = with_logs (fun ls => ls ++ [(LOG, MsgAutoResumeCompleted)]) w2 /\
    AutoResumeService.resumeIndexing env w = (Returned tt, w') /\
    indexingProgressRepository w' =
      map (recovered_row env (now w)) (indexingProgressRepository w) /\
    indexingQueue w' =
      Queue.addBulk (map start_job (resumed_contracts env (indexingProgressRepository w)))
        (indexingQueue w) /\
    (forall r, In r (indexingProgressRepository w') ->
               IndexingProgress.isSyncing r = resumed_row env r) /\
    map IndexingProgress.lastProcessedBlock (indexingProgressRepository w') =
      map IndexingProgress.lastProcessedBlock (indexingProgressRepository w) /\
    (forall c, In c (AutoResumeService.enabledContracts (contracts env)) ->
               existsb (row_of c) (indexingProgressRepository w) = false ->
               existsb (row_of c) (indexingProgressRepository w') = false /\
               ~ In c (resumed_contracts env (indexingProgressRepository w))).
Proof.
  intros Hrel Hdist.
  destruct (resumeIndexing_run env w Hrel Hdist)
    as (w1 & w2 & Hreset & Hclear & Hloop & Hrun & Hp & Hq).
  exists w1, w2, (with_logs (fun ls => ls ++ [(LOG, MsgAutoResumeCompleted)]) w2).
  split; [exact Hreset|]. split; [exact Hclear|]. split; [exact Hloop|].
  split; [reflexivity|]. split; [exact Hrun|].
  cbn [indexingProgressRepository indexingQueue with_logs].
  split; [exact Hp|]. split; [exact Hq|].
  assert (Hkey : forall c r, row_of c (recovered_row env (now w) r) = row_of c r).
  { intros c r. unfold recovered_row, reset_row.
    destruct (resumed_row env r), (IndexingProgress.isSyncing r); reflexivity. }
  split; [|split].
  - intros r Hin. rewrite Hp in Hin. apply in_map_iff in Hin as (r0 & <- & _).
    assert (Hres : resumed_row env (recovered_row env (now w) r0) = resumed_row env r0).
    { unfold resumed_row. apply existsb_pointwise. intros c. rewrite Hkey. reflexivity. }
    rewrite Hres. unfold recovered_row, reset_row.
    destruct (resumed_row env r0), (IndexingProgress.isSyncing r0) eqn:Hs;
      cbn; auto.
  - rewrite Hp, map_map. apply map_ext. intros r. unfold recovered_row, reset_row.
    destruct (resumed_row env r), (IndexingProgress.isSyncing r); reflexivity.
  - intros c Hin Hrow. split.
    + rewrite Hp. rewrite existsb_row_of_map; [exact Hrow | apply Hkey].
    + unfold resumed_contracts. intros Hc. apply List.filter_In in Hc as [_ Hc].
      rewrite Hrow in Hc. discriminate.
Qed.

Lemma recovery_resets_then_resumes_witness :
  exists w',
    AutoResumeService.resumeIndexing Scenario.env Scenario.scheduled = (Returned tt, w') /\
    map IndexingProgress.isSyncing (indexingProgressRepository w') = [true] /\
    length (Queue.waiting (indexingQueue w')) = 2%nat.
Proof.
  destruct (recovery_resets_then_resumes Scenario.env Scenario.scheduled)
    as (w1 & w2 & w' & _ & _ & _ & _ & Hrun & Hp & Hq & _).
  - intros c k. reflexivity.
  - vm_compute. repeat constructor. intros H. inversion H.
  - exists w'. split; [exact Hrun|]. rewrite Hp, Hq. split; vm_compute; reflexivity.
Defined.

(** C6, on the code.  One address is configured on chains 137 and 1, and
    only the entity on chain 1 has a row.  The pass finds no row for the
    entry of chain 137 and logs that it skips it; it finds the row of
    chain 1 and logs that it resumes it from block 348; its call of
    startIndexing, which is given the address alone, then starts the entry
    of chain 137: it creates that row, with the cursor at 99, and enqueues
    the start-indexing job of chain 137.  The entity that has a row is not
    started, and the one that has none is. *)
Lemma recovery_starts_the_wrong_entry :
  let run := AutoResumeService.resumeIndexing Scenario.env_two_chains
               Scenario.indexed_on_chain_1 in
  fst run = Returned tt /\
  logs (snd run) =
    [(LOG, MsgCheckingContractsToResume);
     (LOG, MsgFoundEnabledContracts 2);
     (LOG, MsgNotPreviouslyIndexed Scenario.usdc);
     (LOG, MsgResuming Scenario.usdc 348);
     (LOG, MsgStartedIndexing Scenario.usdc);
     (LOG, MsgAutoResumeCompleted)] /\
  map (fun r => (IndexingProgress.chainId r, IndexingProgress.lastProcessedBlock r,
                 IndexingProgress.isSyncing r))
    (indexingProgressRepository (snd run)) = [(1, 348, false); (137, 99, true)] /\
  map Job.data (Queue.waiting (indexingQueue (snd run))) =
    [StartIndexing Scenario.address 137 Scenario.events].
Proof. vm_compute. repeat split. Qed.

(** C6 does not hold of the code: startIndexing looks its contract up by
    address alone.  With one address configured on chains 137 and 1 and a
    row for chain 1 only, the pass starts the entry of chain 137, which has
    no row, and creates its row. *)
Lemma recovery_creates_row_for_shared_address :
  ~ (forall env w c,
       reliable env ->
       In c (AutoResumeService.enabledContracts (contracts env)) ->
       existsb (row_of c) (indexingProgressRepository w) = false ->
       existsb (row_of c)
         (indexingProgressRepository (snd (AutoResumeService.resumeIndexing env w))) = false).
Proof.
  intros H.
  specialize (H Scenario.env_two_chains Scenario.indexed_on_chain_1 Scenario.config).
  assert (Hrel : reliable Scenario.env_two_chains) by (intros c k; reflexivity).
  assert (Hin : In Scenario.config
                  (AutoResumeService.enabledContracts (contracts Scenario.env_two_chains)))
    by (left; reflexivity).
  assert (Hrow : existsb (row_of Scenario.config)
                   (indexingProgressRepository Scenario.indexed_on_chain_1) = false)
    by (vm_compute; reflexivity).
  specialize (H Hrel Hin Hrow). vm_compute in H. discriminate.
Qed.

(** ** Stop *)

(** C7.  stopIndexing throws the not-found error, leaving the stores and
    the queues as they are, when the entity has no progress row.  Otherwise,
    with the two storage calls answered, it sets [isSyncing] to false on
    the entity's row and then runs the cancellation, and it returns
    normally whatever the queue calls do.  Either no waiting or delayed job
    of the entity is left in any queue, or a queue call has failed and
    that error is in the log, just before the entry of success; no queue
    gains a pending job.  With the queue calls answered no job of the
    entity is left pending and, the job ids of a queue being distinct,
    exactly the other jobs of the queue are.  A job of the entity is one
    that carries a contract address which is the entity's up to the case
    of its letters, on the entity's chain. *)
Theorem stop_fails_or_clears_flag (env : Env) (w : World) (a : string) (chainId : option Z) :
  let c := match chainId with Some c => c | None => 137 end in
  let row := List.find (IndexingProgress.has_key (toLowerCase a) c)
               (indexingProgressRepository w) in
  let run := IndexingService.stopIndexing a chainId env w in
  (row = None -> faults env ProgressStore (tick w) = false ->
     fst run = Thrown (NoIndexingProgress a) /\
     indexingProgressRepository (snd run) = indexingProgressRepository w /\
     tokenTransferRepository (snd run) = tokenTransferRepository w /\
     failedEventRepository (snd run) = failedEventRepository w /\
     (forall q, queue q (snd run) = queue q w)) /\
  (row <> None ->
   faults env ProgressStore (tick w) = false ->
   faults env ProgressStore (S (tick w)) = false ->
     fst run = Returned tt /\
     indexingProgressRepository (snd run) =
       map (fun r => if IndexingProgress.has_key (toLowerCase a) c r
                     then IndexingProgress.set_isSyncing false (now w) r else r)
         (indexingProgressRepository w) /\
     ((forall q j, In j (pending (queue q (snd run))) -> ~ entity_job a c j) \/
      (exists q k ls, faults env (WorkQueue q) k = true /\
         logs (snd run) =
           ls ++ [(ERROR, MsgFailedToRemoveJobs a (CollaboratorError (WorkQueue q) k));
                  (LOG, MsgSuccessfullyStopped a)])) /\
     (forall q, incl (pending (queue q (snd run))) (pending (queue q w))) /\
     ((forall q k, faults env (WorkQueue q) k = false) ->
      forall q,
        (forall j, In j (pending (queue q (snd run))) -> ~ entity_job a c j) /\
        (List.NoDup (map Job.id (pending (queue q w))) ->
         forall j,
           (In j (Queue.waiting (queue q (snd run))) <->
            In j (Queue.waiting (queue q w)) /\ ~ entity_job a c j) /\
           (In j (Queue.delayed (queue q (snd run))) <->
            In j (Queue.delayed (queue q w)) /\ ~ entity_job a c j)))).
Proof.
  intros c row run. split.
  - intros Hrow Hq. apply stopIndexing_not_found; assumption.
  - intros Hrow Hq1 Hq2. destruct row as [p|] eqn:Hp; [|congruence].
    destruct (stopIndexing_found_run env w a chainId p Hp Hq1 Hq2)
      as (w0 & w1 & Hq0 & Hp0 & _ & _ & Hrm & Hrun).
    fold c in Hp0, Hrm.
    destruct (removeContractJobs_cases a c env w0) as (w1' & Hrm' & Hcase & Hincl).
    rewrite Hrm in Hrm'. injection Hrm' as <-.
    pose proof (removeContractJobs_progress a c env w0) as Hsame.
    rewrite Hrm in Hsame. cbn in Hsame. unfold unchanged in Hsame.
    assert (Hnone : (forall q, queue q w1 =
                       remove_matching a c (pending (queue q w0)) (queue q w0)) ->
                    forall q j, In j (pending (queue q w1)) -> ~ entity_job a c j).
    { intros Hall q j Hj Hent. rewrite Hall in Hj.
      destruct (remove_matching_pending a c (queue q w0)) as [Hgone _].
      apply job_of_spec in Hent. rewrite (Hgone j Hj) in Hent. discriminate. }
    unfold run. rewrite Hrun. cbn [fst snd].
    cbn [indexingProgressRepository logs with_logs].
    split; [reflexivity|]. split; [congruence|]. split; [|split].
    + destruct Hcase as [Hall|(q & k & Hk & Hlast)].
      * left. intros q j. rewrite queue_with_logs. apply Hnone. exact Hall.
      * right. exists q, k.
        destruct (logs w1) as [|l ls _] using rev_ind; [discriminate|].
        rewrite last_snoc in Hlast. injection Hlast as ->.
        exists ls. split; [exact Hk|]. rewrite <- app_assoc. reflexivity.
    + intros q. rewrite queue_with_logs, <- (Hq0 q). apply Hincl.
    + intros Hanswer q. rewrite queue_with_logs.
      assert (Hall : forall q, queue q w1 =
                       remove_matching a c (pending (queue q w0)) (queue q w0)).
      { destruct Hcase as [Hall|(q' & k & Hk & _)]; [exact Hall|].
        rewrite Hanswer in Hk. discriminate. }
      split; [apply Hnone; exact Hall|].
      intros Hnd j. rewrite Hall, Hq0.
      destruct (remove_matching_unique a c (queue q w) Hnd) as [Hw Hd].
      cbn zeta in Hw, Hd. rewrite Hw, Hd, !List.filter_In, !negb_true_iff.
      rewrite <- (job_of_spec a c j).
      destruct (IndexingService.job_of a c j); split; split; intros [H1 H2];
        (split; [exact H1|]); first [discriminate | congruence | reflexivity | idtac];
        try (exfalso; apply H2; reflexivity).
Qed.

Lemma stop_fails_or_clears_flag_witness :
  fst (IndexingService.stopIndexing Scenario.usdc None Scenario.env Scenario.fresh)
    = Thrown (NoIndexingProgress Scenario.usdc) /\
  (let run := IndexingService.stopIndexing Scenario.usdc None Scenario.env Outage.shared_queue in
   let mine := Job.mk 1 "process-block-range" (ProcessBlockRange (Scenario.job 100 199))
                 (JobOpts.mk None None (Some 3) (Some 5000)) in
   let other := Job.mk 4 "process-block-range"
                  (ProcessBlockRange (IndexingJob.mk Outage.stranger 137 100 199
                                        Scenario.events))
                  (JobOpts.mk None None (Some 3) (Some 5000)) in
   fst run = Returned tt /\
   map IndexingProgress.isSyncing (indexingProgressRepository (snd run)) = [false] /\
   In mine (Queue.waiting (queue BLOCK_PROCESSING_QUEUE Outage.shared_queue)) /\
   ~ In mine (Queue.waiting (queue BLOCK_PROCESSING_QUEUE (snd run))) /\
   In other (Queue.waiting (queue BLOCK_PROCESSING_QUEUE (snd run)))) /\
  (let run := IndexingService.stopIndexing Scenario.usdc None Scenario.env_queues_down
                Scenario.scheduled in
   fst run = Returned tt /\
   map IndexingProgress.isSyncing (indexingProgressRepository (snd run)) = [false]).
Proof.
  split; [|split].
  - destruct (stop_fails_or_clears_flag Scenario.env Scenario.fresh Scenario.usdc None)
      as (Hnone & _).
    apply Hnone; reflexivity.
  - destruct (stop_fails_or_clears_flag Scenario.env Outage.shared_queue Scenario.usdc None)
      as (_ & Hsome).
    destruct Hsome as (H1 & H2 & _ & _ & Hgone).
    + vm_compute. discriminate.
    + reflexivity.
    + reflexivity.
    + cbn zeta. split; [exact H1|]. split; [rewrite H2; vm_compute; reflexivity|].
      split; [vm_compute; auto|].
      destruct (Hgone (fun _ _ => eq_refl) BLOCK_PROCESSING_QUEUE) as [_ Hexact].
      assert (Hnd : List.NoDup (map Job.id (pending (queue BLOCK_PROCESSING_QUEUE
                                                       Outage.shared_queue)))).
      { vm_compute. repeat constructor; cbn; lia. }
      specialize (Hexact Hnd).
      split.
      * intros Hin.
        match type of Hin with In ?j _ => destruct (Hexact j) as [[Hw _] _] end.
        destruct (Hw Hin) as [_ Hnot]. apply Hnot.
        unfold entity_job. cbn [Job.data data_contractAddress data_chainId Scenario.job
                                  IndexingJob.contractAddress IndexingJob.chainId].
        split; [discriminate | split; [vm_compute; reflexivity | reflexivity]].
      * match goal with |- In ?j _ => destruct (Hexact j) as [[_ Hw] _] end.
        apply Hw. split; [vm_compute; auto|].
        intros (_ & Haddr & _). vm_compute in Haddr. discriminate.
  - destruct (stop_fails_or_clears_flag Scenario.env_queues_down Scenario.scheduled
                Scenario.usdc None) as (_ & Hsome).
    destruct Hsome as (H1 & H2 & _).
    + vm_compute. discriminate.
    + reflexivity.
    + reflexivity.
    + cbn zeta. split; [exact H1|]. rewrite H2. vm_compute. reflexivity.
Defined.

(** ** System health *)

(** C8, as amended.  getSystemHealth returns a report whatever its
    collaborators do: its three checks catch their own errors, and its own
    handler, with 'System health check failed', is never reached.  The
    report is unhealthy exactly when the blockchain check or the database
    check has failed, and the issues list then says which: it is so when
    the first height query throws ('Blockchain RPC connection failed') and
    when the sum over the progress rows or the count of the failed events
    throws ('Database connection failed').  An error inside the indexing
    check, of its find() or of its own height query, is caught there and
    reported as zero contracts; it adds no issue, and if the other two
    checks are connected and the failed events are at most 100 the report
    is healthy with an empty issues list. *)
Theorem system_health_never_throws (env : Env) (w : World) :
  exists b i d w1 w2 w3 report,
    HealthMonitoringService.checkBlockchainHealth env w = (Returned b, w1) /\
    HealthMonitoringService.checkIndexingHealth env w1 = (Returned i, w2) /\
    HealthMonitoringService.checkDatabaseHealth env w2 = (Returned d, w3) /\
    HealthMonitoringService.getSystemHealth env w = (Returned report, w3) /\
    SystemHealthStatus.blockchain report = b /\
    SystemHealthStatus.indexing report = i /\
    SystemHealthStatus.database report = d /\
    (faults env Ledger (tick w) = true ->
       SystemHealthStatus.status report = unhealthy /\
       In BlockchainRpcConnectionFailed (SystemHealthStatus.issues report)) /\
    (faults env ProgressStore (tick w2) = true \/
     faults env FailureSink (S (tick w2)) = true ->
       SystemHealthStatus.status report = unhealthy /\
       In DatabaseConnectionFailed (SystemHealthStatus.issues report)) /\
    (faults env ProgressStore (tick w1) = true \/
     faults env Ledger (S (tick w1)) = true ->
       i = IndexingHealth.mk 0 0 ∅ 0 /\
       (BlockchainHealth.connected b = true -> DatabaseHealth.connected d = true ->
        (DatabaseHealth.failedEvents d <= 100)%nat ->
        SystemHealthStatus.status report = healthy /\
        SystemHealthStatus.issues report = [])) /\
    (SystemHealthStatus.status report = unhealthy <->
     BlockchainHealth.connected b = false \/ DatabaseHealth.connected d = false) /\
    (BlockchainHealth.connected b = false <->
     In BlockchainRpcConnectionFailed (SystemHealthStatus.issues report)) /\
    (DatabaseHealth.connected d = false <->
     In DatabaseConnectionFailed (SystemHealthStatus.issues report)) /\
    (DatabaseHealth.connected d = false <->
     faults env ProgressStore (tick w2) = true \/
     faults env FailureSink (S (tick w2)) = true) /\
    (SystemHealthStatus.status report = healthy <-> SystemHealthStatus.issues report = []) /\
    ~ In SystemHealthCheckFailed (SystemHealthStatus.issues report).
Proof.
  destruct (getSystemHealth_parts env w)
    as (b & i & d & w1 & w2 & w3 & report & Hb & Hi & Hd & Hrun & Eb & Ei & Ed &
        Hrpc & Hdb & Hun & Hok & Hnever & Hzero).
  exists b, i, d, w1, w2, w3, report.
  split; [exact Hb|]. split; [exact Hi|]. split; [exact Hd|]. split; [exact Hrun|].
  split; [exact Eb|]. split; [exact Ei|]. split; [exact Ed|].
  assert (Hdbf : DatabaseHealth.connected d = false <->
                 faults env ProgressStore (tick w2) = true \/
                 faults env FailureSink (S (tick w2)) = true).
  { split.
    - apply (checkDatabaseHealth_connected env w2 d w3 Hd).
    - intros Hf. apply (checkDatabaseHealth_fault env w2 d w3 Hf Hd). }
  split.
  { intros Hf. pose proof (checkBlockchainHealth_fault env w b w1 Hf Hb) as Hc.
    split; [apply Hun; left; exact Hc | apply Hrpc; exact Hc]. }
  split.
  { intros Hf. apply Hdbf in Hf. split; [apply Hun; right; exact Hf | apply Hdb; exact Hf]. }
  split.
  { intros Hf. pose proof (checkIndexingHealth_fault env w1 i w2 Hf Hi) as Hz.
    split; [exact Hz | apply Hzero; exact Hz]. }
  repeat split; first [apply Hun | apply Hrpc | apply Hdb | apply Hdbf | apply Hok | exact Hnever].
Qed.

Lemma system_health_never_throws_witness :
  exists report w',
    HealthMonitoringService.getSystemHealth Scenario.env_ledger_down Scenario.scheduled
      = (Returned report, w') /\
    SystemHealthStatus.status report = unhealthy /\
    In BlockchainRpcConnectionFailed (SystemHealthStatus.issues report).
Proof.
  destruct (system_health_never_throws Scenario.env_ledger_down Scenario.scheduled)
    as (b & i & d & w1 & w2 & w3 & report & _ & _ & _ & Hrun & _ & _ & _ & Hledger & _).
  exists report, w3. split; [exact Hrun|]. apply Hledger. reflexivity.
Defined.

(** C8, as stated, fails: the find() of the indexing check throws, and the
    report is healthy with no issue. *)
Lemma indexing_check_failure_is_not_reported :
  ~ (forall env w c k report w',
       HealthMonitoringService.getSystemHealth env w = (Returned report, w') ->
       (tick w <= k < tick w')%nat -> faults env c k = true ->
       SystemHealthStatus.status report = unhealthy /\
       SystemHealthStatus.issues report <> []).
Proof.
  intros H.
  destruct (HealthMonitoringService.getSystemHealth Outage.env_find_fails Scenario.scheduled)
    as [o w'] eqn:Hrun.
  assert (Ho : match o with
               | Returned r => SystemHealthStatus.status r = healthy /\
                               SystemHealthStatus.issues r = []
               | _ => False
               end).
  { replace o with (fst (HealthMonitoringService.getSystemHealth Outage.env_find_fails
                           Scenario.scheduled)) by (rewrite Hrun; reflexivity).
    vm_compute. split; reflexivity. }
  assert (Ht : tick w' = (tick Scenario.scheduled + 4)%nat).
  { replace w' with (snd (HealthMonitoringService.getSystemHealth Outage.env_find_fails
                            Scenario.scheduled)) by (rewrite Hrun; reflexivity).
    vm_compute. reflexivity. }
  destruct o as [report| |]; try contradiction.
  destruct Ho as [Hs _].
  destruct (H Outage.env_find_fails Scenario.scheduled ProgressStore (S (tick Scenario.scheduled))
              report w' Hrun) as [Hst _].
  - rewrite Ht. lia.
  - vm_compute. reflexivity.
  - congruence.
Qed.

(** ** Shutdown drain *)

(** C9, as amended.  When every awaited call of the drain settles, within
    [L] ms, the shutdown with fuel for thirty rounds returns: it marks the
    syncing rows as stopped, waits, closes the queues, in this order, and
    never throws.  The wait makes passes over the active jobs of the three
    queues and pauses 1000 ms after each pass that counts some; it ends
    with the first pass that counts none, or with a warning at the first
    head of the loop that finds 30000 ms or more gone, after at most thirty
    passes.  The timeout is tested at the head of the loop only, so the
    wait may last longer than 30000 ms, but less than 31000 + 3 L, and
    the shutdown less than 31000 + 7 L.  No queue is touched before the
    wait has ended.  A call that never settles is not bounded by the
    timeout: when the first query of the active jobs stays pending, the
    shutdown never comes back, whatever the fuel, and closes no queue. *)
Theorem shutdown_drain_bounded (env : Env) (w : World) (fuel : nat) :
  let w0 := with_logs (fun ls => ls ++ [(LOG, MsgShutdownInitiated)]) w in
  (forall L, settles_within env L -> (30 <= fuel)%nat ->
     exists w1 w2 w3 k,
       ShutdownService.markSyncingAsStopped env w0 = (Returned tt, w1) /\
       ShutdownService.waitForActiveJobs fuel None env w1 = (Returned tt, w2) /\
       ShutdownService.closeQueues env w2 = (Returned tt, w3) /\
       ShutdownService.onApplicationShutdown fuel env w =
         (Returned tt,
          with_logs (fun ls => ls ++ [(LOG, MsgGracefulShutdownCompleted)]) w3) /\
       (k <= 30)%nat /\
       (forall j, (j < k)%nat -> activeSeen env (tick w1 + 3 * j) <> 0%nat) /\
       ((activeSeen env (tick w1 + 3 * k) = 0%nat /\
         now w2 - now w1 < 30000 + 3 * L /\
         last (logs w2) = Some (LOG, MsgAllJobsCompleted)) \/
        (30000 <= now w2 - now w1 /\
         last (logs w2) = Some (WARN, MsgTimeoutReached))) /\
       now w1 + 1000 * Z.of_nat k <= now w2 /\
       now w2 <= now w1 + 1000 * Z.of_nat k + 3 * L * (Z.of_nat k + 1) /\
       now w2 - now w1 < 31000 + 3 * L /\
       now w3 - now w < 31000 + 7 * L /\
       (forall q, queue q w2 = queue q w) /\
       (quiet env w2 3 -> forall q, Queue.closed (queue q w3) = true)) /\
  (settles env ProgressStore (tick w) <> None ->
   settles env (WorkQueue INDEXING_QUEUE) (S (tick w)) = None ->
     fst (ShutdownService.onApplicationShutdown fuel env w) = OutOfFuel /\
     forall q, queue q (snd (ShutdownService.onApplicationShutdown fuel env w)) = queue q w).
Proof.
  intros w0. split.
  - intros L Hs Hfuel.
    pose proof (settles_within_nonneg env L Hs) as HL.
    destruct (markSyncingAsStopped_run env w0 L Hs) as (w1 & Hmark & Ht1 & Hn1 & Hq1).
    set (w1' := with_logs (fun ls => ls ++ [(LOG, MsgWaitingForActiveJobs)]) w1).
    destruct (waitLoop_spec env (now w1') L Hs fuel 0 w1')
      as (k & w2 & Hwait & Hk & Hbusy & Hend & Hlo & Hhi & Hb & Hq2 & _); [lia | lia | lia | lia |].
    change (now w1') with (now w1) in *. change (tick w1') with (tick w1) in *.
    destruct (closeQueues_run env w2 L Hs) as (w3 & Hclose & Hn3 & Hclosed).
    assert (Hwait' : ShutdownService.waitForActiveJobs fuel None env w1 = (Returned tt, w2)).
    { unfold ShutdownService.waitForActiveJobs. unfold bind at 1, logger at 1, modify at 1.
      unfold bind at 1, get at 1. exact Hwait. }
    exists w1, w2, w3, k.
    split; [exact Hmark|]. split; [exact Hwait'|]. split; [exact Hclose|]. split.
    { unfold ShutdownService.onApplicationShutdown. unfold bind at 1, logger at 1, modify at 1.
      fold w0. apply try_catch_run.
      rewrite (bind_run _ _ env w0 tt w1 Hmark), (bind_run _ _ env w1 tt w2 Hwait'),
        (bind_run _ _ env w2 tt w3 Hclose). reflexivity. }
    split; [lia|]. split; [exact Hbusy|]. split.
    { destruct Hend as [(He0 & He1 & _ & He3)|(He1 & _ & He3)]; [left | right]; auto. }
    split; [exact Hlo|]. split; [exact Hhi|]. split; [exact Hb|].
    assert (Hn0 : now w0 = now w) by reflexivity.
    split; [lia|]. split; [|exact Hclosed].
    intros q. rewrite Hq2. unfold w1'. rewrite queue_with_logs, Hq1. unfold w0.
    apply queue_with_logs.
  - intros Hupdate Hpending.
    destruct (settles env ProgressStore (tick w)) as [d|] eqn:Ed; [|congruence].
    unfold ShutdownService.onApplicationShutdown, ShutdownService.markSyncingAsStopped,
      ShutdownService.waitForActiveJobs, ProgressRepository.update, await_settled.
    unfold_monad. cbn. rewrite Ed.
    destruct (faults env ProgressStore (tick w)); cbn;
      [|destruct (length (List.filter IndexingProgress.isSyncing (indexingProgressRepository w)));
        cbn];
      destruct fuel; cbn; unfold BullQueue.getActive, await_settled, outOfFuel;
      unfold_monad; cbn; rewrite ?Z.sub_diag; cbn; rewrite ?Hpending; cbn;
      (split; [reflexivity | intros []; reflexivity]).
Qed.

Lemma shutdown_drain_bounded_witness :
  exists w',
    ShutdownService.onApplicationShutdown 30 Scenario.env_slow Scenario.scheduled
      = (Returned tt, w') /\
    now w' = now Scenario.scheduled + 32500 /\
    In (WARN, MsgTimeoutReached) (logs w') /\
    forall q, Queue.closed (queue q w') = true.
Proof.
  destruct (shutdown_drain_bounded Scenario.env_slow Scenario.scheduled 30) as [Hdrain _].
  destruct (Hdrain 250) as (w1 & w2 & w3 & k & Hmark & Hwait & Hclose & Hrun & _).
  - intros c k. exists 250%N. split; [reflexivity | lia].
  - lia.
  - eexists. split; [exact Hrun|].
    vm_compute in Hmark. injection Hmark as <-.
    vm_compute in Hwait. injection Hwait as <-.
    vm_compute in Hclose. injection Hclose as <-.
    split; [vm_compute; reflexivity|]. split.
    + vm_compute. repeat (first [left; reflexivity | right]).
    + intros []; vm_compute; reflexivity.
Defined.

(** C9, as stated, fails: with a block-processing queue whose query of the
    active jobs stays pending, the shutdown does not terminate. *)
Lemma shutdown_awaits_pending_call :
  (forall fuel,
     fst (ShutdownService.onApplicationShutdown fuel Scenario.env_hung Scenario.scheduled)
       = OutOfFuel) /\
  ~ (forall env w, exists fuel w',
       ShutdownService.onApplicationShutdown fuel env w = (Returned tt, w')).
Proof.
  assert (Hhung : forall fuel,
            fst (ShutdownService.onApplicationShutdown fuel Scenario.env_hung
                   Scenario.scheduled) = OutOfFuel).
  { intros [|fuel]; vm_compute; reflexivity. }
  split; [exact Hhung|].
  intros H. destruct (H Scenario.env_hung Scenario.scheduled) as (fuel & w' & Hrun).
  specialize (Hhung fuel). rewrite Hrun in Hhung. discriminate.
Qed.

(** ** Approval events *)

(** C10.  For an Approval event whose key is not in the transfer store,
    processTokenEvent leaves the transfer store as it is, whatever the
    collaborators do; when the two storage calls are answered it returns,
    has incremented [totalEventsProcessed] of the entity's row by one and
    has recorded no failure.  The counter therefore exceeds the number of
    materialized records. *)
Theorem approval_counted_not_materialized (env : Env) (w : World)
    (data : ProcessEventJob.t) :
  let event := ProcessEventJob.event data in
  TokenEvent.eventName event = "Approval" ->
  List.find (TokenTransfer.has_key (TokenEvent.transactionHash event)
               (TokenEvent.logIndex event)) (tokenTransferRepository w) = None ->
  let run := IndexingService.processTokenEvent data env w in
  tokenTransferRepository (snd run) = tokenTransferRepository w /\
  (quiet env w 2 ->
     fst run = Returned tt /\
     indexingProgressRepository (snd run) =
       map (fun p => if IndexingProgress.has_key (ProcessEventJob.contractAddress data)
                          (ProcessEventJob.chainId data) p
                     then IndexingProgress.increment_totalEventsProcessed 1 (now w) p
                     else p) (indexingProgressRepository w) /\
     failedEventRepository (snd run) = failedEventRepository w).
Proof.
  intros event Hname Hfresh run. unfold run, event in *.
  unfold IndexingService.processTokenEvent, IndexingService.storeFailedEvent,
    TransferRepository.findOne, ProgressRepository.update, FailedEventRepository.save.
  unfold_monad. cbn. rewrite Hfresh, Hname. cbn. split.
  - case_faults; reflexivity.
  - intros Hq. quiet_rewrite Hq. cbn. quiet_rewrite Hq. cbn. repeat split; reflexivity.
Qed.

Lemma approval_counted_not_materialized_witness :
  let run := IndexingService.processTokenEvent
               (ProcessEventJob.mk Scenario.approvalEvent Scenario.address 137)
               Scenario.env Scenario.started in
  fst run = Returned tt /\
  tokenTransferRepository (snd run) = [] /\
  map IndexingProgress.totalEventsProcessed (indexingProgressRepository (snd run)) = [1].
Proof.
  intros run.
  destruct (approval_counted_not_materialized Scenario.env Scenario.started
              (ProcessEventJob.mk Scenario.approvalEvent Scenario.address 137))
    as (Hstore & Hcount).
  - reflexivity.
  - reflexivity.
  - destruct Hcount as (H1 & H2 & _); [intros c k _; reflexivity|].
    fold run in Hstore, H1, H2.
    split; [exact H1|]. split; [rewrite Hstore; reflexivity|].
    rewrite H2. vm_compute. reflexivity.
Defined.

(** * Further properties of the code *)

(** *** startIndexing *)

(** X2.  startIndexing of an address that is not configured, or whose
    entry is disabled, throws 'not configured or disabled' before any call
    to a collaborator: no row, no job, only the error in the log. *)
Theorem startIndexing_rejects_unconfigured (env : Env) (w : World) (a : string) :
  (forall c, fst (IndexingService.getContractConfig a env w) = Returned (Some c) ->
             ContractConfig.enabled c = false) ->
  IndexingService.startIndexing a env w =
    (Thrown (NotConfiguredOrDisabled a),
     with_logs (fun ls => ls ++ [(ERROR, MsgFailedToStartIndexing a
                                           (NotConfiguredOrDisabled a))]) w).
Proof.
  intros H. unfold IndexingService.startIndexing.
  unfold IndexingService.getContractConfig in *. unfold_monad. cbn in *.
  destruct (option_map snd _) as [c|] eqn:Hc.
  - rewrite (H c eq_refl). reflexivity.
  - reflexivity.
Qed.

Lemma startIndexing_rejects_unconfigured_witness :
  fst (IndexingService.startIndexing Outage.stranger Scenario.env Scenario.fresh)
    = Thrown (NotConfiguredOrDisabled Outage.stranger).
Proof.
  rewrite (startIndexing_rejects_unconfigured Scenario.env Scenario.fresh Outage.stranger).
  - reflexivity.
  - intros c H. vm_compute in H. discriminate.
Defined.

(** X3.  When the ledger does not answer the code query, the validation
    answers false and startIndexing of a configured contract throws
    'Invalid contract address': the outage reads as a bad address.  No
    row is written and no job enqueued. *)
Theorem startIndexing_ledger_outage (env : Env) (w : World) (a : string)
    (c : ContractConfig.t) :
  fst (IndexingService.getContractConfig a env w) = Returned (Some c) ->
  ContractConfig.enabled c = true ->
  faults env Ledger (tick w) = true ->
  let run := IndexingService.startIndexing a env w in
  fst run = Thrown (InvalidContractAddress a) /\
  indexingProgressRepository (snd run) = indexingProgressRepository w /\
  (forall q, queue q (snd run) = queue q w) /\
  tick (snd run) = S (tick w).
Proof.
  intros Hc Hen Hf. unfold IndexingService.startIndexing.
  unfold IndexingService.getContractConfig, BlockchainService.validateContractAddress in *.
  unfold_monad. cbn in *. injection Hc as Hc. rewrite Hc. rewrite Hen. cbn. rewrite Hf. cbn.
  repeat split; try reflexivity; intros []; reflexivity.
Qed.

Lemma startIndexing_ledger_outage_witness :
  fst (IndexingService.startIndexing Scenario.usdc Scenario.env_ledger_down Scenario.fresh)
    = Thrown (InvalidContractAddress Scenario.usdc).
Proof.
  destruct (startIndexing_ledger_outage Scenario.env_ledger_down Scenario.fresh Scenario.usdc
              Scenario.config) as (H & _).
  - vm_compute. reflexivity.
  - reflexivity.
  - reflexivity.
  - exact H.
Defined.

Lemma startIndexing_existing env w a c p :
  fst (IndexingService.getContractConfig a env w) = Returned (Some c) ->
  ContractConfig.enabled c = true ->
  hasCode env a = true ->
  List.find (IndexingProgress.has_key (toLowerCase a) (ContractConfig.chainId c))
    (indexingProgressRepository w) = Some p ->
  quiet env w 4 ->
  IndexingService.startIndexing a env w =
    (Returned tt,
     with_logs (fun ls => ls ++ [(LOG, MsgStartedIndexing a)])
       (with_tick (fun t => t + 4)%nat
          (with_queue INDEXING_QUEUE
             (Queue.add "start-indexing"
                (StartIndexing (toLowerCase a) (ContractConfig.chainId c)
                   (ContractConfig.events c))
                (JobOpts.mk (Some 1) (Some 0) None None))
             (with_progress
                (map (fun r => if IndexingProgress.has_key (toLowerCase a)
                                    (ContractConfig.chainId c) r
                               then IndexingProgress.set_isSyncing true (now w) r else r))
                w)))).
Proof.
  intros Hc Hen Hcode Hp Hq. unfold IndexingService.startIndexing.
  unfold IndexingService.getContractConfig, BlockchainService.validateContractAddress,
    ProgressRepository.findOne, ProgressRepository.update, BullQueue.add in *.
  unfold_monad. cbn in *. injection Hc as Hc. rewrite Hc, Hen. cbn.
  quiet_rewrite Hq. cbn. rewrite Hcode. cbn. quiet_rewrite Hq. cbn. rewrite Hp. cbn.
  quiet_rewrite Hq. cbn. quiet_rewrite Hq. cbn.
  f_equal. unfold with_logs, with_tick, with_queue, with_progress. cbn. f_equal. lia.
Qed.


Lemma find_map_flag a c b t rows :
  List.find (IndexingProgress.has_key a c)
    (map (fun r => if IndexingProgress.has_key a c r
                   then IndexingProgress.set_isSyncing b t r else r) rows) =
  option_map (IndexingProgress.set_isSyncing b t) (List.find (IndexingProgress.has_key a c) rows).
Proof.
  induction rows as [|r rows IH]; cbn; [reflexivity|].
  destruct (IndexingProgress.has_key a c r) eqn:Hk; cbn.
  - change (IndexingProgress.has_key a c (IndexingProgress.set_isSyncing b t r))
      with (IndexingProgress.has_key a c r). rewrite Hk. reflexivity.
  - rewrite Hk. exact IH.
Qed.



Lemma stopIndexing_run env w a chainId p :
  let c := match chainId with Some c => c | None => 137 end in
  List.find (IndexingProgress.has_key (toLowerCase a) c) (indexingProgressRepository w)
    = Some p ->
  reliable env ->
  exists w',
    IndexingService.stopIndexing a chainId env w = (Returned tt, w') /\
    indexingProgressRepository w' =
      map (fun r => if IndexingProgress.has_key (toLowerCase a) c r
                    then IndexingProgress.set_isSyncing false (now w) r else r)
        (indexingProgressRepository w) /\
    forall q,
      (forall j, In j (pending (queue q w')) -> IndexingService.job_of a c j = false) /\
      incl (pending (queue q w')) (pending (queue q w)).
Proof.
  intros c Hfind Hrel.
  unfold IndexingService.stopIndexing, ProgressRepository.findOne, ProgressRepository.update.
  fold c. remember (IndexingService.removeContractJobs a c) as rm eqn:Hrm.
  unfold_monad. cbn. rewrite !Hrel, Hfind. cbn. rewrite !Hrel. cbn.
  match goal with
  | |- context [rm env ?w0] =>
      destruct (removeContractJobs_cancels a c env w0 Hrel) as (w3 & Hrun & Hq);
      pose proof (removeContractJobs_progress a c env w0) as Hsame;
      rewrite <- Hrm in Hrun, Hsame; rewrite Hrun in *
  end.
  cbn in Hsame. unfold unchanged in Hsame.
  eexists. split; [reflexivity|]. cbn. split; [exact Hsame|].
  intros q. destruct (Hq q) as [H1 H2]. rewrite queue_with_logs. split; [exact H1|].
  intros j Hj. specialize (H2 j Hj).
  rewrite queue_with_tick in H2.
  assert (E : forall f w0, pending (queue q (with_progress f w0)) = pending (queue q w0))
    by (intros; destruct q; reflexivity).
  rewrite E, queue_with_tick, queue_with_logs in H2. exact H2.
Qed.

Lemma Forall2_map_self {A B} (P : A -> B -> Prop) (f : A -> B) (l : list A) :
  (forall x, P x (f x)) -> Forall2 P l (map f l).
Proof. intros H. induction l; cbn; constructor; auto. Qed.

(** X5.  Stop followed by start resumes where the entity was: the rows keep
    their cursors, start blocks and counters, the entity's flag is set
    again, and the one pending start-indexing job of the entity is the new
    one. *)
Theorem stop_then_start_keeps_progress (env : Env) (w : World) (a : string)
    (c : ContractConfig.t) (p : IndexingProgress.t) :
  fst (IndexingService.getContractConfig a env w) = Returned (Some c) ->
  ContractConfig.enabled c = true ->
  hasCode env a = true ->
  List.find (IndexingProgress.has_key (toLowerCase a) (ContractConfig.chainId c))
    (indexingProgressRepository w) = Some p ->
  reliable env ->
  let stopped := snd (IndexingService.stopIndexing a (Some (ContractConfig.chainId c)) env w) in
  let run := IndexingService.startIndexing a env stopped in
  fst run = Returned tt /\
  Forall2 (fun r r' =>
             same_progress r r' /\
             IndexingProgress.isSyncing r' =
               (IndexingProgress.has_key (toLowerCase a) (ContractConfig.chainId c) r
                || IndexingProgress.isSyncing r)%bool)
    (indexingProgressRepository w) (indexingProgressRepository (snd run)) /\
  (forall j, In j (pending (indexingQueue stopped)) ->
             IndexingService.job_of a (ContractConfig.chainId c) j = false) /\
  Queue.waiting (indexingQueue (snd run)) =
    Queue.waiting (indexingQueue stopped) ++
    [Job.mk (Queue.nextId (indexingQueue stopped)) "start-indexing"
       (StartIndexing (toLowerCase a) (ContractConfig.chainId c) (ContractConfig.events c))
       (JobOpts.mk (Some 1) (Some 0) None None)].
Proof.
  intros Hc Hen Hcode Hp Hrel stopped run.
  destruct (stopIndexing_run env w a (Some (ContractConfig.chainId c)) p Hp Hrel)
    as (w' & Hstop & Hrows & Hq).
  unfold run, stopped. rewrite Hstop. cbn [snd].
  assert (Hp' : List.find (IndexingProgress.has_key (toLowerCase a) (ContractConfig.chainId c))
                  (indexingProgressRepository w') =
                Some (IndexingProgress.set_isSyncing false (now w) p)).
  { rewrite Hrows, find_map_flag, Hp. reflexivity. }
  assert (Hc' : fst (IndexingService.getContractConfig a env w') = Returned (Some c)) by exact Hc.
  assert (Hquiet : quiet env w' 4) by (intros x k _; apply Hrel).
  rewrite (startIndexing_existing env w' a c _ Hc' Hen Hcode Hp' Hquiet). cbn.
  split; [reflexivity|]. split; [|split].
  - rewrite Hrows, map_map. apply Forall2_map_self. intros r.
    destruct (IndexingProgress.has_key (toLowerCase a) (ContractConfig.chainId c) r) eqn:Hk.
    + change (IndexingProgress.has_key (toLowerCase a) (ContractConfig.chainId c)
                (IndexingProgress.set_isSyncing false (now w) r))
        with (IndexingProgress.has_key (toLowerCase a) (ContractConfig.chainId c) r).
      rewrite Hk. cbn. unfold same_progress. cbn. auto 10.
    + rewrite Hk. cbn. unfold same_progress. auto 10.
  - apply (Hq INDEXING_QUEUE).
  - reflexivity.
Qed.

Lemma stop_then_start_keeps_progress_witness :
  let stopped := snd (IndexingService.stopIndexing Scenario.usdc
                        (Some (ContractConfig.chainId Scenario.config))
                        Scenario.env Scenario.scheduled) in
  fst (IndexingService.startIndexing Scenario.usdc Scenario.env stopped) = Returned tt.
Proof.
  destruct (stop_then_start_keeps_progress Scenario.env Scenario.scheduled Scenario.usdc
              Scenario.config (IndexingProgress.mk Scenario.address 137 99 true 100 0 1000))
    as (H & _).
  - vm_compute. reflexivity.
  - reflexivity.
  - reflexivity.
  - vm_compute. reflexivity.
  - intros c k. reflexivity.
  - exact H.
Defined.

(** *** processBlockRange and processTokenEvent *)

(** X6.  A sub-range whose cursor update fails is enqueued twice: the first
    run has put its events on the event-processing queue when the update
    throws, and the run that retries the job puts them there again. *)
Theorem failed_cursor_update_duplicates_event_jobs (env : Env) (w : World)
    (job : IndexingJob.t) :
  let evs := tokenEvents env (IndexingJob.contractAddress job) (IndexingJob.events job)
               (IndexingJob.fromBlock job) (IndexingJob.toBlock job) in
  let jobs := event_jobs (IndexingJob.contractAddress job) (IndexingJob.chainId job) evs in
  evs <> [] ->
  faults env Ledger (tick w) = false ->
  faults env (WorkQueue EVENT_PROCESSING_QUEUE) (S (tick w)) = false ->
  faults env ProgressStore (S (S (tick w))) = true ->
  let first := IndexingService.processBlockRange job env w in
  fst first = Thrown (CollaboratorError ProgressStore (S (S (tick w)))) /\
  indexingProgressRepository (snd first) = indexingProgressRepository w /\
  map Job.data (Queue.waiting (eventProcessingQueue (snd first))) =
    map Job.data (Queue.waiting (eventProcessingQueue w)) ++ jobs /\
  (quiet env (snd first) 3 ->
   let second := IndexingService.processBlockRange job env (snd first) in
   fst second = Returned tt /\
   map Job.data (Queue.waiting (eventProcessingQueue (snd second))) =
     map Job.data (Queue.waiting (eventProcessingQueue w)) ++ jobs ++ jobs).
Proof.
  intros evs jobs Hne Hl Hqu Hst first.
  assert (Hfirst : fst first = Thrown (CollaboratorError ProgressStore (S (S (tick w)))) /\
            indexingProgressRepository (snd first) = indexingProgressRepository w /\
            map Job.data (Queue.waiting (eventProcessingQueue (snd first))) =
              map Job.data (Queue.waiting (eventProcessingQueue w)) ++ jobs).
  { unfold first, jobs, event_jobs.
    unfold IndexingService.processBlockRange, BlockchainService.getTokenEvents,
      BullQueue.addBulk, ProgressRepository.update.
    unfold_monad. cbn. rewrite Hl. cbn. fold evs.
    destruct evs as [|e evs'] eqn:Hevs; [congruence|]. cbn. rewrite Hqu. cbn. rewrite Hst. cbn.
    repeat split.
    pose proof (addBulk_waiting
      (map (fun e => ProcessEvent (ProcessEventJob.mk e (IndexingJob.contractAddress job)
                                     (IndexingJob.chainId job))) evs')
      "process-event" (Some 3) (Some 2000)
      (Queue.add "process-event"
         (ProcessEvent (ProcessEventJob.mk e (IndexingJob.contractAddress job)
                          (IndexingJob.chainId job)))
         (JobOpts.mk None None (Some 3) (Some 2000)) (eventProcessingQueue w)))
      as (H1 & _).
    rewrite map_map in H1. cbn in H1. rewrite map_map. rewrite H1.
    cbn. rewrite map_app, <- app_assoc. reflexivity. }
  destruct Hfirst as (H1 & H2 & H3). split; [exact H1|]. split; [exact H2|]. split; [exact H3|].
  intros Hq second.
  destruct (processBlockRange_runs env (snd first) job Hq) as (R1 & _ & R3 & _).
  fold second in R1, R3. split; [exact R1|]. rewrite R3, H3. fold evs. fold (event_jobs (IndexingJob.contractAddress job) (IndexingJob.chainId job) evs).
  fold jobs. rewrite <- app_assoc. reflexivity.
Qed.

Lemma failed_cursor_update_duplicates_event_jobs_witness :
  let env := Outage.env [(ProgressStore, S (S (tick Scenario.scheduled)))] in
  let first := IndexingService.processBlockRange (Scenario.job 100 199) env
                 Scenario.scheduled in
  let second := IndexingService.processBlockRange (Scenario.job 100 199) env (snd first) in
  fst first = Thrown (CollaboratorError ProgressStore (S (S (tick Scenario.scheduled)))) /\
  fst second = Returned tt /\
  length (Queue.waiting (eventProcessingQueue (snd second))) = 4%nat.
Proof.
  intros env first second.
  destruct (failed_cursor_update_duplicates_event_jobs env Scenario.scheduled
              (Scenario.job 100 199)) as (H1 & _ & _ & Hretry).
  - vm_compute. discriminate.
  - vm_compute. reflexivity.
  - vm_compute. reflexivity.
  - vm_compute. reflexivity.
  - split; [exact H1|].
    destruct Hretry as (H2 & H3).
    + intros c k Hk. vm_compute in Hk. 
      assert (Hc : (k < 3)%nat) by exact Hk. clear Hk.
      destruct k as [|[|[|k]]]; [destruct c as [| | | |[]]; vm_compute; reflexivity .. | lia].
    + split; [exact H2|]. rewrite <- (length_map Job.data). 
      fold first second in H3. rewrite H3. vm_compute. reflexivity.
Defined.

Lemma map_unmatched_key (p : IndexingProgress.t -> bool) (f : IndexingProgress.t -> IndexingProgress.t) rows :
  existsb p rows = false -> map (fun r => if p r then f r else r) rows = rows.
Proof.
  induction rows as [|y l IH]; cbn; [reflexivity|].
  destruct (p y); cbn; [discriminate|]. intros H. rewrite IH by exact H. reflexivity.
Qed.

(** X7.  processBlockRange never creates a row: for an entity that has no
    progress row the table is left as it is, whatever the outcome, while
    the events of the sub-range are enqueued all the same. *)
Theorem block_range_without_row_moves_no_cursor (env : Env) (w : World)
    (job : IndexingJob.t) :
  existsb (IndexingProgress.has_key (IndexingJob.contractAddress job)
             (IndexingJob.chainId job)) (indexingProgressRepository w) = false ->
  let run := IndexingService.processBlockRange job env w in
  indexingProgressRepository (snd run) = indexingProgressRepository w /\
  (quiet env w 3 ->
   fst run = Returned tt /\
   map Job.data (Queue.waiting (eventProcessingQueue (snd run))) =
     map Job.data (Queue.waiting (eventProcessingQueue w)) ++
     event_jobs (IndexingJob.contractAddress job) (IndexingJob.chainId job)
       (tokenEvents env (IndexingJob.contractAddress job) (IndexingJob.events job)
          (IndexingJob.fromBlock job) (IndexingJob.toBlock job))).
Proof.
  intros Hrow run. split.
  - unfold run.
    destruct (fst (IndexingService.processBlockRange job env w)) eqn:Hout.
    + unfold IndexingService.processBlockRange, BlockchainService.getTokenEvents,
        BullQueue.addBulk, ProgressRepository.update in *.
      unfold_monad. cbn in *.
      destruct (faults env Ledger (tick w)); cbn in *; [discriminate|].
      destruct (tokenEvents env _ _ _ _) as [|ev evs]; cbn in *.
      * destruct (faults env ProgressStore _); cbn in *; [discriminate|].
        apply map_unmatched_key. exact Hrow.
      * destruct (faults env (WorkQueue EVENT_PROCESSING_QUEUE) _); cbn in *; [discriminate|].
        destruct (faults env ProgressStore _); cbn in *; [discriminate|].
        apply map_unmatched_key. exact Hrow.
    + apply (processBlockRange_throws env w job e Hout).
    + exfalso. revert Hout.
      unfold IndexingService.processBlockRange, BlockchainService.getTokenEvents,
        BullQueue.addBulk, ProgressRepository.update.
      unfold_monad. cbn.
      destruct (faults env Ledger (tick w)); cbn; [discriminate|].
      destruct (tokenEvents env _ _ _ _) as [|ev evs]; cbn.
      * destruct (faults env ProgressStore _); cbn; discriminate.
      * destruct (faults env (WorkQueue EVENT_PROCESSING_QUEUE) _); cbn; [discriminate|].
        destruct (faults env ProgressStore _); cbn; discriminate.
  - intros Hq. destruct (processBlockRange_runs env w job Hq) as (R1 & _ & R3 & _).
    split; [exact R1 | exact R3].
Qed.

Lemma block_range_without_row_moves_no_cursor_witness :
  indexingProgressRepository
    (snd (IndexingService.processBlockRange (Scenario.job 100 199) Scenario.env
            Scenario.fresh)) = indexingProgressRepository Scenario.fresh.
Proof.
  destruct (block_range_without_row_moves_no_cursor Scenario.env Scenario.fresh
              (Scenario.job 100 199)) as (H & _).
  - reflexivity.
  - exact H.
Defined.

(** X8.  A Transfer event whose sender or recipient is not a string, or
    whose value is missing, is not materialized: processTokenEvent records
    it in the failure sink with the TypeError, leaves the transfer table
    and the counters as they are, and throws the error again. *)
Theorem malformed_transfer_goes_to_failure_sink (env : Env) (w : World)
    (data : ProcessEventJob.t) :
  let event := ProcessEventJob.event data in
  TokenEvent.eventName event = "Transfer" ->
  transfer_of event (ProcessEventJob.contractAddress data) (ProcessEventJob.chainId data)
    (now w) = None ->
  List.find (TokenTransfer.has_key (TokenEvent.transactionHash event)
               (TokenEvent.logIndex event)) (tokenTransferRepository w) = None ->
  faults env TransferStore (tick w) = false ->
  faults env FailureSink (S (tick w)) = false ->
  let run := IndexingService.processTokenEvent data env w in
  fst run = Thrown TypeError /\
  tokenTransferRepository (snd run) = tokenTransferRepository w /\
  indexingProgressRepository (snd run) = indexingProgressRepository w /\
  failedEventRepository (snd run) =
    failedEventRepository w ++
    [FailedEvent.mk (toLowerCase (ProcessEventJob.contractAddress data))
       (ProcessEventJob.chainId data) (TokenEvent.blockNumber event)
       (TokenEvent.transactionHash event) (TokenEvent.logIndex event) event TypeError 0].
Proof.
  intros event Hname Hbad Hfresh Hts Hfs run. unfold run, event in *.
  unfold transfer_of in Hbad.
  unfold IndexingService.processTokenEvent, IndexingService.processTransferEvent,
    IndexingService.storeFailedEvent, TransferRepository.findOne, TransferRepository.save,
    ProgressRepository.update, FailedEventRepository.save, js_toLowerCase, js_toString.
  unfold_monad. cbn. rewrite Hts. cbn. rewrite Hfresh, Hname. cbn.
  destruct (TokenEvent.args (ProcessEventJob.event data))
    as [|[f| | |] [|[t'| | |] [|[v|n|b|] rest]]]; try discriminate;
    cbn; rewrite Hfs; cbn; repeat split; reflexivity.
Qed.

Lemma malformed_transfer_goes_to_failure_sink_witness :
  let run := IndexingService.processTokenEvent
               (ProcessEventJob.mk Outage.malformedEvent Scenario.address 137)
               Scenario.env Scenario.started in
  fst run = Thrown TypeError /\
  tokenTransferRepository (snd run) = tokenTransferRepository Scenario.started.
Proof.
  intros run.
  destruct (malformed_transfer_goes_to_failure_sink Scenario.env Scenario.started
              (ProcessEventJob.mk Outage.malformedEvent Scenario.address 137))
    as (H1 & H2 & _).
  - reflexivity.
  - reflexivity.
  - reflexivity.
  - reflexivity.
  - reflexivity.
  - split; [exact H1 | exact H2].
Defined.

(** X9.  When the failure sink fails too, its error is the one that
    processTokenEvent throws: the error of the event itself is in the log
    only, and no store has a trace of the event. *)
Theorem failure_sink_outage_masks_the_error (env : Env) (w : World)
    (data : ProcessEventJob.t) :
  faults env TransferStore (tick w) = true ->
  faults env FailureSink (S (tick w)) = true ->
  let run := IndexingService.processTokenEvent data env w in
  fst run = Thrown (CollaboratorError FailureSink (S (tick w))) /\
  In (ERROR, MsgFailedToProcessEvent
               (TokenEvent.transactionHash (ProcessEventJob.event data))
               (TokenEvent.logIndex (ProcessEventJob.event data))
               (CollaboratorError TransferStore (tick w))) (logs (snd run)) /\
  tokenTransferRepository (snd run) = tokenTransferRepository w /\
  failedEventRepository (snd run) = failedEventRepository w /\
  indexingProgressRepository (snd run) = indexingProgressRepository w.
Proof.
  intros Hts Hfs run. unfold run.
  unfold IndexingService.processTokenEvent, IndexingService.storeFailedEvent,
    TransferRepository.findOne, FailedEventRepository.save.
  unfold_monad. cbn. rewrite Hts. cbn. rewrite Hfs. cbn.
  repeat split; try reflexivity. apply in_or_app. right. left. reflexivity.
Qed.

Lemma failure_sink_outage_masks_the_error_witness :
  let env := Outage.env [(TransferStore, tick Scenario.started);
                         (FailureSink, S (tick Scenario.started))] in
  fst (IndexingService.processTokenEvent
         (ProcessEventJob.mk Scenario.transferEvent Scenario.address 137)
         env Scenario.started)
    = Thrown (CollaboratorError FailureSink (S (tick Scenario.started))).
Proof.
  intros env.
  destruct (failure_sink_outage_masks_the_error env Scenario.started
              (ProcessEventJob.mk Scenario.transferEvent Scenario.address 137)) as (H & _).
  - vm_compute. reflexivity.
  - vm_compute. reflexivity.
  - exact H.
Defined.

(** X10.  A Transfer event that is saved but whose counter update fails is
    never counted: the first run materializes the record, fails on the
    counter and records the event as failed; a retry finds the record,
    takes the event for processed and returns without touching the
    counter. *)
Theorem uncounted_transfer_is_skipped_on_retry (env : Env) (w : World)
    (data : ProcessEventJob.t) (r : TokenTransfer.t) :
  let event := ProcessEventJob.event data in
  TokenEvent.eventName event = "Transfer" ->
  transfer_of event (ProcessEventJob.contractAddress data) (ProcessEventJob.chainId data)
    (now w) = Some r ->
  List.find (TokenTransfer.has_key (TokenEvent.transactionHash event)
               (TokenEvent.logIndex event)) (tokenTransferRepository w) = None ->
  faults env TransferStore (tick w) = false ->
  faults env TransferStore (S (tick w)) = false ->
  faults env ProgressStore (S (S (tick w))) = true ->
  faults env FailureSink (S (S (S (tick w)))) = false ->
  exists w1,
    IndexingService.processTokenEvent data env w =
      (Thrown (CollaboratorError ProgressStore (S (S (tick w)))), w1) /\
    tokenTransferRepository w1 = tokenTransferRepository w ++ [r] /\
    failedEventRepository w1 =
      failedEventRepository w ++
      [FailedEvent.mk (toLowerCase (ProcessEventJob.contractAddress data))
         (ProcessEventJob.chainId data) (TokenEvent.blockNumber event)
         (TokenEvent.transactionHash event) (TokenEvent.logIndex event) event
         (CollaboratorError ProgressStore (S (S (tick w)))) 0] /\
    indexingProgressRepository w1 = indexingProgressRepository w /\
    (forall env', faults env' TransferStore (tick w1) = false ->
       exists w2,
         IndexingService.processTokenEvent data env' w1 = (Returned tt, w2) /\
         tokenTransferRepository w2 = tokenTransferRepository w1 /\
         indexingProgressRepository w2 = indexingProgressRepository w).
Proof.
  intros event Hname Hr Hfresh H0 H1 H2 H3.
  assert (Hfirst : exists w1,
    IndexingService.processTokenEvent data env w =
      (Thrown (CollaboratorError ProgressStore (S (S (tick w)))), w1) /\
    tokenTransferRepository w1 = tokenTransferRepository w ++ [r] /\
    failedEventRepository w1 =
      failedEventRepository w ++
      [FailedEvent.mk (toLowerCase (ProcessEventJob.contractAddress data))
         (ProcessEventJob.chainId data) (TokenEvent.blockNumber event)
         (TokenEvent.transactionHash event) (TokenEvent.logIndex event) event
         (CollaboratorError ProgressStore (S (S (tick w)))) 0] /\
    indexingProgressRepository w1 = indexingProgressRepository w).
  { unfold event in *. unfold transfer_of in Hr.
    unfold IndexingService.processTokenEvent, IndexingService.processTransferEvent,
      IndexingService.storeFailedEvent, TransferRepository.findOne, TransferRepository.save,
      ProgressRepository.update, FailedEventRepository.save, js_toLowerCase, js_toString.
    unfold_monad. cbn. rewrite H0. cbn. rewrite Hfresh, Hname. cbn.
    destruct (TokenEvent.args (ProcessEventJob.event data))
      as [|[f| | |] [|[t'| | |] [|[v|n|b|] rest]]]; try discriminate;
      injection Hr as <-; cbn -[pretty]; rewrite H1; cbn -[pretty]; rewrite H2;
      cbn -[pretty]; rewrite H3; cbn -[pretty];
      (eexists; split; [reflexivity|]; cbn -[pretty]; repeat split; reflexivity). }
  destruct Hfirst as (w1 & Hrun & Ht & Hf & Hp).
  exists w1. split; [exact Hrun|]. split; [exact Ht|]. split; [exact Hf|].
  split; [exact Hp|].
  intros env' Hq. eexists. split.
  - apply (processTokenEvent_existing env' w1 data r); [|exact Hq].
    rewrite Ht, (find_app_fresh _ _ _ Hfresh).
    rewrite (transfer_of_has_key _ _ _ _ _ Hr). reflexivity.
  - cbn [tokenTransferRepository indexingProgressRepository with_logs with_tick].
    split; [reflexivity | exact Hp].
Qed.

Lemma uncounted_transfer_is_skipped_on_retry_witness :
  let data := ProcessEventJob.mk Scenario.transferEvent Scenario.address 137 in
  let env := Outage.env [(ProgressStore, S (S (tick Scenario.started)))] in
  exists w1 w2,
    IndexingService.processTokenEvent data env Scenario.started =
      (Thrown (CollaboratorError ProgressStore (S (S (tick Scenario.started)))), w1) /\
    IndexingService.processTokenEvent data Scenario.env w1 = (Returned tt, w2) /\
    length (tokenTransferRepository w2) = 1%nat /\
    map IndexingProgress.totalEventsProcessed (indexingProgressRepository w2) = [0].
Proof.
  intros data env.
  destruct (uncounted_transfer_is_skipped_on_retry env Scenario.started data
              (TokenTransfer.mk "0xaa01" 0 150 "0xb150" Scenario.address
                 "0xf00d" "0xbeef" "2500" 137 1000))
    as (w1 & Hfirst & Ht & _ & _ & Hretry).
  - reflexivity.
  - vm_compute. reflexivity.
  - vm_compute. reflexivity.
  - vm_compute. reflexivity.
  - vm_compute. reflexivity.
  - vm_compute. reflexivity.
  - vm_compute. reflexivity.
  - destruct (Hretry Scenario.env) as (w2 & Hsecond & Ht2 & Hp2); [reflexivity|].
    exists w1, w2. split; [exact Hfirst|]. split; [exact Hsecond|].
    split; [rewrite Ht2, Ht; vm_compute; reflexivity|].
    rewrite Hp2. vm_compute. reflexivity.
Defined.

(** *** handleStartIndexing *)

(** A run for an entity whose flag is clear logs that and returns. *)
Lemma handleStartIndexing_stopped env w fuel a c evs p :
  List.find (IndexingProgress.has_key (toLowerCase a) c) (indexingProgressRepository w)
    = Some p ->
  IndexingProgress.isSyncing p = false ->
  faults env ProgressStore (tick w) = false ->
  IndexingProcessor.handleStartIndexing fuel a c evs env w =
    (Returned tt,
     with_logs (fun ls => ls ++ [(LOG, MsgIndexingWasStopped a)])
       (with_tick S
          (with_logs (fun ls => ls ++ [(LOG, MsgStartingIndexingProcess a)]) w))).
Proof.
  intros Hp Hs Hf.
  unfold IndexingProcessor.handleStartIndexing, IndexingService.getIndexingStatus,
    ProgressRepository.findOne.
  unfold_monad. cbn. rewrite Hf, Hp. cbn. rewrite Hs. reflexivity.
Qed.

(** X11.  After stopIndexing a start-indexing job of the entity does
    nothing, however its address is spelled: the run reads the row, finds
    the flag clear and returns, with the stores and the queues as they
    were; it makes that one call. *)
Theorem stop_is_honoured_by_scheduled_runs (env : Env) (w : World) (a : string)
    (chainId : option Z) (p : IndexingProgress.t) :
  let c := match chainId with Some c => c | None => 137 end in
  List.find (IndexingProgress.has_key (toLowerCase a) c) (indexingProgressRepository w)
    = Some p ->
  faults env ProgressStore (tick w) = false ->
  faults env ProgressStore (S (tick w)) = false ->
  let stopped := snd (IndexingService.stopIndexing a chainId env w) in
  forall (env' : Env) (fuel : nat) (a' : string) (evs : list string),
    toLowerCase a' = toLowerCase a ->
    faults env' ProgressStore (tick stopped) = false ->
    let run := IndexingProcessor.handleStartIndexing fuel a' c evs env' stopped in
    fst run = Returned tt /\
    tick (snd run) = S (tick stopped) /\
    indexingProgressRepository (snd run) = indexingProgressRepository stopped /\
    tokenTransferRepository (snd run) = tokenTransferRepository stopped /\
    (forall q, queue q (snd run) = queue q stopped).
Proof.
  intros c Hp H1 H2 stopped env' fuel a' evs Ha Hf run.
  destruct (stopIndexing_found env w a chainId p Hp H1 H2) as (w' & Hstop & Hrows).
  fold c in Hrows.
  unfold run, stopped in *. rewrite Hstop in *. cbn [snd] in *.
  rewrite (handleStartIndexing_stopped env' w' fuel a' c evs
             (IndexingProgress.set_isSyncing false (now w) p)).
  - cbn. repeat split; try reflexivity; intros []; reflexivity.
  - rewrite Ha, Hrows, find_map_flag, Hp. reflexivity.
  - reflexivity.
  - exact Hf.
Qed.

Lemma stop_is_honoured_by_scheduled_runs_witness :
  let stopped := snd (IndexingService.stopIndexing Scenario.usdc None Scenario.env
                        Scenario.scheduled) in
  let run := IndexingProcessor.handleStartIndexing 3 Scenario.address 137 Scenario.events
               Scenario.env stopped in
  fst run = Returned tt /\
  indexingProgressRepository (snd run) = indexingProgressRepository stopped.
Proof.
  intros stopped run.
  destruct (stop_is_honoured_by_scheduled_runs Scenario.env Scenario.scheduled Scenario.usdc
              None (IndexingProgress.mk Scenario.address 137 99 true 100 0 1000)
              ltac:(vm_compute; reflexivity) eq_refl eq_refl
              Scenario.env 3%nat Scenario.address Scenario.events)
    as (H1 & _ & H3 & _).
  - vm_compute. reflexivity.
  - reflexivity.
  - split; [exact H1 | exact H3].
Defined.

(** X12.  The recheck that a caught-up run parks does nothing: the run has
    cleared the flag before it parked the job, so the recheck, 30000 ms
    later, finds the entity not syncing and returns; it reads no height,
    submits no sub-range, parks no further recheck and leaves the flag
    clear. *)
Theorem caught_up_recheck_does_nothing (env : Env) (w : World) (fuel : nat) (a : string)
    (c : Z) (evs : list string) (p : IndexingProgress.t) :
  List.find (IndexingProgress.has_key (toLowerCase a) c) (indexingProgressRepository w)
    = Some p ->
  IndexingProgress.isSyncing p = true ->
  IndexingProgress.lastProcessedBlock p >= currentBlockNumber env - 1 ->
  quiet env w 4 ->
  let idle := snd (IndexingProcessor.handleStartIndexing fuel a c evs env w) in
  Queue.delayed (indexingQueue idle) =
    Queue.delayed (indexingQueue w) ++
    [Job.mk (Queue.nextId (indexingQueue w)) "start-indexing" (StartIndexing a c evs)
       (JobOpts.mk None (Some 30000) (Some 1) None)] /\
  forall (env' : Env) (fuel' : nat),
    faults env' ProgressStore (tick idle) = false ->
    let recheck := IndexingProcessor.handleStartIndexing fuel' a c evs env' idle in
    fst recheck = Returned tt /\
    tick (snd recheck) = S (tick idle) /\
    indexingProgressRepository (snd recheck) = indexingProgressRepository idle /\
    (forall q, queue q (snd recheck) = queue q idle) /\
    IndexingProcessor.is_syncing
      (List.find (IndexingProgress.has_key (toLowerCase a) c)
         (indexingProgressRepository (snd recheck))) = false.
Proof.
  intros Hp Hs Hcaught Hq idle.
  destruct (handleStartIndexing_caught_up env w fuel a c evs p Hp Hs Hcaught Hq)
    as (_ & Hrows & _ & _ & Hqueue).
  fold idle in Hrows, Hqueue. split.
  - rewrite Hqueue. reflexivity.
  - intros env' fuel' Hf recheck.
    assert (Hp' : List.find (IndexingProgress.has_key (toLowerCase a) c)
                    (indexingProgressRepository idle) =
                  Some (IndexingProgress.set_isSyncing false (now w) p)).
    { rewrite Hrows, find_map_flag, Hp. reflexivity. }
    unfold recheck.
    rewrite (handleStartIndexing_stopped env' idle fuel' a c evs _ Hp' eq_refl Hf).
    cbn. rewrite Hp'. cbn. repeat split; try reflexivity; intros []; reflexivity.
Qed.

Lemma caught_up_recheck_does_nothing_witness :
  let idle := snd (IndexingProcessor.handleStartIndexing 0 Scenario.address 137
                     Scenario.events Scenario.env Scenario.caught_up) in
  let recheck := IndexingProcessor.handleStartIndexing 3 Scenario.address 137
                   Scenario.events Scenario.env idle in
  fst recheck = Returned tt /\
  (forall q, queue q (snd recheck) = queue q idle).
Proof.
  intros idle recheck.
  destruct (caught_up_recheck_does_nothing Scenario.env Scenario.caught_up 0
              Scenario.address 137 Scenario.events
              (IndexingProgress.mk Scenario.address 137 348 true 100 0 1000))
    as (_ & Hrecheck).
  - vm_compute. reflexivity.
  - reflexivity.
  - vm_compute. discriminate.
  - intros c k _. reflexivity.
  - destruct (Hrecheck Scenario.env 3%nat) as (H1 & _ & _ & H4 & _); [reflexivity|].
    split; [exact H1 | exact H4].
Defined.

(** X13.  When the height query of a start-indexing run fails, the run
    clears the entity's flag and throws the error again; it touches no
    queue, so nothing is scheduled that would resume the entity. *)
Theorem ledger_failure_clears_the_flag (env : Env) (w : World) (fuel : nat) (a : string)
    (c : Z) (evs : list string) (p : IndexingProgress.t) :
  List.find (IndexingProgress.has_key (toLowerCase a) c) (indexingProgressRepository w)
    = Some p ->
  IndexingProgress.isSyncing p = true ->
  faults env ProgressStore (tick w) = false ->
  faults env Ledger (S (tick w)) = true ->
  faults env ProgressStore (S (S (tick w))) = false ->
  let run := IndexingProcessor.handleStartIndexing fuel a c evs env w in
  fst run = Thrown (CollaboratorError Ledger (S (tick w))) /\
  indexingProgressRepository (snd run) =
    map (fun r => if IndexingProgress.has_key (toLowerCase a) c r
                  then IndexingProgress.set_isSyncing false (now w) r else r)
      (indexingProgressRepository w) /\
  (forall q, queue q (snd run) = queue q w).
Proof.
  intros Hp Hs H0 H1 H2 run. unfold run.
  unfold IndexingProcessor.handleStartIndexing, IndexingService.getIndexingStatus,
    IndexingService.updateSyncingStatus, ProgressRepository.findOne,
    ProgressRepository.update, BlockchainService.getCurrentBlockNumber.
  unfold_monad. cbn. rewrite H0, Hp. cbn. rewrite Hs. cbn. rewrite H1. cbn. rewrite H2. cbn.
  repeat split; try reflexivity; intros []; reflexivity.
Qed.

Lemma ledger_failure_clears_the_flag_witness :
  let env := Outage.env [(Ledger, S (tick Scenario.started))] in
  let run := IndexingProcessor.handleStartIndexing 3 Scenario.address 137 Scenario.events
               env Scenario.started in
  fst run = Thrown (CollaboratorError Ledger (S (tick Scenario.started))) /\
  map IndexingProgress.isSyncing (indexingProgressRepository (snd run)) = [false].
Proof.
  intros env run.
  destruct (ledger_failure_clears_the_flag env Scenario.started 3 Scenario.address 137
              Scenario.events (IndexingProgress.mk Scenario.address 137 99 true 100 0 1000))
    as (H1 & H2 & _).
  - vm_compute. reflexivity.
  - reflexivity.
  - vm_compute. reflexivity.
  - vm_compute. reflexivity.
  - vm_compute. reflexivity.
  - split; [exact H1|]. fold env run in H2. rewrite H2. vm_compute. reflexivity.
Defined.

Lemma processInBatches_stuck env a c evs cur bs :
  bs <= 0 -> reliable env ->
  forall fuel from w,
    from <= cur ->
    IndexingProcessor.is_syncing
      (List.find (IndexingProgress.has_key (toLowerCase a) c)
         (indexingProgressRepository w)) = true ->
    exists w',
      IndexingProcessor.processInBatches fuel a c evs cur bs from env w = (OutOfFuel, w') /\
      length (Queue.waiting (blockProcessingQueue w')) =
        (length (Queue.waiting (blockProcessingQueue w)) + fuel)%nat.
Proof.
  intros Hbs Hrel. induction fuel as [|fuel IH]; intros from w Hle Hs.
  - exists w. cbn. destruct (Z.leb_spec from cur); [|lia]. cbn. split; [reflexivity | lia].
  - rewrite processInBatches_round by assumption.
    destruct (IH (Z.min (from + bs - 1) cur + 1)
                 (submit a c evs w (from, Z.min (from + bs - 1) cur))) as (w' & Hrun & Hlen).
    + lia.
    + exact Hs.
    + exists w'. split; [exact Hrun|]. rewrite Hlen. cbn. rewrite length_app. cbn. lia.
Qed.

(** X14.  With a batch size of zero or less the loop of handleStartIndexing
    never ends: every round submits a sub-range and starts the next one
    at the same block (size 0) or at an earlier one, so whatever the fuel
    the run has not returned and has put one more job per round on the
    block-processing queue. *)
Theorem non_positive_batch_size_never_ends (env : Env) (w : World) (a : string) (c : Z)
    (evs : list string) (p : IndexingProgress.t) :
  List.find (IndexingProgress.has_key (toLowerCase a) c) (indexingProgressRepository w)
    = Some p ->
  IndexingProgress.isSyncing p = true ->
  IndexingProgress.lastProcessedBlock p < currentBlockNumber env - 1 ->
  batchSize env <= 0 ->
  reliable env ->
  forall fuel,
    let run := IndexingProcessor.handleStartIndexing fuel a c evs env w in
    fst run = OutOfFuel /\
    length (Queue.waiting (blockProcessingQueue (snd run))) =
      (length (Queue.waiting (blockProcessingQueue w)) + fuel)%nat.
Proof.
  intros Hp Hs Hbehind Hbs Hrel fuel run. unfold run.
  unfold IndexingProcessor.handleStartIndexing, IndexingService.getIndexingStatus,
    ProgressRepository.findOne, BlockchainService.getCurrentBlockNumber.
  unfold_monad. cbn. rewrite !Hrel. rewrite Hp. cbn. rewrite Hs. cbn. rewrite !Hrel. cbn.
  rewrite Z.geb_leb.
  destruct (Z.leb_spec (currentBlockNumber env - 1) (IndexingProgress.lastProcessedBlock p));
    [lia|].
  match goal with
  | |- context [IndexingProcessor.processInBatches fuel a c evs ?cur ?bs ?from env ?w0] =>
      destruct (processInBatches_stuck env a c evs cur bs Hbs Hrel fuel from w0)
        as (w' & Hrun & Hlen); [lia | cbn; rewrite Hp; exact Hs |]
  end.
  rewrite Hrun. cbn. split; [reflexivity|]. rewrite Hlen. reflexivity.
Qed.

Lemma non_positive_batch_size_never_ends_witness :
  let run := IndexingProcessor.handleStartIndexing 5 Scenario.address 137 Scenario.events
               Outage.env_zero_batch Scenario.started in
  fst run = OutOfFuel /\
  length (Queue.waiting (blockProcessingQueue (snd run))) = 5%nat.
Proof.
  intros run.
  destruct (non_positive_batch_size_never_ends Outage.env_zero_batch Scenario.started
              Scenario.address 137 Scenario.events
              (IndexingProgress.mk Scenario.address 137 99 true 100 0 1000)
              ltac:(vm_compute; reflexivity) eq_refl ltac:(vm_compute; reflexivity)
              ltac:(vm_compute; discriminate) (fun _ _ => eq_refl) 5%nat)
    as (H1 & H2).
  split; [exact H1|]. fold run in H2. rewrite H2. vm_compute. reflexivity.
Defined.

(** *** The manual resume and the recovery status *)

Lemma startIndexing_halts a : halts (IndexingService.startIndexing a).
Proof.
  unfold IndexingService.startIndexing, IndexingService.getContractConfig,
    BlockchainService.validateContractAddress, BlockchainService.getCurrentBlockNumber,
    ProgressRepository.findOne, ProgressRepository.update, ProgressRepository.save,
    BullQueue.add.
  halting.
Qed.

Lemma resumeContractIndexing_returns c : returns (AutoResumeService.resumeContractIndexing c).
Proof.
  unfold AutoResumeService.resumeContractIndexing, ProgressRepository.findOne.
  halting. intros; apply startIndexing_halts.
Qed.

Lemma manualResumeAll_loop_run cs :
  forall resumed errors env w,
  exists w',
    AutoResumeService.manualResumeAll_loop cs resumed errors env w =
      (Returned (ResumeResult.mk (resumed + length cs) errors), w').
Proof.
  induction cs as [|c cs IH]; intros resumed errors env w; cbn [AutoResumeService.manualResumeAll_loop].
  - exists w. cbn. rewrite Nat.add_0_r. reflexivity.
  - destruct (returns_run _ env w (resumeContractIndexing_returns c)) as ([] & w1 & Hrun).
    unfold bind at 1. unfold try_catch. unfold bind at 1. rewrite Hrun. cbn [ret fst snd].
    destruct (IH (S resumed) errors env w1) as (w' & Hloop).
    exists w'. rewrite Hloop. cbn [length]. do 3 f_equal. lia.
Qed.

(** X15.  manualResumeAll reports every enabled contract as resumed and no
    error, whatever happened: resumeContractIndexing catches its own
    errors, so the handler of manualResumeAll is never entered and the
    counter is incremented for contracts that were skipped or failed as
    well. *)
Theorem manual_resume_reports_every_contract (env : Env) (w : World) :
  exists w',
    AutoResumeService.manualResumeAll env w =
      (Returned (ResumeResult.mk
                   (length (AutoResumeService.enabledContracts (contracts env))) []), w').
Proof.
  unfold AutoResumeService.manualResumeAll. unfold bind, ask.
  apply (manualResumeAll_loop_run _ 0%nat []).
Qed.

Lemma flag_kept_row_refl r : flag_kept_row r r.
Proof. unfold flag_kept_row. auto. Qed.

Lemma flag_kept_refl rows : flag_kept rows rows.
Proof.
  exists rows, []. split; [symmetry; apply app_nil_r|].
  induction rows; constructor; auto using flag_kept_row_refl.
Qed.

Lemma flag_kept_trans a b c : flag_kept a b -> flag_kept b c -> flag_kept a c.
Proof.
  intros (ch1 & ex1 & -> & H1) (ch2 & ex2 & -> & H2).
  apply Forall2_app_inv_l in H2 as (c2a & c2b & Ha & Hb & ->).
  exists c2a, (c2b ++ ex2). split; [symmetry; apply app_assoc|].
  clear Hb. revert c2a Ha. induction H1; intros c2a Ha; inversion Ha; subst; constructor.
  - unfold flag_kept_row in *. intuition congruence.
  - auto.
Qed.

Lemma flag_kept_append rows r : flag_kept rows (rows ++ [r]).
Proof.
  exists rows, [r]. split; [reflexivity|].
  induction rows; constructor; auto using flag_kept_row_refl.
Qed.

Lemma flag_kept_set (criteria : IndexingProgress.t -> bool) rows t :
  flag_kept rows
    (map (fun r => if criteria r then IndexingProgress.set_isSyncing true t r else r) rows).
Proof.
  eexists _, []. split; [symmetry; apply app_nil_r|].
  induction rows as [|r rows IH]; cbn; constructor; [|exact IH].
  destruct (criteria r); [|apply flag_kept_row_refl]. unfold flag_kept_row. cbn. auto.
Qed.

Lemma startIndexing_keeps_flags a : preserves flag_kept (IndexingService.startIndexing a).
Proof.
  unfold IndexingService.startIndexing, IndexingService.getContractConfig.
  preserve flag_kept_refl flag_kept_trans; auto using flag_kept_append, flag_kept_set.
Qed.

Lemma manualResumeAll_loop_keeps_flags cs :
  forall resumed errors,
    preserves flag_kept (AutoResumeService.manualResumeAll_loop cs resumed errors).
Proof.
  induction cs as [|c cs IH]; intros resumed errors; cbn [AutoResumeService.manualResumeAll_loop].
  - apply (preserves_ret _ flag_kept_refl).
  - unfold AutoResumeService.resumeContractIndexing.
    preserve flag_kept_refl flag_kept_trans; auto using startIndexing_keeps_flags.
Qed.

Lemma manualResumeAll_keeps_flags : preserves flag_kept AutoResumeService.manualResumeAll.
Proof.
  unfold AutoResumeService.manualResumeAll.
  preserve flag_kept_refl flag_kept_trans. intros; apply manualResumeAll_loop_keeps_flags.
Qed.

Lemma flag_kept_nth rows rows' i r :
  flag_kept rows rows' -> nth_error rows i = Some r ->
  exists r', nth_error rows' i = Some r' /\ flag_kept_row r r'.
Proof.
  intros (changed & extra & -> & HF). revert i. induction HF as [|x y xs ys Hxy _ IH]; intros i.
  - destruct i; discriminate.
  - destruct i as [|i]; cbn.
    + intros [= <-]. eauto.
    + apply IH.
Qed.

(** X16.  manualResumeAll clears no flag and removes no row: a row that is
    syncing before is, at the same place of the table, the row of the same
    entity and syncing afterwards, whichever calls fail. *)
Theorem manual_resume_clears_no_flag (env : Env) (w : World) (i : nat)
    (r : IndexingProgress.t) :
  nth_error (indexingProgressRepository w) i = Some r ->
  IndexingProgress.isSyncing r = true ->
  exists r',
    nth_error (indexingProgressRepository (snd (AutoResumeService.manualResumeAll env w))) i
      = Some r' /\
    IndexingProgress.contractAddress r' = IndexingProgress.contractAddress r /\
    IndexingProgress.chainId r' = IndexingProgress.chainId r /\
    IndexingProgress.isSyncing r' = true.
Proof.
  intros Hr Hs.
  destruct (flag_kept_nth _ _ i r (manualResumeAll_keeps_flags env w) Hr)
    as (r' & Hr' & Ha & Hc & Hflag).
  exists r'. auto.
Qed.

Lemma manual_resume_clears_no_flag_witness :
  exists r',
    nth_error (indexingProgressRepository
                 (snd (AutoResumeService.manualResumeAll Scenario.env_queues_down
                         Scenario.scheduled))) 0 = Some r' /\
    IndexingProgress.isSyncing r' = true.
Proof.
  destruct (manual_resume_clears_no_flag Scenario.env_queues_down Scenario.scheduled 0
              (IndexingProgress.mk Scenario.address 137 99 true 100 0 1000))
    as (r' & H1 & _ & _ & H4).
  - vm_compute. reflexivity.
  - reflexivity.
  - exists r'. split; [exact H1 | exact H4].
Defined.

(** X17.  getRecoveryStatus answers the number of enabled contracts, the
    number of rows and the number of rows that are syncing, which is at
    most the number of rows; it has no handler, so a failure of the
    progress repository is thrown to the caller.  Right after
    resetStuckSyncingStates no row is syncing. *)
Theorem recovery_status_counts (env : Env) (w : World) :
  let run := AutoResumeService.getRecoveryStatus env w in
  (faults env ProgressStore (tick w) = false ->
   faults env ProgressStore (S (tick w)) = false ->
     fst run =
       Returned (RecoveryStatus.mk
                   (length (AutoResumeService.enabledContracts (contracts env)))
                   (length (indexingProgressRepository w))
                   (length (List.filter IndexingProgress.isSyncing
                              (indexingProgressRepository w)))
                   (now w)) /\
     (length (List.filter IndexingProgress.isSyncing (indexingProgressRepository w))
        <= length (indexingProgressRepository w))%nat) /\
  (faults env ProgressStore (tick w) = true ->
     fst run = Thrown (CollaboratorError ProgressStore (tick w))) /\
  (forall env0 w0,
     faults env0 ProgressStore (tick w0) = false ->
     List.filter IndexingProgress.isSyncing
       (indexingProgressRepository
          (snd (AutoResumeService.resetStuckSyncingStates env0 w0))) = []).
Proof.
  intros run. unfold run.
  unfold AutoResumeService.getRecoveryStatus, ProgressRepository.find,
    ProgressRepository.count.
  split; [|split].
  - intros H0 H1. unfold_monad. cbn. rewrite H0. cbn. rewrite H1. cbn.
    split; [reflexivity|]. apply List.filter_length_le.
  - intros H0. unfold_monad. cbn. rewrite H0. reflexivity.
  - intros env0 w0 H0.
    unfold AutoResumeService.resetStuckSyncingStates, ProgressRepository.update.
    unfold_monad. cbn. rewrite H0.
    assert (E : List.filter IndexingProgress.isSyncing
                  (map (fun r => if IndexingProgress.isSyncing r
                                 then IndexingProgress.set_isSyncing false (now w0) r else r)
                     (indexingProgressRepository w0)) = []).
    { induction (indexingProgressRepository w0) as [|r rows IH]; cbn; [reflexivity|].
      destruct (IndexingProgress.isSyncing r) eqn:Hs; cbn; [|rewrite Hs]; exact IH. }
    destruct (length _); cbn; exact E.
Qed.

Lemma recovery_status_counts_witness :
  fst (AutoResumeService.getRecoveryStatus Scenario.env Scenario.scheduled) =
    Returned (RecoveryStatus.mk 1 1 1 1000) /\
  fst (AutoResumeService.getRecoveryStatus Outage.env_store_down Scenario.scheduled) =
    Thrown (CollaboratorError ProgressStore (tick Scenario.scheduled)).
Proof.
  split.
  - destruct (recovery_status_counts Scenario.env Scenario.scheduled) as (H & _).
    destruct H as (H & _); [reflexivity | reflexivity |].
    rewrite H. vm_compute. reflexivity.
  - destruct (recovery_status_counts Outage.env_store_down Scenario.scheduled)
      as (_ & H & _).
    apply H. reflexivity.
Defined.

(** *** The recovery pass under an outage *)

Lemma resumeIndexing_returns : returns AutoResumeService.resumeIndexing.
Proof.
  unfold AutoResumeService.resumeIndexing.
  apply returns_try_catch; [|intros; apply returns_modify].
  apply returns_halts.
  unfold AutoResumeService.resetStuckSyncingStates, ProgressRepository.update.
  halting. apply resumeContractIndexing_returns.
Qed.

Lemma resume_loop_store_down env :
  down env ProgressStore ->
  forall cs w,
  exists w',
    forEach AutoResumeService.resumeContractIndexing cs env w = (Returned tt, w') /\
    indexingProgressRepository w' = indexingProgressRepository w /\
    tokenTransferRepository w' = tokenTransferRepository w /\
    failedEventRepository w' = failedEventRepository w /\
    (forall q, queue q w' = queue q w).
Proof.
  intros Hdown. induction cs as [|c cs IH]; intros w; cbn [forEach].
  - exists w. repeat split; reflexivity.
  - unfold bind at 1. unfold AutoResumeService.resumeContractIndexing at 1.
    unfold ProgressRepository.findOne. unfold try_catch, bind at 1, call at 1.
    rewrite Hdown. unfold logger, modify.
    match goal with |- context [forEach _ cs env ?w0] =>
      destruct (IH w0) as (w' & Hrun & H1 & H2 & H3 & H4) end.
    exists w'. split; [exact Hrun|]. rewrite H1, H2, H3. repeat split; try reflexivity.
    intros q. rewrite H4. destruct q; reflexivity.
Qed.

(** X18.  The startup recovery pass returns whatever its collaborators do:
    the reset and every contract catch their own errors.  With the progress
    repository down for the whole pass it changes no store and no queue. *)
Theorem recovery_pass_never_throws (env : Env) (w : World) :
  exists w',
    AutoResumeService.resumeIndexing env w = (Returned tt, w') /\
    (down env ProgressStore ->
       indexingProgressRepository w' = indexingProgressRepository w /\
       tokenTransferRepository w' = tokenTransferRepository w /\
       failedEventRepository w' = failedEventRepository w /\
       (forall q, queue q w' = queue q w)).
Proof.
  destruct (returns_run _ env w resumeIndexing_returns) as ([] & w' & Hrun).
  exists w'. split; [exact Hrun|]. intros Hdown.
  revert Hrun. unfold AutoResumeService.resumeIndexing.
  unfold AutoResumeService.resetStuckSyncingStates, ProgressRepository.update.
  unfold try_catch at 1. unfold bind at 1, logger at 1, modify at 1.
  unfold bind at 1. unfold try_catch at 1. unfold bind at 1, call at 1.
  rewrite Hdown. unfold logger at 1, modify at 1.
  unfold bind at 1, ask at 1. unfold bind at 1, logger at 1, modify at 1.
  unfold bind at 1.
  match goal with |- context [forEach _ ?cs env ?w0] =>
    destruct (resume_loop_store_down env Hdown cs w0) as (w2 & Hloop & H1 & H2 & H3 & H4) end.
  rewrite Hloop. unfold logger, modify. intros [= <-].
  cbn. rewrite H1, H2, H3. repeat split; try reflexivity.
  intros q. rewrite queue_with_logs, H4. destruct q; reflexivity.
Qed.

Lemma recovery_pass_never_throws_witness :
  exists w',
    AutoResumeService.resumeIndexing Outage.env_store_down Scenario.scheduled
      = (Returned tt, w') /\
    indexingProgressRepository w' = indexingProgressRepository Scenario.scheduled.
Proof.
  destruct (recovery_pass_never_throws Outage.env_store_down Scenario.scheduled)
    as (w' & Hrun & Hdown).
  exists w'. split; [exact Hrun|].
  destruct Hdown as (H & _); [intros k; reflexivity | exact H].
Defined.

(** *** The steps of the shutdown *)

(** X19.  closeQueues closes each queue on its own: it returns whatever the
    close calls do, a queue is closed afterwards exactly if its close call
    was answered or it was closed before, and no pending job is touched. *)
Theorem each_queue_is_closed_on_its_own (env : Env) (w : World) (L : Z) :
  settles_within env L ->
  exists w',
    ShutdownService.closeQueues env w = (Returned tt, w') /\
    (forall q,
       Queue.waiting (queue q w') = Queue.waiting (queue q w) /\
       Queue.delayed (queue q w') = Queue.delayed (queue q w)) /\
    Queue.closed (indexingQueue w') =
      (negb (faults env (WorkQueue INDEXING_QUEUE) (tick w))
       || Queue.closed (indexingQueue w))%bool /\
    Queue.closed (blockProcessingQueue w') =
      (negb (faults env (WorkQueue BLOCK_PROCESSING_QUEUE) (S (tick w)))
       || Queue.closed (blockProcessingQueue w))%bool /\
    Queue.closed (eventProcessingQueue w') =
      (negb (faults env (WorkQueue EVENT_PROCESSING_QUEUE) (S (S (tick w))))
       || Queue.closed (eventProcessingQueue w))%bool.
Proof.
  intros Hs.
  destruct (Hs (WorkQueue INDEXING_QUEUE) (tick w)) as (d1 & E1 & _).
  destruct (Hs (WorkQueue BLOCK_PROCESSING_QUEUE) (S (tick w))) as (d2 & E2 & _).
  destruct (Hs (WorkQueue EVENT_PROCESSING_QUEUE) (S (S (tick w)))) as (d3 & E3 & _).
  unfold ShutdownService.closeQueues, ShutdownService.queues.
  cbn [forEach fst snd]. unfold BullQueue.close, await_settled. unfold_monad. cbn.
  rewrite E1.
  destruct (faults env (WorkQueue INDEXING_QUEUE) (tick w)); cbn; rewrite E2;
    (destruct (faults env (WorkQueue BLOCK_PROCESSING_QUEUE) (S (tick w))); cbn);
    rewrite E3;
    (destruct (faults env (WorkQueue EVENT_PROCESSING_QUEUE) (S (S (tick w)))); cbn);
    eexists; (split; [reflexivity|]); cbn;
    (split; [intros []; split; reflexivity|]);
    repeat split; reflexivity.
Qed.

Lemma each_queue_is_closed_on_its_own_witness :
  let env := Outage.env [(WorkQueue BLOCK_PROCESSING_QUEUE, S (tick Scenario.scheduled))] in
  exists w',
    ShutdownService.closeQueues env Scenario.scheduled = (Returned tt, w') /\
    Queue.closed (indexingQueue w') = true /\
    Queue.closed (blockProcessingQueue w') = false /\
    Queue.closed (eventProcessingQueue w') = true.
Proof.
  intros env.
  destruct (each_queue_is_closed_on_its_own env Scenario.scheduled 0)
    as (w' & Hrun & _ & H1 & H2 & H3).
  - intros c k. exists 0%N. split; [reflexivity | lia].
  - exists w'. split; [exact Hrun|].
    split; [rewrite H1 | split; [rewrite H2 | rewrite H3]]; vm_compute; reflexivity.
Defined.

Lemma reset_rows_clear t rows :
  Forall (fun r => IndexingProgress.isSyncing r = false) (map (reset_row t) rows).
Proof.
  apply List.Forall_forall. intros r Hin. apply in_map_iff in Hin as (r0 & <- & _).
  unfold reset_row. destruct (IndexingProgress.isSyncing r0) eqn:Hs; [reflexivity | exact Hs].
Qed.

Lemma reset_rows_keep t rows :
  Forall2 (fun r r' =>
             IndexingProgress.lastProcessedBlock r' = IndexingProgress.lastProcessedBlock r /\
             IndexingProgress.totalEventsProcessed r' = IndexingProgress.totalEventsProcessed r)
    rows (map (reset_row t) rows).
Proof.
  apply Forall2_map_self. intros r. unfold reset_row.
  destruct (IndexingProgress.isSyncing r); cbn; auto.
Qed.

(** X20.  markSyncingAsStopped never throws.  When its update is answered
    every row is left not syncing, with its cursor and its counter as they
    were; when the update fails the table is as it was. *)
Theorem shutdown_mark_clears_every_flag (env : Env) (w : World) (L : Z) :
  settles_within env L ->
  exists w',
    ShutdownService.markSyncingAsStopped env w = (Returned tt, w') /\
    (faults env ProgressStore (tick w) = false ->
       indexingProgressRepository w' =
         map (reset_row (now w)) (indexingProgressRepository w) /\
       Forall (fun r => IndexingProgress.isSyncing r = false)
         (indexingProgressRepository w') /\
       Forall2 (fun r r' =>
                  IndexingProgress.lastProcessedBlock r' =
                    IndexingProgress.lastProcessedBlock r /\
                  IndexingProgress.totalEventsProcessed r' =
                    IndexingProgress.totalEventsProcessed r)
         (indexingProgressRepository w) (indexingProgressRepository w')) /\
    (faults env ProgressStore (tick w) = true ->
       indexingProgressRepository w' = indexingProgressRepository w).
Proof.
  intros Hs. destruct (Hs ProgressStore (tick w)) as (d & E & _).
  unfold ShutdownService.markSyncingAsStopped, ProgressRepository.update, await_settled.
  unfold_monad. cbn. rewrite E.
  destruct (faults env ProgressStore (tick w)) eqn:Hf; cbn.
  - eexists. split; [reflexivity|]. split; [discriminate | reflexivity].
  - destruct (length (List.filter IndexingProgress.isSyncing (indexingProgressRepository w)));
      cbn; eexists; (split; [reflexivity|]); (split; [|discriminate]); intros _; cbn;
      (split; [reflexivity|]); (split; [apply reset_rows_clear | apply reset_rows_keep]).
Qed.

Lemma shutdown_mark_clears_every_flag_witness :
  exists w',
    ShutdownService.markSyncingAsStopped Scenario.env Scenario.scheduled = (Returned tt, w') /\
    map IndexingProgress.isSyncing (indexingProgressRepository w') = [false].
Proof.
  destruct (shutdown_mark_clears_every_flag Scenario.env Scenario.scheduled 0)
    as (w' & Hrun & Hok & _).
  - intros c k. exists 0%N. split; [reflexivity | lia].
  - exists w'. split; [exact Hrun|].
    destruct Hok as (H & _); [reflexivity|]. rewrite H. vm_compute. reflexivity.
Defined.

(** *** The alerts and the lag table *)

Lemma chars_append s1 s2 :
  list_ascii_of_string (String.append s1 s2) =
  list_ascii_of_string s1 ++ list_ascii_of_string s2.
Proof.
  induction s1 as [|c s1 IH]; [reflexivity|].
  change (String.append (String c s1) s2) with (String c (String.append s1 s2)).
  cbn [list_ascii_of_string app]. rewrite IH. reflexivity.
Qed.

Lemma prefix_chars p s c :
  String.prefix p s = true -> In c (list_ascii_of_string p) -> In c (list_ascii_of_string s).
Proof.
  revert s. induction p as [|x p IH]; intros s; cbn; [contradiction|].
  destruct s as [|y s]; [discriminate|].
  unfold String.prefix; fold String.prefix.
  destruct (ascii_dec x y) as [->|]; [|discriminate].
  intros Hp [->|Hin]; cbn; [left; reflexivity | right; eauto].
Qed.

Lemma includes_chars s sub c :
  includes s sub = true -> In c (list_ascii_of_string sub) -> In c (list_ascii_of_string s).
Proof.
  induction s as [|x s IH]; cbn [includes]; intros H Hin.
  - rewrite orb_false_r in H. eapply prefix_chars; eauto.
  - apply orb_true_iff in H as [H|H]; [eapply prefix_chars; eauto|].
    cbn. right. apply IH; assumption.
Qed.

Lemma pretty_N_char_digit x : is_digit (pretty_N_char x) = true.
Proof.
  unfold pretty_N_char.
  destruct x as [|p]; [reflexivity|].
  do 4 (destruct p as [p|p|]; try reflexivity).
Qed.

Lemma pretty_N_go_chars x :
  forall s c, In c (list_ascii_of_string (pretty_N_go x s)) ->
              is_digit c = true \/ In c (list_ascii_of_string s).
Proof.
  induction (N.lt_wf_0 x) as [x _ IH]. intros s c Hin.
  destruct (N.eq_dec x 0%N) as [->|Hx].
  - rewrite pretty_N_go_0 in Hin. right. exact Hin.
  - rewrite pretty_N_go_step in Hin by lia.
    apply IH in Hin; [|apply N.div_lt; lia].
    destruct Hin as [Hd|[<-|Hin]]; auto. left. apply pretty_N_char_digit.
Qed.

Lemma pretty_N_chars (x : N) c :
  In c (list_ascii_of_string (pretty x)) -> is_digit c = true.
Proof.
  unfold pretty, pretty_N. destruct (decide (x = 0%N)).
  - cbn. intros [<-|[]]. reflexivity.
  - intros H. apply pretty_N_go_chars in H as [H|[]]. exact H.
Qed.

Lemma pretty_Z_chars (x : Z) c :
  In c (list_ascii_of_string (pretty x)) -> is_digit c = true \/ c = "-"%char.
Proof.
  unfold pretty, pretty_Z. destruct x as [|p|p].
  - cbn. intros [<-|[]]. left. reflexivity.
  - intros H. left. apply (pretty_N_chars (Npos p)). exact H.
  - cbn. intros [<-|H]; [right; reflexivity|]. left. apply (pretty_N_chars (Npos p)). exact H.
Qed.

Lemma pretty_nat_chars (x : nat) c :
  In c (list_ascii_of_string (pretty x)) -> is_digit c = true.
Proof. apply pretty_N_chars. Qed.

(** Only the two connection failures read as critical. *)
Lemma is_critical_connection issue : is_critical issue = is_connection_failure issue.
Proof.
  unfold is_critical. destruct issue as [| | m | | n |]; try reflexivity.
  - cbn [is_connection_failure issue_text].
    destruct (includes _ "connection failed") eqn:E1.
    { exfalso. apply (includes_chars _ _ "f"%char) in E1; [|cbn; tauto].
      rewrite !chars_append in E1. apply in_app_or in E1 as [E1|E1].
      - cbn in E1. repeat (destruct E1 as [E1|E1]; [discriminate|]). exact E1.
      - apply in_app_or in E1 as [E1|E1].
        + apply pretty_Z_chars in E1 as [E1|E1]; discriminate.
        + cbn in E1. repeat (destruct E1 as [E1|E1]; [discriminate|]). exact E1. }
    destruct (includes _ "unhealthy") eqn:E2; [|reflexivity].
    exfalso. apply (includes_chars _ _ "u"%char) in E2; [|cbn; tauto].
    rewrite !chars_append in E2. apply in_app_or in E2 as [E2|E2].
    + cbn in E2. repeat (destruct E2 as [E2|E2]; [discriminate|]). exact E2.
    + apply in_app_or in E2 as [E2|E2].
      * apply pretty_Z_chars in E2 as [E2|E2]; discriminate.
      * cbn in E2. repeat (destruct E2 as [E2|E2]; [discriminate|]). exact E2.
  - cbn [is_connection_failure issue_text].
    destruct (includes _ "connection failed") eqn:E1.
    { exfalso. apply (includes_chars _ _ "c"%char) in E1; [|cbn; tauto].
      rewrite !chars_append in E1. apply in_app_or in E1 as [E1|E1].
      - cbn in E1. repeat (destruct E1 as [E1|E1]; [discriminate|]). exact E1.
      - apply pretty_nat_chars in E1. discriminate. }
    destruct (includes _ "unhealthy") eqn:E2; [|reflexivity].
    exfalso. apply (includes_chars _ _ "y"%char) in E2; [|cbn; tauto].
    rewrite !chars_append in E2. apply in_app_or in E2 as [E2|E2].
    + cbn in E2. repeat (destruct E2 as [E2|E2]; [discriminate|]). exact E2.
    + apply pretty_nat_chars in E2. discriminate.
Qed.

Lemma filter_pointwise {A} (f g : A -> bool) (l : list A) :
  (forall x, f x = g x) -> List.filter f l = List.filter g l.
Proof.
  intros H. induction l as [|x l IH]; cbn; [reflexivity|]. rewrite H, IH. reflexivity.
Qed.

Lemma filter_none {A} (f : A -> bool) (l : list A) :
  existsb f l = false -> List.filter f l = [].
Proof.
  induction l as [|x l IH]; cbn; [reflexivity|].
  destruct (f x); cbn; [discriminate | exact IH].
Qed.

(** X21.  getCriticalAlerts answers exactly the connection failures among
    the issues of the report, in their order: of the six issue texts only
    'Blockchain RPC connection failed' and 'Database connection failed'
    contain 'connection failed' or 'unhealthy', whatever numbers the other
    texts carry.  So a degraded report has issues but no critical alert,
    and a report with a critical alert is unhealthy.  requiresAttention
    answers whether the report is not healthy. *)
Theorem critical_alerts_are_connection_failures (env : Env) (w : World) :
  exists report w',
    HealthMonitoringService.getSystemHealth env w = (Returned report, w') /\
    HealthMonitoringService.getCriticalAlerts env w =
      (Returned (List.filter is_connection_failure (SystemHealthStatus.issues report)), w') /\
    HealthMonitoringService.requiresAttention env w =
      (Returned (match SystemHealthStatus.status report with
                 | healthy => false
                 | _ => true
                 end), w') /\
    (SystemHealthStatus.status report = degraded ->
       SystemHealthStatus.issues report <> [] /\
       List.filter is_connection_failure (SystemHealthStatus.issues report) = []) /\
    (List.filter is_connection_failure (SystemHealthStatus.issues report) <> [] ->
       SystemHealthStatus.status report = unhealthy).
Proof.
  destruct (getSystemHealth_parts env w)
    as (b & i & d & w1 & w2 & w3 & report & _ & _ & _ & Hrun & _ & _ & _ &
        Hrpc & Hdb & Hun & Hok & _).
  assert (H2 : existsb is_connection_failure (SystemHealthStatus.issues report) = true ->
               SystemHealthStatus.status report = unhealthy).
  { intros He. apply existsb_exists in He as (issue & Hin & Hc). apply Hun.
    destruct issue; try discriminate; [left; apply Hrpc | right; apply Hdb]; exact Hin. }
  exists report, w3. split; [exact Hrun|]. split; [|split; [|split]].
  - unfold HealthMonitoringService.getCriticalAlerts.
    rewrite (bind_run _ _ env w report w3 Hrun). unfold ret. do 2 f_equal.
    apply filter_pointwise. intros issue. apply is_critical_connection.
  - unfold HealthMonitoringService.requiresAttention.
    rewrite (bind_run _ _ env w report w3 Hrun). reflexivity.
  - intros Hdeg. split.
    + intros Hnil. apply Hok in Hnil. congruence.
    + apply filter_none.
      destruct (existsb is_connection_failure (SystemHealthStatus.issues report));
        [|reflexivity].
      specialize (H2 eq_refl). congruence.
  - intros Hne.
    apply H2. destruct (existsb _ _) eqn:E; [reflexivity|].
    apply filter_none in E. congruence.
Qed.

Lemma find_snoc {A} (p : A -> bool) (l : list A) (x : A) :
  List.find p (l ++ [x]) =
  match List.find p l with
  | Some y => Some y
  | None => if p x then Some x else None
  end.
Proof.
  induction l as [|y l IH]; cbn; [reflexivity|]. destruct (p y); [reflexivity | exact IH].
Qed.

Lemma syncLag_lookup (currentBlock : Z) (rows : list IndexingProgress.t) :
  forall (lags : gmap string Z) (a : string),
    fold_left (fun (lags : gmap string Z) progress =>
                 <[ IndexingProgress.contractAddress progress :=
                      currentBlock - IndexingProgress.lastProcessedBlock progress ]> lags)
      rows lags !! a =
    match last_row_at a rows with
    | Some r => Some (lag_of currentBlock r)
    | None => lags !! a
    end.
Proof.
  unfold last_row_at.
  induction rows as [|r rows IH]; intros lags a; cbn [fold_left rev]; [reflexivity|].
  rewrite IH, find_snoc.
  destruct (List.find _ (rev rows)); [reflexivity|].
  destruct (String.eqb_spec (IndexingProgress.contractAddress r) a) as [<-|Hne].
  - rewrite lookup_insert_eq. reflexivity.
  - rewrite lookup_insert_ne by exact Hne. reflexivity.
Qed.

(** X22.  With its two calls answered, checkIndexingHealth counts the
    enabled contracts and the syncing rows, and its lag table is keyed by
    the contract address alone: an address has the lag of the last row of
    the table that carries it, on whatever chain, and an address without a
    row has no entry. *)
Theorem sync_lag_is_keyed_by_address (env : Env) (w : World) :
  faults env ProgressStore (tick w) = false ->
  faults env Ledger (S (tick w)) = false ->
  exists health w',
    HealthMonitoringService.checkIndexingHealth env w = (Returned health, w') /\
    IndexingHealth.totalContracts health =
      length (AutoResumeService.enabledContracts (contracts env)) /\
    IndexingHealth.activelyIndexing health =
      length (List.filter IndexingProgress.isSyncing (indexingProgressRepository w)) /\
    forall a,
      IndexingHealth.syncLag health !! a =
      option_map (lag_of (currentBlockNumber env))
        (last_row_at a (indexingProgressRepository w)).
Proof.
  intros H0 H1.
  unfold HealthMonitoringService.checkIndexingHealth, ProgressRepository.find,
    BlockchainService.getCurrentBlockNumber.
  unfold_monad. cbn. rewrite H0. cbn. rewrite H1. cbn.
  eexists; eexists. split; [reflexivity|]. cbn. split; [reflexivity|]. split; [reflexivity|].
  intros a. rewrite syncLag_lookup. destruct (last_row_at a _); reflexivity.
Qed.

Lemma sync_lag_is_keyed_by_address_witness :
  exists health w',
    HealthMonitoringService.checkIndexingHealth Scenario.env Outage.two_rows
      = (Returned health, w') /\
    IndexingHealth.syncLag health !! Scenario.address = Some 301.
Proof.
  destruct (sync_lag_is_keyed_by_address Scenario.env Outage.two_rows)
    as (health & w' & Hrun & _ & _ & Hlag).
  - reflexivity.
  - reflexivity.
  - exists health, w'. split; [exact Hrun|]. rewrite Hlag. vm_compute. reflexivity.
Defined.

(** *** The ledger client *)

(** X23.  getOptimalBlockRange throws the error of the height query again.
    Otherwise the range ends at the ledger's height and starts at
    max(0, height - targetBlocks), 1000 by default: for a target between 0
    and the height it spans exactly the target, and it never starts below
    block 0; a negative target gives a range that starts above its end. *)
Theorem optimal_block_range_bounds (env : Env) (w : World) (targetBlocks : option Z) :
  let target := match targetBlocks with Some t => t | None => 1000 end in
  let run := BlockchainService.getOptimalBlockRange targetBlocks env w in
  (faults env Ledger (tick w) = true ->
     fst run = Thrown (CollaboratorError Ledger (tick w))) /\
  (faults env Ledger (tick w) = false ->
     exists range,
       fst run = Returned range /\
       BlockRange.toBlock range = currentBlockNumber env /\
       0 <= BlockRange.fromBlock range /\
       (0 <= target -> 0 <= currentBlockNumber env ->
          BlockRange.fromBlock range <= BlockRange.toBlock range /\
          BlockRange.toBlock range - BlockRange.fromBlock range <= target) /\
       (0 <= target <= currentBlockNumber env ->
          BlockRange.toBlock range - BlockRange.fromBlock range = target) /\
       (target < 0 -> 0 <= currentBlockNumber env ->
          BlockRange.toBlock range < BlockRange.fromBlock range)).
Proof.
  intros target run. unfold run, BlockchainService.getOptimalBlockRange,
    BlockchainService.getCurrentBlockNumber.
  fold target. unfold_monad. cbn. split; intros Hf; rewrite Hf; cbn.
  - reflexivity.
  - eexists. split; [reflexivity|]. cbn. repeat split; lia.
Qed.

Lemma optimal_block_range_bounds_witness :
  exists range,
    fst (BlockchainService.getOptimalBlockRange None Scenario.env Scenario.fresh)
      = Returned range /\
    BlockRange.toBlock range = 349 /\ 0 <= BlockRange.fromBlock range.
Proof.
  destruct (optimal_block_range_bounds Scenario.env Scenario.fresh None) as (_ & Hok).
  destruct Hok as (range & H1 & H2 & H3 & _); [reflexivity|].
  exists range. split; [exact H1|]. split; [exact H2 | exact H3].
Defined.

Lemma compareEvents_le a b :
  BlockchainService.compareEvents a b <= 0 <-> chain_order a b.
Proof.
  unfold BlockchainService.compareEvents, chain_order.
  destruct (Z.eqb_spec (TokenEvent.blockNumber a) (TokenEvent.blockNumber b)); cbn; lia.
Qed.

Lemma chain_order_total a b : chain_order a b \/ chain_order b a.
Proof. unfold chain_order. lia. Qed.

Lemma chain_order_trans a b c : chain_order a b -> chain_order b c -> chain_order a c.
Proof. unfold chain_order. lia. Qed.

Lemma insertSorted_perm x l :
  Permutation (x :: l) (BlockchainService.insertSorted BlockchainService.compareEvents x l).
Proof.
  induction l as [|y l IH]; cbn; [reflexivity|].
  destruct (Z.leb _ 0); [reflexivity|].
  rewrite perm_swap. apply perm_skip. exact IH.
Qed.

Lemma sort_perm l :
  Permutation l (BlockchainService.sort BlockchainService.compareEvents l).
Proof.
  induction l as [|x l IH]; cbn; [reflexivity|].
  rewrite <- insertSorted_perm. apply perm_skip. exact IH.
Qed.

Lemma insertSorted_ordered x l :
  ForallOrdPairs chain_order l ->
  ForallOrdPairs chain_order
    (BlockchainService.insertSorted BlockchainService.compareEvents x l).
Proof.
  induction 1 as [|y l Hy Hl IH]; cbn.
  - constructor; constructor.
  - destruct (Z.leb_spec (BlockchainService.compareEvents x y) 0) as [Hle|Hgt].
    + apply compareEvents_le in Hle. constructor; [|constructor; assumption].
      constructor; [exact Hle|].
      eapply Forall_impl; [exact Hy|]. intros z Hz. cbn in *. eapply chain_order_trans; eauto.
    + constructor; [|exact IH].
      assert (Hyx : chain_order y x).
      { destruct (chain_order_total x y) as [H|H]; [|exact H].
        apply compareEvents_le in H. lia. }
      apply List.Forall_forall. intros z Hz.
      apply (Permutation_in _ (Permutation_sym (insertSorted_perm x l))) in Hz.
      destruct Hz as [<-|Hz]; [exact Hyx|].
      rewrite List.Forall_forall in Hy. apply Hy. exact Hz.
Qed.

Lemma sort_ordered l :
  ForallOrdPairs chain_order (BlockchainService.sort BlockchainService.compareEvents l).
Proof.
  induction l as [|x l IH]; cbn; [constructor|]. apply insertSorted_ordered. exact IH.
Qed.

(** X24.  getTokenEvents answers the decoded logs of the queried event
    kinds, each once, in the order of the ledger: by block number, and
    within a block by log index, whatever the order of the kinds and of
    the logs that the queries answered.  A log that is not decoded is left
    out. *)
Theorem token_events_come_in_chain_order (eventNames : list string)
    (queryFilter : string -> list QueriedLog) :
  let events := BlockchainService.tokenEventsOf eventNames queryFilter in
  Permutation (decoded_events eventNames queryFilter) events /\
  ForallOrdPairs chain_order events /\
  (forall e, In e events <->
     exists eventName log,
       In eventName eventNames /\ In (Decoded log) (queryFilter eventName) /\
       e = BlockchainService.tokenEvent eventName log).
Proof.
  intros events. unfold events, BlockchainService.tokenEventsOf.
  fold (decoded_events eventNames queryFilter).
  split; [apply sort_perm|]. split; [apply sort_ordered|].
  intros e. split.
  - intros Hin. apply (Permutation_in _ (Permutation_sym (sort_perm _))) in Hin.
    unfold decoded_events in Hin. apply in_flat_map in Hin as (n & Hn & Hin).
    apply in_flat_map in Hin as (l & Hl & Hin).
    destruct l as [log|]; [|contradiction]. destruct Hin as [<-|[]]. eauto.
  - intros (n & log & Hn & Hl & ->). apply (Permutation_in _ (sort_perm _)).
    unfold decoded_events. apply in_flat_map. exists n. split; [exact Hn|].
    apply in_flat_map. exists (Decoded log). split; [exact Hl|]. left. reflexivity.
Qed.

(** X25.  A Transfer log with two address arguments and an amount, as
    getTokenEvents turns it into an event, is materialized by
    processTokenEvent with the addresses in lower case and the amount as
    its decimal digits, from which the amount can be read back; nothing is
    recorded as failed. *)
Theorem transfer_log_is_materialized (env : Env) (w : World) (log : EventLog.t)
    (from to : string) (value : Z) (a : string) (c : Z) :
  EventLog.args log = [ArgValue (JsString from); ArgValue (JsString to); ArgBigInt value] ->
  let event := BlockchainService.tokenEvent "Transfer" log in
  let record := TokenTransfer.mk (EventLog.transactionHash log) (EventLog.index log)
                  (EventLog.blockNumber log) (EventLog.blockHash log) (toLowerCase a)
                  (toLowerCase from) (toLowerCase to) (pretty value) c (now w) in
  transfer_of event a c (now w) = Some record /\
  (forall value', pretty value' = TokenTransfer.value record -> value' = value) /\
  (List.find (TokenTransfer.has_key (EventLog.transactionHash log) (EventLog.index log))
     (tokenTransferRepository w) = None ->
   quiet env w 3 ->
   let run := IndexingService.processTokenEvent (ProcessEventJob.mk event a c) env w in
   fst run = Returned tt /\
   tokenTransferRepository (snd run) = tokenTransferRepository w ++ [record] /\
   failedEventRepository (snd run) = failedEventRepository w).
Proof.
  intros Hargs event record.
  assert (Ht : transfer_of event a c (now w) = Some record).
  { unfold transfer_of, event, BlockchainService.tokenEvent. cbn. rewrite Hargs. reflexivity. }
  split; [exact Ht|]. split.
  - intros value' Hv. cbn in Hv. apply (inj pretty) in Hv. exact Hv.
  - intros Hfresh Hq run.
    destruct (processTokenEvent_fresh_transfer env w (ProcessEventJob.mk event a c) record)
      as (H1 & H2 & _ & H4 & _); auto.
Qed.

Lemma transfer_log_is_materialized_witness :
  let data := ProcessEventJob.mk (BlockchainService.tokenEvent "Transfer" Outage.transferLog)
                Scenario.address 137 in
  let run := IndexingService.processTokenEvent data Scenario.env Scenario.started in
  fst run = Returned tt /\
  map TokenTransfer.value (tokenTransferRepository (snd run)) = ["2500"].
Proof.
  intros data run.
  destruct (transfer_log_is_materialized Scenario.env Scenario.started Outage.transferLog
              "0xF00D" "0xBEEF" 2500 Scenario.address 137 eq_refl) as (_ & _ & Hrun).
  destruct Hrun as (H1 & H2 & _).
  - reflexivity.
  - intros c k _. reflexivity.
  - split; [exact H1|]. fold data run in H2. rewrite H2. vm_compute. reflexivity.
Defined.

(** *** The controller *)

Lemma toLowerCase_length s : String.length (toLowerCase s) = String.length s.
Proof. induction s as [|c s IH]; cbn; [reflexivity|]. rewrite IH. reflexivity. Qed.

Lemma lower_ascii_hex c :
  IndexingController.isHexDigit c = true -> IndexingController.isHexDigit (lower_ascii c) = true.
Proof.
  unfold IndexingController.isHexDigit, lower_ascii. cbv zeta.
  destruct (Nat.leb 65 (nat_of_ascii c) && Nat.leb (nat_of_ascii c) 90)%bool eqn:E; [|auto].
  intros H. apply andb_true_iff in E as [E1 E2]. apply Nat.leb_le in E1, E2.
  rewrite !orb_true_iff, !andb_true_iff, !Nat.leb_le in H.
  rewrite nat_ascii_embedding by lia.
  rewrite !orb_true_iff, !andb_true_iff, !Nat.leb_le. lia.
Qed.

Lemma chars_toLowerCase s :
  list_ascii_of_string (toLowerCase s) = map lower_ascii (list_ascii_of_string s).
Proof. induction s as [|c s IH]; cbn; [reflexivity|]. rewrite IH. reflexivity. Qed.

Lemma lower_ascii_idem c : lower_ascii (lower_ascii c) = lower_ascii c.
Proof.
  unfold lower_ascii.
  destruct (Nat.leb 65 (nat_of_ascii c) && Nat.leb (nat_of_ascii c) 90)%bool eqn:E;
    [|rewrite E; reflexivity].
  apply andb_true_iff in E as [E1 E2]. apply Nat.leb_le in E1, E2.
  rewrite nat_ascii_embedding by lia.
  destruct (Nat.leb_spec 65 (nat_of_ascii c + 32)); cbn; [|reflexivity].
  destruct (Nat.leb_spec (nat_of_ascii c + 32) 90); [lia | reflexivity].
Qed.

Lemma toLowerCase_idem s : toLowerCase (toLowerCase s) = toLowerCase s.
Proof.
  induction s as [|c s IH]; cbn; [reflexivity|]. rewrite lower_ascii_idem, IH. reflexivity.
Qed.

Lemma isValidAddress_not_empty address :
  IndexingController.isValidAddress address = true -> address <> "".
Proof. intros H ->. discriminate. Qed.

(** X26.  An address that the controller accepts has 42 characters, and
    its lower-case form, the one the services store and look up, is
    accepted as well and is its own lower-case form. *)
Theorem valid_addresses_have_42_characters (address : string) :
  IndexingController.isValidAddress address = true ->
  String.length address = 42%nat /\
  address <> "" /\
  IndexingController.isValidAddress (toLowerCase address) = true /\
  toLowerCase (toLowerCase address) = toLowerCase address.
Proof.
  unfold IndexingController.isValidAddress. intros H.
  destruct address as [|c0 [|c1 digits]]; [discriminate | |].
  { destruct c0 as [[] [] [] [] [] [] [] []]; discriminate. }
  destruct c0 as [[] [] [] [] [] [] [] []]; try discriminate.
  destruct c1 as [[] [] [] [] [] [] [] []]; try discriminate.
  apply andb_true_iff in H as [Hlen Hhex]. apply Nat.eqb_eq in Hlen.
  split; [cbn; rewrite Hlen; reflexivity|]. split; [discriminate|].
  split; [|apply toLowerCase_idem].
  cbn [toLowerCase].
  change (lower_ascii (Ascii false false false false true true false false))
    with (Ascii false false false false true true false false).
  change (lower_ascii (Ascii false false false true true true true false))
    with (Ascii false false false true true true true false).
  rewrite toLowerCase_length, Hlen. cbn [Nat.eqb andb].
  rewrite chars_toLowerCase.
  rewrite forallb_forall in *. intros c Hc. apply in_map_iff in Hc as (c' & <- & Hc).
  apply lower_ascii_hex, Hhex, Hc.
Qed.

Lemma valid_addresses_have_42_characters_witness :
  String.length Scenario.usdc = 42%nat /\
  IndexingController.isValidAddress (toLowerCase Scenario.usdc) = true.
Proof.
  destruct (valid_addresses_have_42_characters Scenario.usdc) as (H1 & _ & H3 & _).
  - vm_compute. reflexivity.
  - split; [exact H1 | exact H3].
Defined.

(** X27.  The start endpoint never lets an exception of the service
    through and answers every failure with status 500.  That holds for the
    address check too: the 400 it raises for a malformed address is
    raised inside the `try` and replaced by a 500 with the same message;
    no call has been made by then, no row written and no job enqueued. *)
Theorem invalid_address_is_answered_with_500 (env : Env) (w : World)
    (contractAddress : string) :
  let run := IndexingController.startIndexing contractAddress env w in
  (IndexingController.isValidAddress contractAddress = false ->
     fst run = Returned (inr (HttpException.mk InvalidContractAddressMessage
                                HttpStatus.INTERNAL_SERVER_ERROR)) /\
     tick (snd run) = tick w /\
     indexingProgressRepository (snd run) = indexingProgressRepository w /\
     (forall q, queue q (snd run) = queue q w)) /\
  (IndexingController.isValidAddress contractAddress = true ->
     forall e, fst (IndexingService.startIndexing contractAddress env w) = Thrown e ->
       fst run = Returned (inr (HttpException.mk (MessageOf e)
                                  HttpStatus.INTERNAL_SERVER_ERROR))) /\
  (forall e, fst run <> Thrown e) /\
  (forall h, fst run = Returned (inr h) ->
             HttpException.status h = HttpStatus.INTERNAL_SERVER_ERROR).
Proof.
  intros run. unfold run, IndexingController.startIndexing, http_try_catch, reject, resolve.
  destruct (IndexingController.isValidAddress contractAddress) eqn:Hv.
  - pose proof (isValidAddress_not_empty contractAddress Hv) as Hne.
    destruct (String.eqb_spec contractAddress ""); [contradiction|]. cbn [orb negb].
    unfold bind.
    destruct (IndexingService.startIndexing contractAddress env w) as [[[]|e|] w1]; cbn;
      repeat split; try discriminate; try (intros; congruence);
      try (intros ? [= <-]; reflexivity).
  - rewrite orb_true_r. cbn.
    repeat split; try discriminate; try (intros; congruence);
      try (intros []; reflexivity); try (intros ? [= <-]; reflexivity).
Qed.

Lemma invalid_address_is_answered_with_500_witness :
  fst (IndexingController.startIndexing "0x123" Scenario.env Scenario.fresh) =
    Returned (inr (HttpException.mk InvalidContractAddressMessage
                     HttpStatus.INTERNAL_SERVER_ERROR)).
Proof.
  destruct (invalid_address_is_answered_with_500 Scenario.env Scenario.fresh "0x123")
    as (Hbad & _).
  destruct Hbad as (H & _); [reflexivity | exact H].
Defined.
